(** * Attitude estimation of the CopterControl board

    A shallow embedding of [flight/Modules/Attitude/attitude.c]: the IIR
    low-pass filter, the sensor conditioning ([updateSensorsCC3D]), the
    complementary fusion ([updateAttitude]), the gain scheduling at the head
    of the task loop ([AttitudeTask]) and the settings callback
    ([settingsUpdatedCb]) together with the trim procedure.

    C [float] is IEEE binary32 and C [double] is IEEE binary64, both taken
    from the Standard Library's executable specification of IEEE arithmetic
    ([SpecFloat], round to nearest even).  Every C expression is written with
    the conversions the C typing rules insert (an [int] operand converted to
    [float], a [float] operand promoted to [double] next to a [double]
    constant, the result rounded back on assignment to a [float]).

    The file has the arithmetic, the data and the functions of the module
    first, then the task as a transition system over turns of the loop and
    settings updates, then the properties: facts of the IEEE rounding, the
    filter, the magnitude guard, the gyro bias integral, the sensor timeout,
    the settings callback, the trim, the choice of the gains, the time step
    and the quaternion.

    A second part embeds the task of the AHRS communication module,
    [flight/OpenPilot/Modules/AHRSComms/ahrs_comms.c], with the requests it
    loads and the objects it updates, as a transition system of its own. *)

From Stdlib Require Import ZArith Bool List Lia.
From Stdlib Require Import Floats.SpecFloat.
Import ListNotations.
Open Scope Z_scope.

(** ** C arithmetic *)

Definition float : Type := spec_float.
Definition double : Type := spec_float.

(** Binary32 operations. *)
Module F.
Definition prec : Z := 24.
Definition emax : Z := 128.

Definition add : float -> float -> float := SFadd prec emax.
Definition sub : float -> float -> float := SFsub prec emax.
Definition mul : float -> float -> float := SFmul prec emax.
Definition div : float -> float -> float := SFdiv prec emax.
Definition sqrtf : float -> float := SFsqrt prec emax.
Definition neg : float -> float := SFopp.
Definition ltb : float -> float -> bool := SFltb.
Definition eqb : float -> float -> bool := SFeqb.

(** Conversion of an integer value to [float]. *)
Definition of_Z (n : Z) : float := binary_normalize prec emax n 0 false.

(** The literal [n / d] rounded to [float]; a decimal literal such as
    [0.004f] is [lit 4 1000]. *)
Definition lit (n : Z) (d : positive) : float :=
  match n with
  | Z0 => S754_zero false
  | Zpos p => div (S754_finite false p 0) (S754_finite false d 0)
  | Zneg p => div (S754_finite true p 0) (S754_finite false d 0)
  end.

(** Conversion of a [float] to a signed 16 bit integer: truncation toward
    zero, undefined (here [None]) when the truncated value does not fit. *)
Definition to_int16 (x : float) : option Z :=
  match x with
  | S754_zero _ => Some 0
  | S754_finite s m e =>
      let a := match e with
               | Zneg p => Z.shiftr (Zpos m) (Zpos p)
               | _ => Z.shiftl (Zpos m) e
               end in
      let v := if s then - a else a in
      if (-32768 <=? v) && (v <=? 32767) then Some v else None
  | _ => None
  end.
End F.

(** Binary64 operations and the conversions between the two formats. *)
Module D.
Definition prec : Z := 53.
Definition emax : Z := 1024.

Definition mul : double -> double -> double := SFmul prec emax.
Definition div : double -> double -> double := SFdiv prec emax.
Definition fabs : double -> double := SFabs.
Definition ltb : double -> double -> bool := SFltb.

Definition of_Z (n : Z) : double := binary_normalize prec emax n 0 false.

Definition lit (n : Z) (d : positive) : double :=
  match n with
  | Z0 => S754_zero false
  | Zpos p => div (S754_finite false p 0) (S754_finite false d 0)
  | Zneg p => div (S754_finite true p 0) (S754_finite false d 0)
  end.

(** Promotion [float] to [double]: exact, the mantissa realigned. *)
Definition of_float (x : float) : double :=
  match x with
  | S754_finite s m e => binary_round prec emax s m e
  | _ => x
  end.

(** Conversion [double] to [float]: rounding to nearest even. *)
Definition to_float (x : double) : float :=
  match x with
  | S754_finite s m e => binary_round F.prec F.emax s m e
  | _ => x
  end.
End D.

Declare Scope float_scope.
Delimit Scope float_scope with flt.
Infix "+" := F.add : float_scope.
Infix "-" := F.sub : float_scope.
Infix "*" := F.mul : float_scope.
Infix "/" := F.div : float_scope.
Notation "- x" := (F.neg x) : float_scope.

(** [x != x], the C test for not-a-number. *)
Definition is_nan (x : float) : bool := negb (F.eqb x x).

(** Truncation of an integer to [int16_t] on assignment (two's complement). *)
Definition int16_wrap (n : Z) : Z := (n + 32768) mod 65536 - 32768.

(** [int32_t] division: undefined for a zero divisor and for the one
    overflowing quotient; truncation toward zero otherwise. *)
Definition int32_div (a b : Z) : option Z :=
  if b =? 0 then None
  else if (a =? -2147483648) && (b =? -1) then None
  else Some (Z.quot a b).

(** C arrays of three and of four elements. *)
Record arr3 (A : Type) : Type := Arr3 { ix0 : A; ix1 : A; ix2 : A }.
Arguments Arr3 {A} _ _ _.
Arguments ix0 {A} _.
Arguments ix1 {A} _.
Arguments ix2 {A} _.

Record arr4 (A : Type) : Type := Arr4 { qx0 : A; qx1 : A; qx2 : A; qx3 : A }.
Arguments Arr4 {A} _ _ _ _.
Arguments qx0 {A} _.
Arguments qx1 {A} _.
Arguments qx2 {A} _.
Arguments qx3 {A} _.

Definition f0 : float := S754_zero false.
Definition f1 : float := F.of_Z 1.

(** ** Constants of the module *)

Definition SENSOR_PERIOD : Z := 4.

(** Declared "for running trim flights" and read nowhere in the module. *)
Definition MAX_TRIM_FLIGHT_SAMPLES : Z := 65535.

Definition GRAV : float := F.lit 981 100.
Definition ACCEL_SCALE : float := (GRAV * F.lit 4 1000)%flt.

(** ** Digital low pass filter (4th order Chebyshev type II) *)

Definition _b0 : float := F.lit 98778675104 100000000000000.
Definition _b1 : float := F.lit (-376234890193) 100000000000000.
Definition _b2 : float := F.lit 555374469529 100000000000000.
Definition _b3 : float := F.lit (-376234890193) 100000000000000.
Definition _b4 : float := F.lit 98778675104 100000000000000.

Definition _a1 : float := F.lit (-387812973499889) 100000000000000.
Definition _a2 : float := F.lit 564176257281588 100000000000000.
Definition _a3 : float := F.lit (-364887595541910) 100000000000000.
Definition _a4 : float := F.lit 88524773799562 100000000000000.

Record fourthOrderData : Type := FourthOrderData {
  inputTm1 : float; inputTm2 : float; inputTm3 : float; inputTm4 : float;
  outputTm1 : float; outputTm2 : float; outputTm3 : float; outputTm4 : float
}.

(** [computeFourthOrder]: the output and the updated filter parameters. *)
Definition computeFourthOrder (currentInput : float) (fp : fourthOrderData)
  : float * fourthOrderData :=
  let output :=
    (_b0 * currentInput +
     _b1 * inputTm1 fp +
     _b2 * inputTm2 fp +
     _b3 * inputTm3 fp +
     _b4 * inputTm4 fp -
     _a1 * outputTm1 fp -
     _a2 * outputTm2 fp -
     _a3 * outputTm3 fp -
     _a4 * outputTm4 fp)%flt in
  (output,
   {| inputTm4 := inputTm3 fp;
      inputTm3 := inputTm2 fp;
      inputTm2 := inputTm1 fp;
      inputTm1 := currentInput;
      outputTm4 := outputTm3 fp;
      outputTm3 := outputTm2 fp;
      outputTm2 := outputTm1 fp;
      outputTm1 := output |}).

(** [apply_accel_filter]: [enabled] is the static [accel_filter_enabled];
    the result is the array [filtered] and the three filter parameters. *)
Definition apply_accel_filter (enabled : bool) (raw : arr3 float)
    (filterParams : arr3 fourthOrderData)
  : arr3 float * arr3 fourthOrderData :=
  if enabled then
    let '(y0, p0) := computeFourthOrder (ix0 raw) (ix0 filterParams) in
    let '(y1, p1) := computeFourthOrder (ix1 raw) (ix1 filterParams) in
    let '(y2, p2) := computeFourthOrder (ix2 raw) (ix2 filterParams) in
    (Arr3 y0 y1 y2, Arr3 p0 p1 p2)
  else
    (Arr3 (ix0 raw) (ix1 raw) (ix2 raw), filterParams).

(** ** Collaborators

    The UAVObjects, the sensor driver and the coordinate conversions are
    declared in headers that are not part of the sources; the fields below
    are the ones [attitude.c] reads and writes. *)

Inductive TrimFlightOptions : Type :=
  | TRIMFLIGHT_NORMAL | TRIMFLIGHT_START | TRIMFLIGHT_LOAD.

Inductive ArmedOptions : Type :=
  | ARMED_DISARMED | ARMED_ARMING | ARMED_ARMED.

Inductive AlarmLevel : Type :=
  | ALARM_OK | ALARM_ERROR.

Definition Armed_eqb (a b : ArmedOptions) : bool :=
  match a, b with
  | ARMED_DISARMED, ARMED_DISARMED => true
  | ARMED_ARMING, ARMED_ARMING => true
  | ARMED_ARMED, ARMED_ARMED => true
  | _, _ => false
  end.

(** The AttitudeSettings object; [ZeroDuringArming] and [BiasCorrectGyro]
    hold the result of the comparison with their [_TRUE] option. *)
Record AttitudeSettingsData : Type := {
  AccelKp : float;
  AccelKi : float;
  YawBiasRate : float;
  GyroGain : float;
  ZeroDuringArming : bool;
  BiasCorrectGyro : bool;
  AccelBias : arr3 Z;
  GyroBias : arr3 Z;
  BoardRotation : arr3 Z;
  TrimFlight : TrimFlightOptions
}.

Module Accels.
Record Data : Type := { x : float; y : float; z : float; temperature : float }.
End Accels.

Module Gyros.
Record Data : Type := { x : float; y : float; z : float; temperature : float }.
End Gyros.

Record AttitudeActualData : Type := {
  q1 : float; q2 : float; q3 : float; q4 : float;
  Roll : float; Pitch : float; Yaw : float
}.

(** One sample of the MPU6050 queue, signed 16 bit counts. *)
Record pios_mpu6050_data : Type := {
  gyro_x : Z; gyro_y : Z; gyro_z : Z;
  accel_x : Z; accel_y : Z; accel_z : Z;
  temperature : Z
}.

(** What the module hands to the other subsystems, most recent first. *)
Inductive publication : Type :=
  | GyrosSet (d : Gyros.Data)
  | AccelsSet (d : Accels.Data)
  | AttitudeActualSet (d : AttitudeActualData)
  | AttitudeSettingsSet (d : AttitudeSettingsData).

(** The sensor scales and the conversions that need the C math library. *)
Class Platform : Type := {
  PIOS_MPU6050_GetScale : float;
  PIOS_MPU6050_GetAccelScale : float;
  RPY2Quaternion : arr3 float -> arr4 float;
  Quaternion2R : arr4 float -> arr3 (arr3 float);
  Quaternion2RPY : arr4 float -> arr3 float
}.

(** Modelled from the spec: the FreeRTOS tick constants ([portmacro.h] is not
    part of the sources).  The spec has the tick difference "converted to
    seconds" by the division by 1000 and a "nominal 1 ms step" for a clock
    that has not advanced: a 32 bit tick counter at 1 kHz. *)
Definition portMAX_DELAY : Z := 4294967295.
Definition portTICK_RATE_MS : Z := 1.

(** Modelled from the spec: the cross product of [CoordinateConversions],
    "error vector = cross(filtered accel, filtered gravity)". *)
Definition CrossProduct (v1 v2 : arr3 float) : arr3 float :=
  Arr3 (ix1 v1 * ix2 v2 - ix1 v2 * ix2 v1)%flt
       (ix0 v2 * ix2 v1 - ix0 v1 * ix2 v2)%flt
       (ix0 v1 * ix1 v2 - ix0 v2 * ix1 v1)%flt.

(** Modelled from the spec: [rot_mult] of [CoordinateConversions], "multiply
    gyro and accel vectors by the rotation matrix". *)
Definition rot_mult (R : arr3 (arr3 float)) (vec : arr3 float) : arr3 float :=
  Arr3 (ix0 (ix0 R) * ix0 vec + ix1 (ix0 R) * ix1 vec + ix2 (ix0 R) * ix2 vec)%flt
       (ix0 (ix1 R) * ix0 vec + ix1 (ix1 R) * ix1 vec + ix2 (ix1 R) * ix2 vec)%flt
       (ix0 (ix2 R) * ix0 vec + ix1 (ix2 R) * ix1 vec + ix2 (ix2 R) * ix2 vec)%flt.

(** ** The static variables

    Grouped by the component that owns them. *)

(** Gains and filter switch: written by the task loop and by the callback. *)
Record gains : Type := {
  accelKp : float;
  accelKi : float;
  yawBiasRate : float;
  gyroGain : float;
  accel_filter_enabled : bool
}.

(** Board parameters: written by the callback only. *)
Record board : Type := {
  accelbias : arr3 Z;
  R : arr3 (arr3 float);
  rotate : Z;
  zero_during_arming : bool;
  bias_correct_gyro : bool
}.

(** Trim flight variables. *)
Record trim : Type := {
  trim_requested : bool;
  trim_accels : arr3 Z;
  trim_samples : Z
}.

(** Estimator: the quaternion, the gyro bias integral, the filters and the
    static [lastSysTime] of [updateAttitude]. *)
Record estimator : Type := {
  q : arr4 float;
  gyro_correct_int : arr3 float;
  accels_filtered : arr3 float;
  grot_filtered : arr3 float;
  filterParams_acc : arr3 fourthOrderData;
  filterParams_grot : arr3 fourthOrderData;
  lastSysTime : Z
}.

(** The whole of the module's state, with the local [init] of the task, the
    static [mpu6050_data], the AttitudeSettings object, the attitude alarm
    and the publications made so far. *)
Record state : Type := {
  est : estimator;
  gn : gains;
  brd : board;
  trm : trim;
  init : Z;
  mpu6050_data : pios_mpu6050_data;
  AttitudeSettings : AttitudeSettingsData;
  alarm : AlarmLevel;
  published : list publication
}.

Definition set_est (e : estimator) (s : state) : state :=
  {| est := e; gn := gn s; brd := brd s; trm := trm s; init := init s;
     mpu6050_data := mpu6050_data s; AttitudeSettings := AttitudeSettings s;
     alarm := alarm s; published := published s |}.

Definition set_gn (g : gains) (s : state) : state :=
  {| est := est s; gn := g; brd := brd s; trm := trm s; init := init s;
     mpu6050_data := mpu6050_data s; AttitudeSettings := AttitudeSettings s;
     alarm := alarm s; published := published s |}.

Definition set_init (i : Z) (s : state) : state :=
  {| est := est s; gn := gn s; brd := brd s; trm := trm s; init := i;
     mpu6050_data := mpu6050_data s; AttitudeSettings := AttitudeSettings s;
     alarm := alarm s; published := published s |}.

Definition set_mpu6050_data (d : pios_mpu6050_data) (s : state) : state :=
  {| est := est s; gn := gn s; brd := brd s; trm := trm s; init := init s;
     mpu6050_data := d; AttitudeSettings := AttitudeSettings s;
     alarm := alarm s; published := published s |}.

Definition set_alarm (a : AlarmLevel) (s : state) : state :=
  {| est := est s; gn := gn s; brd := brd s; trm := trm s; init := init s;
     mpu6050_data := mpu6050_data s; AttitudeSettings := AttitudeSettings s;
     alarm := a; published := published s |}.

Definition publish (p : publication) (s : state) : state :=
  {| est := est s; gn := gn s; brd := brd s; trm := trm s; init := init s;
     mpu6050_data := mpu6050_data s; AttitudeSettings := AttitudeSettings s;
     alarm := alarm s; published := p :: published s |}.

Definition set_gyro_correct_int (v : arr3 float) (e : estimator) : estimator :=
  {| q := q e; gyro_correct_int := v; accels_filtered := accels_filtered e;
     grot_filtered := grot_filtered e; filterParams_acc := filterParams_acc e;
     filterParams_grot := filterParams_grot e; lastSysTime := lastSysTime e |}.

(** ** Undefined behaviour

    What [settingsUpdatedCb] can run into: a division by zero (or the
    overflowing [int32_t] quotient), a [float] that does not fit the
    [int16_t] it is assigned to.  A computation either is done or has
    reached an undefined operation, in the state it had reached then. *)
Inductive fault : Type := DivisionFault | ConversionFault.

Inductive result (A : Type) : Type :=
  | Done (a : A)
  | Fault (f : fault) (at_fault : state).
Arguments Done {A} _.
Arguments Fault {A} _ _.

Definition bind {A B : Type} (r : result A) (k : A -> result B) : result B :=
  match r with
  | Done a => k a
  | Fault f s => Fault f s
  end.

(** The value of [o], or the fault [f] in the state [s]. *)
Definition lift {A : Type} (f : fault) (s : state) (o : option A) : result A :=
  match o with
  | Some a => Done a
  | None => Fault f s
  end.

(** The state a computation has reached, done or not. *)
Definition reached (r : result state) : state :=
  match r with
  | Done s => s
  | Fault _ s => s
  end.

(** ** The module's functions *)

Section Attitude.
Context {pf : Platform}.

(** [updateSensorsCC3D], in the build with [PIOS_INCLUDE_MPU6050].  [queue]
    is what [xQueueReceive] delivers within [SENSOR_PERIOD] ticks, [None] for
    [errQUEUE_EMPTY].  The result is the return value, the state and the two
    structures the caller passed by pointer. *)
Definition updateSensorsCC3D (GyrosReadOnly AccelsReadOnly : bool)
    (queue : option pios_mpu6050_data)
    (accelsData : Accels.Data) (gyrosData : Gyros.Data) (s : state)
  : Z * state * Accels.Data * Gyros.Data :=
  if GyrosReadOnly || AccelsReadOnly then (0, s, accelsData, gyrosData)
  else
    match queue with
    | None => (-1, s, accelsData, gyrosData)
    | Some d =>
      let s := set_mpu6050_data d s in
      let gyros := Arr3 (F.of_Z (gyro_x d) * PIOS_MPU6050_GetScale)%flt
                        (F.of_Z (- gyro_y d) * PIOS_MPU6050_GetScale)%flt
                        (F.of_Z (- gyro_z d) * PIOS_MPU6050_GetScale)%flt in
      let accels := Arr3 (F.of_Z (accel_x d) * PIOS_MPU6050_GetAccelScale)%flt
                         (F.of_Z (- accel_y d) * PIOS_MPU6050_GetAccelScale)%flt
                         (F.of_Z (- accel_z d) * PIOS_MPU6050_GetAccelScale)%flt in
      let temp := (F.of_Z 35 + (F.of_Z (temperature d) + F.of_Z 512) / F.of_Z 340)%flt in
      let accels := if rotate (brd s) =? 0 then accels else rot_mult (R (brd s)) accels in
      let gyros := if rotate (brd s) =? 0 then gyros else rot_mult (R (brd s)) gyros in
      let accelsData :=
        {| Accels.x := (ix0 accels - F.of_Z (ix0 (accelbias (brd s))) * ACCEL_SCALE)%flt;
           Accels.y := (ix1 accels - F.of_Z (ix1 (accelbias (brd s))) * ACCEL_SCALE)%flt;
           Accels.z := (ix2 accels - F.of_Z (ix2 (accelbias (brd s))) * ACCEL_SCALE)%flt;
           Accels.temperature := temp |} in
      let gci := gyro_correct_int (est s) in
      let gyrosData :=
        if bias_correct_gyro (brd s) then
          {| Gyros.x := (ix0 gyros + ix0 gci)%flt;
             Gyros.y := (ix1 gyros + ix1 gci)%flt;
             Gyros.z := (ix2 gyros + ix2 gci)%flt;
             Gyros.temperature := temp |}
        else
          {| Gyros.x := ix0 gyros; Gyros.y := ix1 gyros; Gyros.z := ix2 gyros;
             Gyros.temperature := temp |} in
      let gci := Arr3 (ix0 gci) (ix1 gci)
                      (ix2 gci + (- Gyros.z gyrosData) * yawBiasRate (gn s))%flt in
      let s := set_est (set_gyro_correct_int gci (est s)) s in
      let s := publish (GyrosSet gyrosData) s in
      let s := publish (AccelsSet accelsData) s in
      (0, s, accelsData, gyrosData)
    end.

Definition M_PI : double := D.lit 314159265358979323846 100000000000000000000.

(** The time step of [updateAttitude], in seconds. *)
Definition compute_dT (thisSysTime lastSysTime : Z) : float :=
  D.to_float
    (if thisSysTime =? lastSysTime then D.lit 1 1000
     else D.of_float
            (F.of_Z (Z.land portMAX_DELAY ((thisSysTime - lastSysTime) mod 4294967296)
                     / portTICK_RATE_MS)
             / F.of_Z 1000)%flt).

(** [x * dT * M_PI / 180 / 2] assigned to a [float]. *)
Definition half_rad (x dT : float) : float :=
  D.to_float (D.div (D.div (D.mul (D.of_float (x * dT)%flt) M_PI) (D.of_Z 180)) (D.of_Z 2)).

Definition norm3 (v : arr3 float) : float :=
  F.sqrtf (ix0 v * ix0 v + ix1 v * ix1 v + ix2 v * ix2 v)%flt.

Definition norm4 (v : arr4 float) : float :=
  F.sqrtf (qx0 v * qx0 v + qx1 v * qx1 v + qx2 v * qx2 v + qx3 v * qx3 v)%flt.

Definition q_identity : arr4 float := Arr4 f1 f0 f0 f0.

(** The gravity direction in the body frame, [grot] of [updateAttitude]. *)
Definition predicted_gravity (qq : arr4 float) : arr3 float :=
  let two := F.of_Z 2 in
  Arr3 (- (two * (qx1 qq * qx3 qq - qx0 qq * qx2 qq)))%flt
       (- (two * (qx2 qq * qx3 qq + qx0 qq * qx1 qq)))%flt
       (- (qx0 qq * qx0 qq - qx1 qq * qx1 qq - qx2 qq * qx2 qq + qx3 qq * qx3 qq))%flt.

(** The time step of the quaternion, the scoped block of [updateAttitude]:
    [qdot], the sum, the canonical sign. *)
Definition integrate_rates (qq : arr4 float) (gyros : arr3 float) (dT : float)
  : arr4 float :=
  let g0 := ix0 gyros in
  let g1 := ix1 gyros in
  let g2 := ix2 gyros in
  let qdot :=
    Arr4 (half_rad (- qx1 qq * g0 - qx2 qq * g1 - qx3 qq * g2)%flt dT)
         (half_rad (qx0 qq * g0 - qx3 qq * g1 + qx2 qq * g2)%flt dT)
         (half_rad (qx3 qq * g0 + qx0 qq * g1 - qx1 qq * g2)%flt dT)
         (half_rad (- qx2 qq * g0 + qx1 qq * g1 + qx0 qq * g2)%flt dT) in
  let qn := Arr4 (qx0 qq + qx0 qdot)%flt (qx1 qq + qx1 qdot)%flt
                 (qx2 qq + qx2 qdot)%flt (qx3 qq + qx3 qdot)%flt in
  if F.ltb (qx0 qn) (F.of_Z 0)
  then Arr4 (- qx0 qn)%flt (- qx1 qn)%flt (- qx2 qn)%flt (- qx3 qn)%flt
  else qn.

(** The test that guards the reinitialisation of the quaternion:
    [(fabs(qmag) < 1e-3) || (qmag != qmag)]. *)
Definition degenerate (qmag : float) : bool :=
  D.ltb (D.fabs (D.of_float qmag)) (D.lit 1 1000) || is_nan qmag.

(** The renormalisation that ends [updateAttitude]. *)
Definition renormalize (qn : arr4 float) : arr4 float :=
  let qmag := norm4 qn in
  let qd := Arr4 (qx0 qn / qmag)%flt (qx1 qn / qmag)%flt
                 (qx2 qn / qmag)%flt (qx3 qn / qmag)%flt in
  if degenerate qmag then q_identity else qd.

(** [updateAttitude]; [thisSysTime] is the tick count read on entry.  The
    corrected rates written back into [gyrosData] are local to the caller and
    are not returned. *)
Definition updateAttitude (thisSysTime : Z)
    (accelsData : Accels.Data) (gyrosData : Gyros.Data) (s : state) : state :=
  let e := est s in
  let dT := compute_dT thisSysTime (lastSysTime e) in
  let gyros := Arr3 (Gyros.x gyrosData) (Gyros.y gyrosData) (Gyros.z gyrosData) in
  let accels := Arr3 (Accels.x accelsData) (Accels.y accelsData) (Accels.z accelsData) in
  let enabled := accel_filter_enabled (gn s) in
  let '(accels_f, fp_acc) := apply_accel_filter enabled accels (filterParams_acc e) in
  let grot := predicted_gravity (q e) in
  let '(grot_f, fp_grot) := apply_accel_filter enabled grot (filterParams_grot e) in
  let accel_err := CrossProduct accels_f grot_f in
  (* the statics written so far *)
  let e1 :=
    {| q := q e; gyro_correct_int := gyro_correct_int e;
       accels_filtered := accels_f; grot_filtered := grot_f;
       filterParams_acc := fp_acc; filterParams_grot := fp_grot;
       lastSysTime := thisSysTime |} in
  let accel_mag := norm3 accels_f in
  if F.ltb accel_mag (F.lit 1 1000) then set_est e1 s
  else
    let grot_mag := if enabled then norm3 grot_f else F.of_Z 1 in
    if F.ltb grot_mag (F.lit 1 1000) then set_est e1 s
    else
      let accel_err :=
        Arr3 (ix0 accel_err / (accel_mag * grot_mag))%flt
             (ix1 accel_err / (accel_mag * grot_mag))%flt
             (ix2 accel_err / (accel_mag * grot_mag))%flt in
      let gci := gyro_correct_int e in
      let gci := Arr3 (ix0 gci + ix0 accel_err * accelKi (gn s))%flt
                      (ix1 gci + ix1 accel_err * accelKi (gn s))%flt
                      (ix2 gci) in
      let gyros :=
        Arr3 (ix0 gyros + ix0 accel_err * accelKp (gn s) / dT)%flt
             (ix1 gyros + ix1 accel_err * accelKp (gn s) / dT)%flt
             (ix2 gyros + ix2 accel_err * accelKp (gn s) / dT)%flt in
      let qn := renormalize (integrate_rates (q e) gyros dT) in
      let e2 :=
        {| q := qn; gyro_correct_int := gci;
           accels_filtered := accels_f; grot_filtered := grot_f;
           filterParams_acc := fp_acc; filterParams_grot := fp_grot;
           lastSysTime := thisSysTime |} in
      let rpy := Quaternion2RPY qn in
      publish (AttitudeActualSet
                 {| q1 := qx0 qn; q2 := qx1 qn; q3 := qx2 qn; q4 := qx3 qn;
                    Roll := ix0 rpy; Pitch := ix1 rpy; Yaw := ix2 rpy |})
              (set_est e2 s).

(** [AlarmsSet] and [AlarmsClear] on the attitude alarm. *)
Definition AlarmsSet (a : AlarmLevel) (s : state) : state := set_alarm a s.
Definition AlarmsClear (s : state) : state := set_alarm ALARM_OK s.

Notation "x <- r ;; k" := (bind r (fun x => k))
  (at level 61, r at next level, right associativity).

(** [settingsUpdatedCb]: the callback of the AttitudeSettings object. *)
Definition settingsUpdatedCb (s : state) : result state :=
  let attitudeSettings := AttitudeSettings s in
  let g := {| accelKp := AccelKp attitudeSettings;
              accelKi := AccelKi attitudeSettings;
              yawBiasRate := YawBiasRate attitudeSettings;
              gyroGain := GyroGain attitudeSettings;
              accel_filter_enabled := accel_filter_enabled (gn s) |} in
  let gci := Arr3 (F.of_Z (ix0 (GyroBias attitudeSettings)) / F.of_Z 100)%flt
                  (F.of_Z (ix1 (GyroBias attitudeSettings)) / F.of_Z 100)%flt
                  (F.of_Z (ix2 (GyroBias attitudeSettings)) / F.of_Z 100)%flt in
  let br := BoardRotation attitudeSettings in
  let b :=
    if (ix0 br =? 0) && (ix1 br =? 0) && (ix2 br =? 0) then
      {| accelbias := AccelBias attitudeSettings;
         R := Quaternion2R q_identity;
         rotate := 0;
         zero_during_arming := ZeroDuringArming attitudeSettings;
         bias_correct_gyro := BiasCorrectGyro attitudeSettings |}
    else
      {| accelbias := AccelBias attitudeSettings;
         R := Quaternion2R
                (RPY2Quaternion
                   (Arr3 (F.of_Z (ix0 br)) (F.of_Z (ix1 br)) (F.of_Z (ix2 br))));
         rotate := 1;
         zero_during_arming := ZeroDuringArming attitudeSettings;
         bias_correct_gyro := BiasCorrectGyro attitudeSettings |} in
  let upd (t : trim) (a : AttitudeSettingsData) (p : list publication) : state :=
    {| est := set_gyro_correct_int gci (est s); gn := g; brd := b; trm := t;
       init := init s; mpu6050_data := mpu6050_data s; AttitudeSettings := a;
       alarm := alarm s; published := p |} in
  match TrimFlight attitudeSettings with
  | TRIMFLIGHT_START =>
      Done (upd {| trim_requested := true; trim_accels := Arr3 0 0 0; trim_samples := 0 |}
                attitudeSettings (published s))
  | TRIMFLIGHT_LOAD =>
      let t := {| trim_requested := false;
                  trim_accels := trim_accels (trm s);
                  trim_samples := trim_samples (trm s) |} in
      let s1 := upd t attitudeSettings (published s) in
      bx <- lift DivisionFault s1 (int32_div (ix0 (trim_accels t)) (trim_samples t)) ;;
      by_ <- lift DivisionFault s1 (int32_div (ix1 (trim_accels t)) (trim_samples t)) ;;
      mz <- lift DivisionFault s1 (int32_div (ix2 (trim_accels t)) (trim_samples t)) ;;
      bz <- lift ConversionFault s1 (F.to_int16 (F.of_Z mz + GRAV / ACCEL_SCALE)%flt) ;;
      let a :=
        {| AccelKp := AccelKp attitudeSettings;
           AccelKi := AccelKi attitudeSettings;
           YawBiasRate := YawBiasRate attitudeSettings;
           GyroGain := GyroGain attitudeSettings;
           ZeroDuringArming := ZeroDuringArming attitudeSettings;
           BiasCorrectGyro := BiasCorrectGyro attitudeSettings;
           AccelBias := Arr3 (int16_wrap bx) (int16_wrap by_) bz;
           GyroBias := GyroBias attitudeSettings;
           BoardRotation := BoardRotation attitudeSettings;
           TrimFlight := TRIMFLIGHT_NORMAL |} in
      Done (upd t a (AttitudeSettingsSet a :: published s))
  | TRIMFLIGHT_NORMAL =>
      Done (upd {| trim_requested := false;
                   trim_accels := trim_accels (trm s);
                   trim_samples := trim_samples (trm s) |}
                attitudeSettings (published s))
  end.

(** What one turn of the task loop reads from outside the module: the two
    tick counts of the warm-up test, the armed status, the read-only flags of
    the three objects, the sensor queue, the tick count read by
    [updateAttitude], and the contents of the uninitialised locals
    [accels] and [gyros]. *)
Record cycle_input : Type := {
  tick_lt : Z;
  tick_gt : Z;
  Armed : ArmedOptions;
  GyrosReadOnly : bool;
  AccelsReadOnly : bool;
  AttitudeActualReadOnly : bool;
  queue : option pios_mpu6050_data;
  tick_att : Z;
  accels_local : Accels.Data;
  gyros_local : Gyros.Data
}.

(** The gains forced during warm-up and while arming. *)
Definition forced_gains (g : gains) : gains :=
  {| accelKp := F.of_Z 1;
     accelKi := D.to_float (D.lit 9 10);
     yawBiasRate := D.to_float (D.lit 23 100);
     gyroGain := gyroGain g;
     accel_filter_enabled := false |}.

(** The head of the task loop: the choice of the gains. *)
Definition AttitudeTask_gains (i : cycle_input) (s : state) : state :=
  if (tick_lt i <? 7000) && (tick_gt i >? 1000) then
    set_init 0 (set_gn (forced_gains (gn s)) s)
  else if zero_during_arming (brd s) && Armed_eqb (Armed i) ARMED_ARMING then
    set_init 0 (set_gn (forced_gains (gn s)) s)
  else if init s =? 0 then
    set_init 1
      (set_gn {| accelKp := AccelKp (AttitudeSettings s);
                 accelKi := AccelKi (AttitudeSettings s);
                 yawBiasRate := YawBiasRate (AttitudeSettings s);
                 gyroGain := gyroGain (gn s);
                 accel_filter_enabled := true |} s)
  else s.

(** One turn of the [while (1)] loop of [AttitudeTask]. *)
Definition AttitudeTask_cycle (i : cycle_input) (s : state) : state :=
  let s := AttitudeTask_gains i s in
  let '(retval, s, accels, gyros) :=
    updateSensorsCC3D (GyrosReadOnly i) (AccelsReadOnly i) (queue i)
                      (accels_local i) (gyros_local i) s in
  if negb (retval =? 0) then AlarmsSet ALARM_ERROR s
  else
    let s := if negb (AttitudeActualReadOnly i)
             then updateAttitude (tick_att i) accels gyros s
             else s in
    AlarmsClear s.

End Attitude.

(** ** The task as a transition system *)

Definition zero3 : arr3 float := Arr3 f0 f0 f0.

Definition filter_zero : fourthOrderData :=
  {| inputTm1 := f0; inputTm2 := f0; inputTm3 := f0; inputTm4 := f0;
     outputTm1 := f0; outputTm2 := f0; outputTm3 := f0; outputTm4 := f0 |}.

(** The statics as their initialisers and [AttitudeInitialize] leave them,
    with the local [init] and the alarm as they are on entry to the loop of
    [AttitudeTask], before the first call of the callback.  Publications are
    recorded from there on. *)
Definition boot (a : AttitudeSettingsData) : state :=
  {| est := {| q := q_identity;
               gyro_correct_int := zero3;
               accels_filtered := zero3;
               grot_filtered := zero3;
               filterParams_acc := Arr3 filter_zero filter_zero filter_zero;
               filterParams_grot := Arr3 filter_zero filter_zero filter_zero;
               lastSysTime := 0 |};
     gn := {| accelKp := f0; accelKi := f0; yawBiasRate := f0;
              gyroGain := D.to_float (D.lit 42 100);
              accel_filter_enabled := false |};
     brd := {| accelbias := Arr3 0 0 0;
               R := Arr3 zero3 zero3 zero3;
               rotate := 0;
               zero_during_arming := false;
               bias_correct_gyro := true |};
     trm := {| trim_requested := false;
               trim_accels := Arr3 0 0 0;
               trim_samples := 0 |};
     init := 0;
     mpu6050_data := {| gyro_x := 0; gyro_y := 0; gyro_z := 0;
                        accel_x := 0; accel_y := 0; accel_z := 0; temperature := 0 |};
     AttitudeSettings := a;
     alarm := ALARM_OK;
     published := [] |}.

Definition set_AttitudeSettings (a : AttitudeSettingsData) (s : state) : state :=
  {| est := est s; gn := gn s; brd := brd s; trm := trm s; init := init s;
     mpu6050_data := mpu6050_data s; AttitudeSettings := a;
     alarm := alarm s; published := published s |}.

(** What happens to the module: a turn of the task loop, or a new value of
    the AttitudeSettings object, delivered to the callback.  The callback is
    taken to run between two turns of the loop; the further notification that
    follows the [AttitudeSettingsSet] of a Load command is an event of its
    own. *)
Inductive event : Type :=
  | Cycle (i : cycle_input)
  | SettingsUpdated (a : AttitudeSettingsData).

Section Run.
Context {pf : Platform}.

Definition handle (ev : event) (s : state) : result state :=
  match ev with
  | Cycle i => Done (AttitudeTask_cycle i s)
  | SettingsUpdated a => settingsUpdatedCb (set_AttitudeSettings a s)
  end.

Fixpoint run (evs : list event) (s : state) : result state :=
  match evs with
  | [] => Done s
  | ev :: rest =>
      match handle ev s with
      | Done s' => run rest s'
      | Fault f s' => Fault f s'
      end
  end.

(** [AttitudeTask] up to its loop: the forced settings update. *)
Definition AttitudeTask_start (a : AttitudeSettingsData) : result state :=
  settingsUpdatedCb (boot a).

End Run.

(** A bench configuration: the MPU6050 at 2000 deg/s and 8 g full scale, the
    board mounted level.  The examples below keep [BoardRotation] at zero and
    do not read the Euler angles, so that [RPY2Quaternion] is not called and
    [Quaternion2RPY] does not matter. *)
Definition bench : Platform :=
  {| PIOS_MPU6050_GetScale := (F.of_Z 1 / F.lit 164 10)%flt;
     PIOS_MPU6050_GetAccelScale := (GRAV / F.of_Z 4096)%flt;
     RPY2Quaternion := fun _ => q_identity;
     Quaternion2R := fun _ => Arr3 (Arr3 f1 f0 f0) (Arr3 f0 f1 f0) (Arr3 f0 f0 f1);
     Quaternion2RPY := fun _ => zero3 |}.

(** ** Exact values

    A finite [float] is a dyadic rational; the squared norm of a quaternion of
    finite components is computed exactly, as a numerator over a power of
    two. *)

(** [x = fst * 2 ^ snd] for a finite [x]. *)
Definition dyadic (x : float) : option (Z * Z) :=
  match x with
  | S754_zero _ => Some (0, 0)
  | S754_finite s m e => Some (if s then Zneg m else Zpos m, e)
  | _ => None
  end.

(** The square of [x], as [n / 2 ^ 400]; [None] when [x] is not finite. *)
Definition square_scaled (x : float) : option Z :=
  match dyadic x with
  | Some (m, e) => Some (m * m * 2 ^ (400 + 2 * e))
  | None => None
  end.

Definition norm_sq_scaled (v : arr4 float) : option Z :=
  match square_scaled (qx0 v), square_scaled (qx1 v),
        square_scaled (qx2 v), square_scaled (qx3 v) with
  | Some a, Some b, Some c, Some d => Some (a + b + c + d)
  | _, _, _, _ => None
  end.

(** The norm of [v] is within 1e-4 of 1: its square lies between
    [0.9999 ^ 2] and [1.0001 ^ 2]. *)
Definition unit_within_1e4 (v : arr4 float) : Prop :=
  match norm_sq_scaled v with
  | Some n =>
      9999 * 9999 * 2 ^ 400 <= n * 100000000 /\ n * 100000000 <= 10001 * 10001 * 2 ^ 400
  | None => False
  end.

(** [0 <= x] as C compares floats. *)
Definition nonneg (x : float) : Prop := SFleb (S754_zero false) x = true.


(** ** The IIR filter *)

(** The coefficient tables, [b0..b4] and [a1..a4]. *)
Definition b_table : list float :=
  [ F.lit 98778675104 100000000000000;
    F.lit (-376234890193) 100000000000000;
    F.lit 555374469529 100000000000000;
    F.lit (-376234890193) 100000000000000;
    F.lit 98778675104 100000000000000 ].

Definition a_table : list float :=
  [ F.lit (-387812973499889) 100000000000000;
    F.lit 564176257281588 100000000000000;
    F.lit (-364887595541910) 100000000000000;
    F.lit 88524773799562 100000000000000 ].

(** The recurrence [sum b[k] * input[t-k] - sum a[k] * output[t-k]]: the
    products with the [b] table summed in the order of [k], the products
    with the [a] table subtracted in the order of [k].  [inputs] starts at
    [input[t]], [outputs] at [output[t-1]]. *)
Definition weighted (c h : list float) : list float :=
  map (fun p => (fst p * snd p)%flt) (combine c h).

Definition recurrence (inputs outputs : list float) : float :=
  match weighted b_table inputs with
  | [] => f0
  | t0 :: ts => fold_left F.sub (weighted a_table outputs) (fold_left F.add ts t0)
  end.

(** The filter called on each input of a list in turn: the outputs, in the
    order of the inputs, and the final parameters. *)
Fixpoint filter_run (xs : list float) (fp : fourthOrderData)
  : list float * fourthOrderData :=
  match xs with
  | [] => ([], fp)
  | x :: rest =>
      let '(y, fp1) := computeFourthOrder x fp in
      let '(ys, fp2) := filter_run rest fp1 in
      (y :: ys, fp2)
  end.

(** The histories a filter holds, most recent first. *)
Definition inputs_of (fp : fourthOrderData) : list float :=
  [inputTm1 fp; inputTm2 fp; inputTm3 fp; inputTm4 fp].

Definition outputs_of (fp : fourthOrderData) : list float :=
  [outputTm1 fp; outputTm2 fp; outputTm3 fp; outputTm4 fp].


(** ** Scenarios

    Concrete settings, samples and loop turns on the bench configuration. *)

Definition with_trim (t : TrimFlightOptions) (a : AttitudeSettingsData)
  : AttitudeSettingsData :=
  {| AccelKp := AccelKp a; AccelKi := AccelKi a; YawBiasRate := YawBiasRate a;
     GyroGain := GyroGain a; ZeroDuringArming := ZeroDuringArming a;
     BiasCorrectGyro := BiasCorrectGyro a; AccelBias := AccelBias a;
     GyroBias := GyroBias a; BoardRotation := BoardRotation a; TrimFlight := t |}.

(** Tuned gains [AccelKp = kp], [AccelKi = 0.0001], [YawBiasRate = 0.000001],
    no gyro bias, no accelerometer bias, no board rotation. *)
Definition tuned (kp : float) : AttitudeSettingsData :=
  {| AccelKp := kp;
     AccelKi := F.lit 1 10000;
     YawBiasRate := F.lit 1 1000000;
     GyroGain := D.to_float (D.lit 42 100);
     ZeroDuringArming := false;
     BiasCorrectGyro := true;
     AccelBias := Arr3 0 0 0;
     GyroBias := Arr3 0 0 0;
     BoardRotation := Arr3 0 0 0;
     TrimFlight := TRIMFLIGHT_NORMAL |}.

(** The same with a gyro bias of 0.12, 0.34 and -0.56 deg/s. *)
Definition biased (kp : float) : AttitudeSettingsData :=
  {| AccelKp := kp;
     AccelKi := F.lit 1 10000;
     YawBiasRate := F.lit 1 1000000;
     GyroGain := D.to_float (D.lit 42 100);
     ZeroDuringArming := false;
     BiasCorrectGyro := true;
     AccelBias := Arr3 0 0 0;
     GyroBias := Arr3 12 34 (-56);
     BoardRotation := Arr3 0 0 0;
     TrimFlight := TRIMFLIGHT_NORMAL |}.

(** The board at rest, slightly tilted: 100, 0 and 4096 counts of
    acceleration (4096 counts are 1 g), no rotation. *)
Definition at_rest : pios_mpu6050_data :=
  {| gyro_x := 0; gyro_y := 0; gyro_z := 0;
     accel_x := 100; accel_y := 0; accel_z := 4096; temperature := 0 |}.

(** The board at rest and level, in physical units. *)
Definition accels_level : Accels.Data :=
  {| Accels.x := f0; Accels.y := f0; Accels.z := (- GRAV)%flt;
     Accels.temperature := f0 |}.

Definition gyros_still : Gyros.Data :=
  {| Gyros.x := f0; Gyros.y := f0; Gyros.z := f0; Gyros.temperature := f0 |}.

(** A turn of the loop at tick [t], disarmed, no object read-only. *)
Definition turn (t : Z) (qu : option pios_mpu6050_data) : cycle_input :=
  {| tick_lt := t; tick_gt := t; Armed := ARMED_DISARMED;
     GyrosReadOnly := false; AccelsReadOnly := false;
     AttitudeActualReadOnly := false;
     queue := qu; tick_att := t;
     accels_local := accels_level; gyros_local := gyros_still |}.

Definition set_q (v : arr4 float) (s : state) : state :=
  set_est {| q := v; gyro_correct_int := gyro_correct_int (est s);
             accels_filtered := accels_filtered (est s);
             grot_filtered := grot_filtered (est s);
             filterParams_acc := filterParams_acc (est s);
             filterParams_grot := filterParams_grot (est s);
             lastSysTime := lastSysTime (est s) |} s.

Definition zero4 : arr4 float := Arr4 f0 f0 f0 f0.

(** The state after the head of a loop turn at tick [t], from boot with the
    tuned settings, the quaternion then set to all-zero by hand. *)
Definition zeroed_at (t : Z) : state :=
  set_q zero4 (AttitudeTask_gains (turn t None) (boot (tuned (F.lit 5 100)))).

(** The value the callback gives the gyro bias integral: the [GyroBias] of
    the settings, stored times 100. *)
Definition configured_gyro_bias (a : AttitudeSettingsData) : arr3 float :=
  Arr3 (F.of_Z (ix0 (GyroBias a)) / F.of_Z 100)%flt
       (F.of_Z (ix1 (GyroBias a)) / F.of_Z 100)%flt
       (F.of_Z (ix2 (GyroBias a)) / F.of_Z 100)%flt.

(** The tuned gains of a settings object agree with the gains in use. *)
Definition gains_of (a : AttitudeSettingsData) (g : gains) : Prop :=
  accelKp g = AccelKp a /\ accelKi g = AccelKi a /\ yawBiasRate g = YawBiasRate a.

(** The state a settings object arrives in, with a learned gyro bias
    integral [v]. *)
Definition set_bias (v : arr3 float) (s : state) : state :=
  set_est (set_gyro_correct_int v (est s)) s.



(** ** Classes of floats *)

(** A finite positive [float] in canonical form whose magnitude lies in
    [lo, hi]. *)
Definition positive_between (lo hi : Z) (x : float) : Prop :=
  exists m e,
    x = S754_finite false m e /\
    e = SpecFloat.fexp F.prec F.emax (Zpos (digits2_pos m) + e) /\
    lo <= Zpos (digits2_pos m) + e <= hi.

(** A zero of either sign, or not-a-number. *)
Inductive zero_or_nan : float -> Prop :=
  | zn_zero (s : bool) : zero_or_nan (S754_zero s)
  | zn_nan : zero_or_nan S754_nan.

(** The task started with [AccelKp = 1e30], then two turns of the loop at
    ticks 4 and 8 with the board at rest. *)
Definition overflow_run : result state :=
  match @AttitudeTask_start bench (tuned (F.of_Z (10 ^ 30))) with
  | Done s0 =>
      @run bench [Cycle (turn 4 (Some at_rest)); Cycle (turn 8 (Some at_rest))] s0
  | Fault f s => Fault f s
  end.

(** The task started with [AccelKp = 0.05], then [n] turns of the loop, 4
    ticks apart from tick [t] on, with the board at rest. *)
Definition ordinary_run (t : Z) (n : nat) : result state :=
  match @AttitudeTask_start bench (tuned (F.lit 5 100)) with
  | Done s0 =>
      @run bench
        (map (fun k => Cycle (turn (t + 4 * Z.of_nat k) (Some at_rest))) (seq 0 n)) s0
  | Fault f s => Fault f s
  end.

(** ** Outcomes of the fusion *)

(** How [updateAttitude] ends: aborted by one of the two magnitude tests,
    with the quaternion, the integral and the publications untouched, or
    completed, with the renormalised time step of the quaternion. *)
Inductive attitude_outcome (t : Z) (s : state) : state -> Prop :=
  | outcome_aborted (s' : state) :
      (F.ltb (norm3 (accels_filtered (est s'))) (F.lit 1 1000) = true \/
       (accel_filter_enabled (gn s) = true /\
        F.ltb (norm3 (grot_filtered (est s'))) (F.lit 1 1000) = true)) ->
      q (est s') = q (est s) ->
      gyro_correct_int (est s') = gyro_correct_int (est s) ->
      published s' = published s ->
      attitude_outcome t s s'
  | outcome_completed (s' : state) (err0 err1 : float) (rates : arr3 float) :
      F.ltb (norm3 (accels_filtered (est s'))) (F.lit 1 1000) = false ->
      (accel_filter_enabled (gn s) = false \/
       F.ltb (norm3 (grot_filtered (est s'))) (F.lit 1 1000) = false) ->
      q (est s') =
        renormalize (integrate_rates (q (est s)) rates
                       (compute_dT t (lastSysTime (est s)))) ->
      gyro_correct_int (est s') =
        Arr3 (ix0 (gyro_correct_int (est s)) + err0 * accelKi (gn s))%flt
             (ix1 (gyro_correct_int (est s)) + err1 * accelKi (gn s))%flt
             (ix2 (gyro_correct_int (est s))) ->
      attitude_outcome t s s'.


(** A float of sign [s], or not-a-number. *)
Inductive signed_or_nan (s : bool) : float -> Prop :=
  | son_zero : signed_or_nan s (S754_zero s)
  | son_finite (m : positive) (e : Z) : signed_or_nan s (S754_finite s m e)
  | son_infinity : signed_or_nan s (S754_infinity s)
  | son_nan : signed_or_nan s S754_nan.

(** [x < 0] is false, as C compares floats. *)
Definition not_negative (x : float) : Prop := F.ltb x (F.of_Z 0) = false.

(** ** Observations on the attitude module *)

(** The attitude published last, if any. *)
Fixpoint latest_attitude (p : list publication) : option AttitudeActualData :=
  match p with
  | [] => None
  | AttitudeActualSet d :: _ => Some d
  | _ :: rest => latest_attitude rest
  end.

(** The quaternion of a published attitude. *)
Definition published_q (d : AttitudeActualData) : arr4 float :=
  Arr4 (q1 d) (q2 d) (q3 d) (q4 d).

(** The published attitude agrees with the quaternion of the estimator: the
    last one published is the stored one, and while none was published the
    stored one is the identity. *)
Definition attitude_in_step (s : state) : Prop :=
  match latest_attitude (published s) with
  | Some d => published_q d = q (est s)
  | None => q (est s) = q_identity
  end.

(** A zero of either sign. *)
Definition is_zero (x : float) : Prop :=
  match x with
  | S754_zero _ => True
  | _ => False
  end.

(** The four inputs and the four outputs a filter holds are zeros. *)
Definition filter_at_rest (fp : fourthOrderData) : Prop :=
  Forall is_zero (inputs_of fp) /\ Forall is_zero (outputs_of fp).

(** The raw vectors of [updateSensorsCC3D] for a sample, before rotation,
    bias and integral. *)
Definition scaled_gyros {pf : Platform} (d : pios_mpu6050_data) : arr3 float :=
  Arr3 (F.of_Z (gyro_x d) * PIOS_MPU6050_GetScale)%flt
       (F.of_Z (- gyro_y d) * PIOS_MPU6050_GetScale)%flt
       (F.of_Z (- gyro_z d) * PIOS_MPU6050_GetScale)%flt.

Definition scaled_accels {pf : Platform} (d : pios_mpu6050_data) : arr3 float :=
  Arr3 (F.of_Z (accel_x d) * PIOS_MPU6050_GetAccelScale)%flt
       (F.of_Z (- accel_y d) * PIOS_MPU6050_GetAccelScale)%flt
       (F.of_Z (- accel_z d) * PIOS_MPU6050_GetAccelScale)%flt.

(** ** The AHRS communication module

    A shallow embedding of [flight/OpenPilot/Modules/AHRSComms/ahrs_comms.c].
    The messages of the AHRS link and the UAVObjects are declared in headers
    that are not part of the sources; the fields below are the ones the
    module copies, counts as integers and the rest as [float]. *)

Definition D_sqrt : double -> double := SFsqrt D.prec D.emax.

(** The length [load_magnetic_north] divides by: the three squares and their
    sum in [float], the square root in [double], the result assigned to a
    [float]. *)
Definition north_length (Be : arr3 float) : float :=
  D.to_float
    (D_sqrt (D.of_float (ix0 Be * ix0 Be + ix1 Be * ix1 Be + ix2 Be * ix2 Be)%flt)).

(** [load_magnetic_north]: [Be] is the field of the HomeLocation object, the
    result the field of the request. *)
Definition load_magnetic_north (Be : arr3 float) : arr3 float :=
  if F.eqb (ix0 Be) (F.of_Z 0) && F.eqb (ix1 Be) (F.of_Z 0) && F.eqb (ix2 Be) (F.of_Z 0)
  then Arr3 (F.of_Z 1) (F.of_Z 0) (F.of_Z 0)
  else
    let len := north_length Be in
    Arr3 (ix0 Be / len)%flt (ix1 Be / len)%flt (ix2 Be / len)%flt.

Record BaroAltitudeData : Type := {
  Altitude : float; Pressure : float; Temperature : float
}.

Record opahrs_msg_v1_req_altitude : Type := {
  req_altitude : float; req_pressure : float; req_temperature : float
}.

(** [load_baro_altitude]. *)
Definition load_baro_altitude (data : BaroAltitudeData) : opahrs_msg_v1_req_altitude :=
  {| req_altitude := Altitude data;
     req_pressure := Pressure data;
     req_temperature := Temperature data |}.

Record PositionActualData : Type := {
  Latitude : float; Longitude : float; GeoidSeparation : float;
  Heading : float; Groundspeed : float; Status : Z
}.

Record opahrs_msg_v1_req_gps : Type := {
  gps_latitude : float; gps_longitude : float; gps_altitude : float;
  gps_heading : float; gps_groundspeed : float; gps_status : Z
}.

(** [load_position_actual]; the altitude of the request is the geoid
    separation of the object. *)
Definition load_position_actual (data : PositionActualData) : opahrs_msg_v1_req_gps :=
  {| gps_latitude := Latitude data;
     gps_longitude := Longitude data;
     gps_altitude := GeoidSeparation data;
     gps_heading := Heading data;
     gps_groundspeed := Groundspeed data;
     gps_status := Status data |}.

Record opahrs_msg_v1_rsp_attitude : Type := {
  rsp_quaternion : arr4 float;
  rsp_euler : arr3 float
}.

(** [update_attitude_actual]: the object it sets. *)
Definition update_attitude_actual (attitude : opahrs_msg_v1_rsp_attitude)
  : AttitudeActualData :=
  {| q1 := qx0 (rsp_quaternion attitude);
     q2 := qx1 (rsp_quaternion attitude);
     q3 := qx2 (rsp_quaternion attitude);
     q4 := qx3 (rsp_quaternion attitude);
     Roll := ix0 (rsp_euler attitude);
     Pitch := ix1 (rsp_euler attitude);
     Yaw := ix2 (rsp_euler attitude) |}.

Record opahrs_msg_v1_rsp_attituderaw : Type := {
  rsp_mags : arr3 Z;
  rsp_gyros : arr3 Z;
  rsp_gyros_xy_temp : Z;
  rsp_gyros_z_temp : Z;
  rsp_gyros_filtered : arr3 float;
  rsp_accels : arr3 Z;
  rsp_accels_filtered : arr3 float
}.

Record AttitudeRawData : Type := {
  raw_magnetometers : arr3 Z;
  raw_gyros : arr3 Z;
  raw_gyros_filtered : arr3 float;
  raw_gyrotemp : Z * Z;
  raw_accels : arr3 Z;
  raw_accels_filtered : arr3 float
}.

(** [update_attitude_raw]: the object it sets. *)
Definition update_attitude_raw (attituderaw : opahrs_msg_v1_rsp_attituderaw)
  : AttitudeRawData :=
  {| raw_magnetometers := rsp_mags attituderaw;
     raw_gyros := rsp_gyros attituderaw;
     raw_gyros_filtered := rsp_gyros_filtered attituderaw;
     raw_gyrotemp := (rsp_gyros_xy_temp attituderaw, rsp_gyros_z_temp attituderaw);
     raw_accels := rsp_accels attituderaw;
     raw_accels_filtered := rsp_accels_filtered attituderaw |}.

(** The five error counters, [uint16_t]. *)
Record comm_errors : Type := {
  attitude_errors : Z;
  attituderaw_errors : Z;
  position_errors : Z;
  home_errors : Z;
  altitude_errors : Z
}.

(** [x++] on a [uint16_t]. *)
Definition uint16_incr (x : Z) : Z := (x + 1) mod 65536.

(** The fields of the AhrsStatus object the module writes; [CommErrors]
    holds the counters as [uint16_t] hands them over, before the conversion
    to the element type that [ahrsstatus.h] declares.  The serial number is
    overwritten by the bytes of the response, from the first. *)
Record AhrsStatusData : Type := {
  SerialNumber : list Z;
  CommErrors : comm_errors
}.

(** [update_ahrs_status]: the object it sets, from the one it got. *)
Definition update_ahrs_status (serial_bcd : list Z) (errors : comm_errors)
    (data : AhrsStatusData) : AhrsStatusData :=
  {| SerialNumber := serial_bcd ++ skipn (length serial_bcd) (SerialNumber data);
     CommErrors := errors |}.

(** The update flags the callbacks set, and [AHRSKnowsHome]. *)
Record comm_flags : Type := {
  BaroAltitudeIsUpdatedFlag : bool;
  PositionActualIsUpdatedFlag : bool;
  HomeLocationIsUpdatedFlag : bool;
  AHRSKnowsHome : bool
}.

Inductive AhrsAlarm : Type :=
  | AHRSCOMMS_UNINITIALISED | AHRSCOMMS_OK | AHRSCOMMS_CRITICAL.

(** What the module does that others see, most recent first: the objects it
    sets, the requests it hands to the link, its delays in ticks, the LED. *)
Inductive ahrs_event : Type :=
  | AhrsAttitudeActualSet (d : AttitudeActualData)
  | AhrsAttitudeRawSet (d : AttitudeRawData)
  | AhrsStatusSet (d : AhrsStatusData)
  | SetBaroAltitude (req : opahrs_msg_v1_req_altitude)
  | SetPositionActual (req : opahrs_msg_v1_req_gps)
  | SetMagNorth (Be : arr3 float)
  | TaskDelay (ticks : Z)
  | LedOff.

Record ahrs_state : Type := {
  flags : comm_flags;
  errors : comm_errors;
  ahrs_alarm : AhrsAlarm;
  AhrsStatus : AhrsStatusData;
  trace : list ahrs_event
}.

(** The statics as their initialisers leave them, the alarm not yet set. *)
Definition ahrs_boot (status : AhrsStatusData) : ahrs_state :=
  {| flags := {| BaroAltitudeIsUpdatedFlag := false;
                 PositionActualIsUpdatedFlag := false;
                 HomeLocationIsUpdatedFlag := false;
                 AHRSKnowsHome := false |};
     errors := {| attitude_errors := 0; attituderaw_errors := 0;
                  position_errors := 0; home_errors := 0; altitude_errors := 0 |};
     ahrs_alarm := AHRSCOMMS_UNINITIALISED;
     AhrsStatus := status;
     trace := [] |}.

Definition set_flags (f : comm_flags) (s : ahrs_state) : ahrs_state :=
  {| flags := f; errors := errors s; ahrs_alarm := ahrs_alarm s;
     AhrsStatus := AhrsStatus s; trace := trace s |}.

Definition set_errors (e : comm_errors) (s : ahrs_state) : ahrs_state :=
  {| flags := flags s; errors := e; ahrs_alarm := ahrs_alarm s;
     AhrsStatus := AhrsStatus s; trace := trace s |}.

Definition set_ahrs_alarm (a : AhrsAlarm) (s : ahrs_state) : ahrs_state :=
  {| flags := flags s; errors := errors s; ahrs_alarm := a;
     AhrsStatus := AhrsStatus s; trace := trace s |}.

Definition set_AhrsStatus (d : AhrsStatusData) (s : ahrs_state) : ahrs_state :=
  {| flags := flags s; errors := errors s; ahrs_alarm := ahrs_alarm s;
     AhrsStatus := d; trace := trace s |}.

Definition emit (ev : ahrs_event) (s : ahrs_state) : ahrs_state :=
  {| flags := flags s; errors := errors s; ahrs_alarm := ahrs_alarm s;
     AhrsStatus := AhrsStatus s; trace := ev :: trace s |}.

(** The three callbacks. *)
Inductive callback : Type :=
  | BaroAltitudeUpdatedCb | PositionActualUpdatedCb | HomeLocationUpdatedCb.

Definition run_callback (c : callback) (s : ahrs_state) : ahrs_state :=
  let f := flags s in
  match c with
  | BaroAltitudeUpdatedCb =>
      set_flags {| BaroAltitudeIsUpdatedFlag := true;
                   PositionActualIsUpdatedFlag := PositionActualIsUpdatedFlag f;
                   HomeLocationIsUpdatedFlag := HomeLocationIsUpdatedFlag f;
                   AHRSKnowsHome := AHRSKnowsHome f |} s
  | PositionActualUpdatedCb =>
      set_flags {| BaroAltitudeIsUpdatedFlag := BaroAltitudeIsUpdatedFlag f;
                   PositionActualIsUpdatedFlag := true;
                   HomeLocationIsUpdatedFlag := HomeLocationIsUpdatedFlag f;
                   AHRSKnowsHome := AHRSKnowsHome f |} s
  | HomeLocationUpdatedCb =>
      set_flags {| BaroAltitudeIsUpdatedFlag := BaroAltitudeIsUpdatedFlag f;
                   PositionActualIsUpdatedFlag := PositionActualIsUpdatedFlag f;
                   HomeLocationIsUpdatedFlag := true;
                   AHRSKnowsHome := AHRSKnowsHome f |} s
  end.

(** What one turn of the inner loop of [ahrscommsTask] meets: the update
    period of the settings, the answers of the link ([None] for a result
    other than [OPAHRS_RESULT_OK], [false] for a request not acknowledged)
    and the objects the [load_] functions get. *)
Record link_turn : Type := {
  UpdatePeriod : Z;
  GetAttitude : option opahrs_msg_v1_rsp_attitude;
  GetAttitudeRaw : option opahrs_msg_v1_rsp_attituderaw;
  BaroAltitude : BaroAltitudeData;
  baro_acknowledged : bool;
  PositionActual : PositionActualData;
  position_acknowledged : bool;
  HomeLocation_Be : arr3 float;
  north_acknowledged : bool
}.

(** How a turn of the inner loop ends: at its delay, or at a [break]. *)
Inductive turn_end : Type := Continue | Break.

Definition and_then (r : turn_end * ahrs_state)
    (k : ahrs_state -> turn_end * ahrs_state) : turn_end * ahrs_state :=
  match r with
  | (Continue, s) => k s
  | (Break, s) => (Break, s)
  end.

Definition count_attitude (e : comm_errors) : comm_errors :=
  {| attitude_errors := uint16_incr (attitude_errors e);
     attituderaw_errors := attituderaw_errors e;
     position_errors := position_errors e;
     home_errors := home_errors e;
     altitude_errors := altitude_errors e |}.

Definition count_attituderaw (e : comm_errors) : comm_errors :=
  {| attitude_errors := attitude_errors e;
     attituderaw_errors := uint16_incr (attituderaw_errors e);
     position_errors := position_errors e;
     home_errors := home_errors e;
     altitude_errors := altitude_errors e |}.

Definition count_position (e : comm_errors) : comm_errors :=
  {| attitude_errors := attitude_errors e;
     attituderaw_errors := attituderaw_errors e;
     position_errors := uint16_incr (position_errors e);
     home_errors := home_errors e;
     altitude_errors := altitude_errors e |}.

Definition count_home (e : comm_errors) : comm_errors :=
  {| attitude_errors := attitude_errors e;
     attituderaw_errors := attituderaw_errors e;
     position_errors := position_errors e;
     home_errors := uint16_incr (home_errors e);
     altitude_errors := altitude_errors e |}.

Definition count_altitude (e : comm_errors) : comm_errors :=
  {| attitude_errors := attitude_errors e;
     attituderaw_errors := attituderaw_errors e;
     position_errors := position_errors e;
     home_errors := home_errors e;
     altitude_errors := uint16_incr (altitude_errors e) |}.

Definition get_attitude (i : link_turn) (s : ahrs_state) : turn_end * ahrs_state :=
  match GetAttitude i with
  | Some rsp => (Continue, emit (AhrsAttitudeActualSet (update_attitude_actual rsp)) s)
  | None => (Break, set_errors (count_attitude (errors s)) s)
  end.

Definition get_attituderaw (i : link_turn) (s : ahrs_state) : turn_end * ahrs_state :=
  match GetAttitudeRaw i with
  | Some rsp => (Continue, emit (AhrsAttitudeRawSet (update_attitude_raw rsp)) s)
  | None => (Break, set_errors (count_attituderaw (errors s)) s)
  end.

Definition send_baro_altitude (i : link_turn) (s : ahrs_state) : turn_end * ahrs_state :=
  if BaroAltitudeIsUpdatedFlag (flags s) then
    let s1 := emit (SetBaroAltitude (load_baro_altitude (BaroAltitude i))) s in
    if baro_acknowledged i then
      (Continue,
       set_flags {| BaroAltitudeIsUpdatedFlag := false;
                    PositionActualIsUpdatedFlag := PositionActualIsUpdatedFlag (flags s1);
                    HomeLocationIsUpdatedFlag := HomeLocationIsUpdatedFlag (flags s1);
                    AHRSKnowsHome := AHRSKnowsHome (flags s1) |} s1)
    else (Break, set_errors (count_altitude (errors s1)) s1)
  else (Continue, s).

Definition send_position_actual (i : link_turn) (s : ahrs_state) : turn_end * ahrs_state :=
  if PositionActualIsUpdatedFlag (flags s) then
    let s1 := emit (SetPositionActual (load_position_actual (PositionActual i))) s in
    if position_acknowledged i then
      (Continue,
       set_flags {| BaroAltitudeIsUpdatedFlag := BaroAltitudeIsUpdatedFlag (flags s1);
                    PositionActualIsUpdatedFlag := false;
                    HomeLocationIsUpdatedFlag := HomeLocationIsUpdatedFlag (flags s1);
                    AHRSKnowsHome := AHRSKnowsHome (flags s1) |} s1)
    else (Break, set_errors (count_position (errors s1)) s1)
  else (Continue, s).

Definition send_magnetic_north (i : link_turn) (s : ahrs_state) : turn_end * ahrs_state :=
  if HomeLocationIsUpdatedFlag (flags s) || negb (AHRSKnowsHome (flags s)) then
    let s1 := emit (SetMagNorth (load_magnetic_north (HomeLocation_Be i))) s in
    if north_acknowledged i then
      (Continue,
       set_flags {| BaroAltitudeIsUpdatedFlag := BaroAltitudeIsUpdatedFlag (flags s1);
                    PositionActualIsUpdatedFlag := PositionActualIsUpdatedFlag (flags s1);
                    HomeLocationIsUpdatedFlag := false;
                    AHRSKnowsHome := true |} s1)
    else (Break, set_errors (count_home (errors (emit LedOff s1))) (emit LedOff s1))
  else (Continue, s).

(** One turn of the inner loop of [ahrscommsTask], lines 158 to 223. *)
Definition ahrs_turn (i : link_turn) (s : ahrs_state) : turn_end * ahrs_state :=
  and_then (get_attitude i s) (fun s =>
  and_then (get_attituderaw i s) (fun s =>
  and_then (send_baro_altitude i s) (fun s =>
  and_then (send_position_actual i s) (fun s =>
  and_then (send_magnetic_north i s) (fun s =>
  (Continue, emit (TaskDelay (Z.quot (UpdatePeriod i) portTICK_RATE_MS)) s)))))).

(** Where the task stands: in the loop that waits for [PIOS_OPAHRS_resync],
    the head of the outer loop done, or at the head of the inner loop. *)
Inductive phase : Type := Resyncing | InSync.

(** The head of the outer loop, lines 135 to 138. *)
Definition outer_head (s : ahrs_state) : ahrs_state :=
  let s1 := set_ahrs_alarm AHRSCOMMS_CRITICAL s in
  set_flags {| BaroAltitudeIsUpdatedFlag := BaroAltitudeIsUpdatedFlag (flags s1);
               PositionActualIsUpdatedFlag := PositionActualIsUpdatedFlag (flags s1);
               HomeLocationIsUpdatedFlag := HomeLocationIsUpdatedFlag (flags s1);
               AHRSKnowsHome := false |} s1.

(** What happens to the task: a callback fires, a resync fails, a resync
    succeeds and [PIOS_OPAHRS_GetSerial] answers with the serial number or
    not, or a turn of the inner loop runs.  A callback is taken to run
    between two of these steps, not inside a turn, and the status object to
    be written by this task only. *)
Inductive ahrs_input : Type :=
  | Callback (c : callback)
  | ResyncFailed
  | Resynced (serial_bcd : option (list Z))
  | Turn (i : link_turn).

(** [ahrscommsTask] as a transition system; an input that cannot occur where
    the task stands changes nothing. *)
Definition ahrs_step (x : ahrs_input) (ps : phase * ahrs_state) : phase * ahrs_state :=
  let (ph, s) := ps in
  match x, ph with
  | Callback c, _ => (ph, run_callback c s)
  | ResyncFailed, Resyncing =>
      (Resyncing, emit (TaskDelay (Z.quot 100 portTICK_RATE_MS)) s)
  | Resynced (Some serial_bcd), Resyncing =>
      let d := update_ahrs_status serial_bcd (errors s) (AhrsStatus s) in
      (InSync, set_ahrs_alarm AHRSCOMMS_OK (emit (AhrsStatusSet d) (set_AhrsStatus d s)))
  | Resynced None, Resyncing => (Resyncing, outer_head s)
  | Turn i, InSync =>
      match ahrs_turn i s with
      | (Continue, s') => (InSync, s')
      | (Break, s') => (Resyncing, outer_head s')
      end
  | _, _ => ps
  end.

Fixpoint ahrs_run (xs : list ahrs_input) (ps : phase * ahrs_state) : phase * ahrs_state :=
  match xs with
  | [] => ps
  | x :: rest => ahrs_run rest (ahrs_step x ps)
  end.

(** The task as [AHRSCommsInitialize] creates it, the head of the outer loop
    done. *)
Definition ahrs_start (status : AhrsStatusData) : phase * ahrs_state :=
  (Resyncing, outer_head (ahrs_boot status)).

Definition total_errors (e : comm_errors) : Z :=
  attitude_errors e + attituderaw_errors e + position_errors e
  + home_errors e + altitude_errors e.

(** The turns of a run that ended at a [break]. *)
Fixpoint broken_turns (xs : list ahrs_input) (ps : phase * ahrs_state) : Z :=
  match xs with
  | [] => 0
  | x :: rest =>
      (match x, fst ps, fst (ahrs_step x ps) with
       | Turn _, InSync, Resyncing => 1
       | _, _, _ => 0
       end) + broken_turns rest (ahrs_step x ps)
  end.

(** A vector none of whose components is finite and one of which is
    infinite. *)
Definition is_infinite (x : float) : Prop :=
  match x with S754_infinity _ => True | _ => False end.

Definition infinite_or_nan (x : float) : Prop :=
  match x with S754_infinity _ | S754_nan => True | _ => False end.

(** [x] is a zero, a finite number or an infinity of sign [s]. *)
Definition has_sign (s : bool) (x : float) : Prop :=
  match x with
  | S754_zero s' | S754_infinity s' | S754_finite s' _ _ => s' = s
  | S754_nan => False
  end.

(** The sign of a number, [false] for a NaN. *)
Definition sign_of (x : float) : bool :=
  match x with
  | S754_zero s | S754_infinity s | S754_finite s _ _ => s
  | S754_nan => false
  end.

(** [w] is not a number in every component in which [v] is not a number. *)
Definition nan_where (v w : arr3 float) : Prop :=
  (ix0 v = S754_nan -> ix0 w = S754_nan) /\
  (ix1 v = S754_nan -> ix1 w = S754_nan) /\
  (ix2 v = S754_nan -> ix2 w = S754_nan).

(** One component at least is not a number. *)
Definition some_nan (v : arr3 float) : Prop :=
  ix0 v = S754_nan \/ ix1 v = S754_nan \/ ix2 v = S754_nan.

(** Accelerations with a not-a-number in x. *)
Definition accels_nan : Accels.Data :=
  {| Accels.x := S754_nan; Accels.y := f0; Accels.z := (- GRAV)%flt;
     Accels.temperature := f0 |}.

(** Rates with a not-a-number in z. *)
Definition gyros_nan : Gyros.Data :=
  {| Gyros.x := f0; Gyros.y := f0; Gyros.z := S754_nan; Gyros.temperature := f0 |}.

(** A zero or a finite number. *)
Definition is_finite (x : float) : Prop :=
  match x with
  | S754_zero _ | S754_finite _ _ _ => True
  | _ => False
  end.

(** Plus infinity or not-a-number. *)
Definition overflowed (x : float) : Prop :=
  x = S754_infinity false \/ x = S754_nan.

(** The test that guards the normalisation in [load_magnetic_north]. *)
Definition north_unset (Be : arr3 float) : bool :=
  F.eqb (ix0 Be) (F.of_Z 0) && F.eqb (ix1 Be) (F.of_Z 0) && F.eqb (ix2 Be) (F.of_Z 0).

(** Three magnetic fields: an ordinary one, one too weak and one too strong
    for the squares of [load_magnetic_north]. *)
Definition field_ordinary : arr3 float := Arr3 (F.of_Z 3) (F.of_Z (-4)) (F.of_Z 12).

Definition field_weak : arr3 float :=
  Arr3 (F.lit 1 1000000000000000000000000000000) (F.of_Z 0) (F.of_Z 0).

Definition field_strong : arr3 float :=
  Arr3 (F.of_Z 1180591620717411303424) (F.of_Z 0) (F.of_Z 0).

(** The alarm and the knowledge of home agree with where the task stands. *)
Definition alarm_in_step (ps : phase * ahrs_state) : Prop :=
  match fst ps with
  | Resyncing =>
      ahrs_alarm (snd ps) = AHRSCOMMS_CRITICAL /\ AHRSKnowsHome (flags (snd ps)) = false
  | InSync => ahrs_alarm (snd ps) = AHRSCOMMS_OK
  end.

(** No counter is negative. *)
Definition counters_ok (e : comm_errors) : Prop :=
  0 <= attitude_errors e /\ 0 <= attituderaw_errors e /\ 0 <= position_errors e /\
  0 <= home_errors e /\ 0 <= altitude_errors e.

(** A turn on a link that answers everything. *)
Definition turn_ok (Be : arr3 float) : link_turn :=
  {| UpdatePeriod := 20;
     GetAttitude := Some {| rsp_quaternion := q_identity; rsp_euler := zero3 |};
     GetAttitudeRaw :=
       Some {| rsp_mags := Arr3 0 0 0; rsp_gyros := Arr3 0 0 0;
               rsp_gyros_xy_temp := 0; rsp_gyros_z_temp := 0;
               rsp_gyros_filtered := zero3; rsp_accels := Arr3 0 0 0;
               rsp_accels_filtered := zero3 |};
     BaroAltitude := {| Altitude := f0; Pressure := f0; Temperature := f0 |};
     baro_acknowledged := true;
     PositionActual := {| Latitude := f0; Longitude := f0; GeoidSeparation := f0;
                          Heading := f0; Groundspeed := f0; Status := 0 |};
     position_acknowledged := true;
     HomeLocation_Be := Be;
     north_acknowledged := true |}.

(** A turn in which the link does not answer the attitude request. *)
Definition turn_silent : link_turn :=
  {| UpdatePeriod := 20;
     GetAttitude := None;
     GetAttitudeRaw := None;
     BaroAltitude := {| Altitude := f0; Pressure := f0; Temperature := f0 |};
     baro_acknowledged := false;
     PositionActual := {| Latitude := f0; Longitude := f0; GeoidSeparation := f0;
                          Heading := f0; Groundspeed := f0; Status := 0 |};
     position_acknowledged := false;
     HomeLocation_Be := zero3;
     north_acknowledged := false |}.

Definition status_blank : AhrsStatusData :=
  {| SerialNumber := [];
     CommErrors := {| attitude_errors := 0; attituderaw_errors := 0;
                      position_errors := 0; home_errors := 0; altitude_errors := 0 |} |}.

(** The inputs at which [PIOS_OPAHRS_GetSerial] answers. *)
Definition is_serial_answer (x : ahrs_input) : bool :=
  match x with
  | Resynced (Some _) => true
  | _ => false
  end.

(** A state of the task with the altitude flag set. *)
Definition altitude_pending : phase * ahrs_state :=
  ahrs_step (Callback BaroAltitudeUpdatedCb) (ahrs_start status_blank).

(** ** The fusion as the specification words it

    Steps 3 and 5, "error vector = cross(filtered accel, filtered gravity)"
    normalised "by (|accel| * |gravity|)", the magnitude of the gravity
    taken as 1 while the filter is disabled; step 7, "gyro[i] +=
    error[i]*Kp/dT for all three axes"; and step 9, "if the norm is below
    1e-3 or not-a-number, reset q to identity", where below 1e-3 compares
    the magnitude with the rational 1/1000. *)
Definition fusion_error (enabled : bool) (af gf : arr3 float) : arr3 float :=
  let mag := (norm3 af * (if enabled then norm3 gf else F.of_Z 1))%flt in
  Arr3 (ix0 (CrossProduct af gf) / mag)%flt
       (ix1 (CrossProduct af gf) / mag)%flt
       (ix2 (CrossProduct af gf) / mag)%flt.

Definition corrected_rates (g : Gyros.Data) (err : arr3 float) (kp dT : float)
  : arr3 float :=
  Arr3 (Gyros.x g + ix0 err * kp / dT)%flt
       (Gyros.y g + ix1 err * kp / dT)%flt
       (Gyros.z g + ix2 err * kp / dT)%flt.

(** [|x| < 1/1000], a zero included, for a number [m * 2^e]. *)
Definition below_1e3 (x : float) : bool :=
  match x with
  | S754_zero _ => true
  | S754_finite _ m e => if 0 <=? e then false else 1000 * Zpos m <? 2 ^ (- e)
  | _ => false
  end.

Definition not_a_number (x : float) : bool :=
  match x with
  | S754_nan => true
  | _ => false
  end.

Definition spec_renormalize (qn : arr4 float) : arr4 float :=
  if below_1e3 (norm4 qn) || not_a_number (norm4 qn) then q_identity
  else Arr4 (qx0 qn / norm4 qn)%flt (qx1 qn / norm4 qn)%flt
            (qx2 qn / norm4 qn)%flt (qx3 qn / norm4 qn)%flt.

(** A finite [float] has at most 24 digits and an exponent from -149 to
    104. *)
Definition float_bounded (x : float) : Prop :=
  match x with
  | S754_finite _ m e => Zpos (digits2_pos m) <= 24 /\ -149 <= e <= 104
  | _ => True
  end.

(** The state after the head of a loop turn at tick [t], from boot with the
    tuned settings; and the board at rest, tilted. *)
Definition warm_at (t : Z) : state :=
  AttitudeTask_gains (turn t None) (boot (tuned (F.lit 5 100))).

Definition accels_tilted : Accels.Data :=
  {| Accels.x := f1; Accels.y := f0; Accels.z := (- GRAV)%flt;
     Accels.temperature := f0 |}.

(** The same state with a quaternion that is not the identity. *)
Definition rolled_at (t : Z) : state := set_q (Arr4 f0 f1 f0 f0) (warm_at t).
(** * Properties *)

(** ** Facts of IEEE arithmetic

    What the proofs below need of the rounding of [SpecFloat]: a positive
    mantissa of magnitude above the smallest subnormal is rounded to a
    canonical positive mantissa of the same magnitude or the next. *)

Lemma digits2_pos_size (p : positive) : digits2_pos p = Pos.size p.
Proof. induction p; cbn; congruence. Qed.

Lemma Zdigits2_log2 (p : positive) : Zdigits2 (Zpos p) = Z.log2 (Zpos p) + 1.
Proof.
  cbn [Zdigits2]. rewrite digits2_pos_size.
  destruct p; cbn [Z.log2 Pos.size]; lia.
Qed.

Lemma Zdigits2_bounds (m : Z) :
  0 < m -> 2 ^ (Zdigits2 m - 1) <= m < 2 ^ Zdigits2 m.
Proof.
  intros H. destruct m as [| p | p]; try lia.
  rewrite Zdigits2_log2.
  replace (Z.log2 (Zpos p) + 1 - 1) with (Z.log2 (Zpos p)) by lia.
  replace (Z.log2 (Zpos p) + 1) with (Z.succ (Z.log2 (Zpos p))) by lia.
  apply Z.log2_spec. lia.
Qed.

Lemma Zdigits2_pos (m : Z) : 0 < m -> 0 < Zdigits2 m.
Proof. destruct m; cbn; lia. Qed.

(** The number of digits from a bracket by powers of two. *)
Lemma Zdigits2_unique (m d : Z) :
  0 < d -> 2 ^ (d - 1) <= m < 2 ^ d -> Zdigits2 m = d.
Proof.
  intros Hd [H1 H2].
  assert (0 < m) by (pose proof (Z.pow_pos_nonneg 2 (d - 1)); lia).
  destruct m as [| p | p]; try lia.
  rewrite Zdigits2_log2.
  assert (Z.log2 (Zpos p) = d - 1); [| lia].
  apply Z.log2_unique; [lia |].
  replace (Z.succ (d - 1)) with d by lia. lia.
Qed.

Lemma Zdigits2_mono (m n : Z) : 0 < m -> m <= n -> Zdigits2 m <= Zdigits2 n.
Proof.
  intros Hm Hn. destruct m as [| p | p]; try lia. destruct n as [| r | r]; try lia.
  rewrite !Zdigits2_log2. pose proof (Z.log2_le_mono (Zpos p) (Zpos r) Hn). lia.
Qed.

Lemma Zdigits2_succ (m : Z) : 0 < m -> Zdigits2 (m + 1) <= Zdigits2 m + 1.
Proof.
  intros Hm. destruct m as [| p | p]; try lia.
  replace (Zpos p + 1) with (Zpos (p + 1)) by lia.
  rewrite !Zdigits2_log2.
  pose proof (Z.log2_succ_le (Zpos p)).
  replace (Z.succ (Zpos p)) with (Zpos (p + 1)) in * by lia. lia.
Qed.

Lemma Zdigits2_shiftr (m k : Z) :
  0 < m -> 0 <= k < Zdigits2 m ->
  0 < m / 2 ^ k /\ Zdigits2 (m / 2 ^ k) = Zdigits2 m - k.
Proof.
  intros Hm Hk.
  pose proof (Zdigits2_bounds m Hm) as [B1 B2].
  assert (P : 0 < 2 ^ k) by (apply Z.pow_pos_nonneg; lia).
  assert (L : 2 ^ (Zdigits2 m - k - 1) <= m / 2 ^ k).
  { apply Z.div_le_lower_bound; [exact P |].
    rewrite <- Z.pow_add_r by lia.
    replace (k + (Zdigits2 m - k - 1)) with (Zdigits2 m - 1) by lia. exact B1. }
  assert (U : m / 2 ^ k < 2 ^ (Zdigits2 m - k)).
  { apply Z.div_lt_upper_bound; [exact P |].
    rewrite <- Z.pow_add_r by lia.
    replace (k + (Zdigits2 m - k)) with (Zdigits2 m) by lia. exact B2. }
  assert (0 < 2 ^ (Zdigits2 m - k - 1)) by (apply Z.pow_pos_nonneg; lia).
  split; [lia |].
  apply Zdigits2_unique; [lia |]. split; [exact L | exact U].
Qed.

Lemma digits2_pos_iter_xO (m k : positive) :
  Zpos (digits2_pos (Pos.iter xO m k)) = Zpos (digits2_pos m) + Zpos k.
Proof.
  revert m. induction k using Pos.peano_ind; intros m.
  - cbn. lia.
  - rewrite Pos.iter_succ. cbn [digits2_pos]. rewrite Pos2Z.inj_succ, IHk. lia.
Qed.

(** The right shift of the rounding: the mantissa is divided by the power of
    two, and the shift of a mantissa that ends in that many zeros is exact. *)
Lemma shr_1_m (r : shr_record) : 0 <= shr_m r -> shr_m (shr_1 r) = shr_m r / 2.
Proof.
  destruct r as [m b s]. cbn [shr_m]. intros H.
  destruct m as [| p | p]; [reflexivity | | lia].
  destruct p as [p | p |]; cbn [shr_1 shr_m].
  - rewrite Pos2Z.inj_xI. apply (Z.div_unique _ _ _ 1); lia.
  - rewrite Pos2Z.inj_xO. apply (Z.div_unique _ _ _ 0); lia.
  - reflexivity.
Qed.

Lemma iter_pos_shr_1_m (p : positive) (r : shr_record) :
  0 <= shr_m r -> shr_m (iter_pos shr_1 p r) = shr_m r / 2 ^ Zpos p.
Proof.
  revert r. induction p as [p IH | p IH |]; intros r H; cbn [iter_pos].
  - assert (H1 : 0 <= shr_m (shr_1 r))
      by (rewrite shr_1_m by exact H; apply Z.div_pos; lia).
    assert (H2 : 0 <= shr_m (iter_pos shr_1 p (shr_1 r)))
      by (rewrite IH by exact H1; apply Z.div_pos; [lia | apply Z.pow_pos_nonneg; lia]).
    rewrite IH by exact H2. rewrite IH by exact H1. rewrite shr_1_m by exact H.
    assert (E : 2 ^ Zpos p~1 = 2 * 2 ^ Zpos p * 2 ^ Zpos p).
    { rewrite Pos2Z.inj_xI.
      replace (2 * Zpos p + 1) with (1 + Zpos p + Zpos p) by lia.
      rewrite !Z.pow_add_r by lia. reflexivity. }
    assert (P : 0 < 2 ^ Zpos p) by (apply Z.pow_pos_nonneg; lia).
    rewrite E, !Z.div_div by lia. f_equal. ring.
  - assert (H2 : 0 <= shr_m (iter_pos shr_1 p r))
      by (rewrite IH by exact H; apply Z.div_pos; [lia | apply Z.pow_pos_nonneg; lia]).
    rewrite IH by exact H2. rewrite IH by exact H.
    assert (E : 2 ^ Zpos p~0 = 2 ^ Zpos p * 2 ^ Zpos p).
    { rewrite <- Z.pow_add_r by lia. f_equal; lia. }
    assert (P : 0 < 2 ^ Zpos p) by (apply Z.pow_pos_nonneg; lia).
    rewrite E, !Z.div_div by lia. reflexivity.
  - rewrite shr_1_m by exact H. reflexivity.
Qed.

Lemma iter_pos_shr_1_exact (k m : positive) :
  iter_pos shr_1 k (Build_shr_record (Zpos (Pos.iter xO m k)) false false)
  = Build_shr_record (Zpos m) false false.
Proof.
  revert m. induction k as [k IH | k IH |]; intros m; cbn [iter_pos Pos.iter].
  - cbn [shr_1 orb]. rewrite IH, IH. reflexivity.
  - rewrite IH, IH. reflexivity.
  - reflexivity.
Qed.

Section Rounding.

Variables prec emax : Z.
Hypothesis prec_pos : 0 < prec.

#[local] Abbreviation fexp := (SpecFloat.fexp prec emax).
#[local] Abbreviation emin := (SpecFloat.emin prec emax).

Lemma fexp_mono (a b : Z) : a <= b -> fexp a <= fexp b.
Proof. unfold SpecFloat.fexp. lia. Qed.

Lemma fexp_lt (a : Z) : emin < a -> fexp a < a.
Proof. unfold SpecFloat.fexp. lia. Qed.

Lemma shr_record_of_loc_m (m : Z) (l : location) : shr_m (shr_record_of_loc m l) = m.
Proof. destruct l as [| []]; reflexivity. Qed.

(** The magnitude of a positive mantissa [m] with exponent [e] is
    [Zdigits2 m + e]: the value lies in [2 ^ (magnitude - 1), 2 ^ magnitude). *)
Lemma shr_fexp_spec (m e : Z) (l : location) :
  0 < m -> emin < Zdigits2 m + e ->
  0 < shr_m (fst (shr_fexp prec emax m e l)) /\
  snd (shr_fexp prec emax m e l) = Z.max e (fexp (Zdigits2 m + e)) /\
  Zdigits2 (shr_m (fst (shr_fexp prec emax m e l))) + snd (shr_fexp prec emax m e l)
    = Zdigits2 m + e.
Proof.
  intros Hm Hmag. unfold shr_fexp, shr.
  pose proof (fexp_lt _ Hmag) as Hlt.
  destruct (fexp (Zdigits2 m + e) - e) as [| p | p] eqn:En; cbn [fst snd].
  - rewrite shr_record_of_loc_m. repeat split; lia.
  - rewrite iter_pos_shr_1_m by (rewrite shr_record_of_loc_m; lia).
    rewrite shr_record_of_loc_m.
    destruct (Zdigits2_shiftr m (Zpos p) Hm) as [P Dg]; [lia |].
    repeat split; lia.
  - rewrite shr_record_of_loc_m. repeat split; lia.
Qed.

Lemma round_nearest_even_bounds (m : Z) (l : location) :
  m <= round_nearest_even m l <= m + 1.
Proof.
  unfold round_nearest_even. destruct l as [| []]; try lia.
  destruct (Z.even m); lia.
Qed.

(** Rounding a positive mantissa that is not shorter than the format asks
    for gives a finite number (or overflows), canonical, of the same
    magnitude or the next. *)
Lemma binary_round_aux_spec (s : bool) (m e : Z) (l : location) :
  0 < m -> emin < Zdigits2 m + e -> e <= fexp (Zdigits2 m + e) ->
  exists m' e',
    binary_round_aux prec emax s m e l =
      (if e' <=? emax - prec then S754_finite s m' e' else S754_infinity s) /\
    e' = fexp (Zpos (digits2_pos m') + e') /\
    Zdigits2 m + e <= Zpos (digits2_pos m') + e' <= Zdigits2 m + e + 1.
Proof.
  intros Hm Hmag Hcan. unfold binary_round_aux.
  destruct (shr_fexp_spec m e l Hm Hmag) as (P1 & E1 & D1).
  destruct (shr_fexp prec emax m e l) as [r1 e1]. cbn [fst snd] in P1, E1, D1.
  pose proof (round_nearest_even_bounds (shr_m r1) (loc_of_shr_record r1)) as B.
  set (m2 := round_nearest_even (shr_m r1) (loc_of_shr_record r1)) in *.
  assert (P2 : 0 < m2) by lia.
  assert (G1 : Zdigits2 (shr_m r1) <= Zdigits2 m2) by (apply Zdigits2_mono; lia).
  assert (G2 : Zdigits2 m2 <= Zdigits2 (shr_m r1) + 1).
  { transitivity (Zdigits2 (shr_m r1 + 1)); [apply Zdigits2_mono; lia |].
    apply Zdigits2_succ. exact P1. }
  destruct (shr_fexp_spec m2 e1 loc_Exact P2) as (P3 & E3 & D3); [lia |].
  destruct (shr_fexp prec emax m2 e1 loc_Exact) as [r3 e3]. cbn [fst snd] in P3, E3, D3.
  destruct (shr_m r3) as [| m3 | m3] eqn:E; try lia.
  exists m3, e3. cbn [Zdigits2] in D3.
  pose proof (fexp_mono (Zdigits2 m + e) (Zdigits2 m2 + e1)).
  split; [reflexivity |]. split; [| lia].
  rewrite D3. lia.
Qed.

Lemma binary_round_spec (s : bool) (m : positive) (e : Z) :
  emin < Zpos (digits2_pos m) + e ->
  exists m' e',
    binary_round prec emax s m e =
      (if e' <=? emax - prec then S754_finite s m' e' else S754_infinity s) /\
    e' = fexp (Zpos (digits2_pos m') + e') /\
    Zpos (digits2_pos m) + e <= Zpos (digits2_pos m') + e' <= Zpos (digits2_pos m) + e + 1.
Proof.
  intros Hmag. unfold binary_round, shl_align.
  destruct (fexp (Zpos (digits2_pos m) + e) - e) as [| p | p] eqn:En.
  - apply binary_round_aux_spec; cbn [Zdigits2]; lia.
  - apply binary_round_aux_spec; cbn [Zdigits2]; lia.
  - pose proof (digits2_pos_iter_xO m p) as Dg.
    destruct (binary_round_aux_spec s (Zpos (Pos.iter xO m p))
                (fexp (Zpos (digits2_pos m) + e)) loc_Exact) as (m' & e' & R & C & B);
      cbn [Zdigits2]; try lia.
    + rewrite Dg.
      replace (Zpos (digits2_pos m) + Zpos p + fexp (Zpos (digits2_pos m) + e))
        with (Zpos (digits2_pos m) + e) by lia. lia.
    + exists m', e'. cbn [Zdigits2] in B. split; [exact R |]. split; [exact C | lia].
Qed.

(** Rounding is exact on a mantissa that is canonical once its trailing
    zeros are dropped. *)
Lemma binary_round_aux_exact0 (s : bool) (m : positive) (e : Z) :
  fexp (Zpos (digits2_pos m) + e) = e -> e <= emax - prec ->
  binary_round_aux prec emax s (Zpos m) e loc_Exact = S754_finite s m e.
Proof.
  intros Hc He. unfold binary_round_aux, shr_fexp. cbn [Zdigits2].
  rewrite Hc, Z.sub_diag.
  cbn [shr shr_record_of_loc shr_m loc_of_shr_record round_nearest_even].
  cbn [Zdigits2]. rewrite Hc, Z.sub_diag. cbn [shr shr_record_of_loc shr_m].
  apply Z.leb_le in He. rewrite He. reflexivity.
Qed.

Lemma binary_round_aux_exact_shift (s : bool) (m k : positive) (e : Z) :
  fexp (Zpos (digits2_pos m) + (e + Zpos k)) = e + Zpos k -> e + Zpos k <= emax - prec ->
  binary_round_aux prec emax s (Zpos (Pos.iter xO m k)) e loc_Exact
  = S754_finite s m (e + Zpos k).
Proof.
  intros Hc He. unfold binary_round_aux, shr_fexp. cbn [Zdigits2].
  rewrite digits2_pos_iter_xO.
  replace (Zpos (digits2_pos m) + Zpos k + e)
    with (Zpos (digits2_pos m) + (e + Zpos k)) by lia.
  rewrite Hc. replace (e + Zpos k - e) with (Zpos k) by lia.
  cbn [shr shr_record_of_loc]. rewrite iter_pos_shr_1_exact.
  cbn [shr_m loc_of_shr_record round_nearest_even Zdigits2].
  rewrite Hc, Z.sub_diag. cbn [shr shr_record_of_loc shr_m].
  apply Z.leb_le in He. rewrite He. reflexivity.
Qed.

(** The quotient of two finite numbers, before rounding. *)
Lemma SFdiv_core_binary_spec (mx my : positive) (ex ey : Z) :
  emin < Zpos (digits2_pos mx) + ex - (Zpos (digits2_pos my) + ey) ->
  let r := SFdiv_core_binary prec emax (Zpos mx) ex (Zpos my) ey in
  let qm := fst (fst r) in
  let e' := snd (fst r) in
  0 < qm /\
  e' <= fexp (Zdigits2 qm + e') /\
  Zpos (digits2_pos mx) + ex - (Zpos (digits2_pos my) + ey) <= Zdigits2 qm + e'
    <= Zpos (digits2_pos mx) + ex - (Zpos (digits2_pos my) + ey) + 1.
Proof.
  intros Hmag. unfold SFdiv_core_binary. cbn [Zdigits2].
  set (dx := Zpos (digits2_pos mx)) in *. set (dy := Zpos (digits2_pos my)) in *.
  set (D := dx + ex - (dy + ey)) in *.
  set (e' := Z.min (fexp D) (ex - ey)).
  pose proof (fexp_lt D Hmag) as Hlt.
  assert (He' : e' <= fexp D) by (unfold e'; lia).
  assert (Hs : dy - dx + 1 <= ex - ey - e') by (unfold D in *; lia).
  assert (Hs0 : 0 <= ex - ey - e') by (unfold e'; lia).
  assert (Em : (match ex - ey - e' with
                | Z0 => Zpos mx
                | Zpos _ => Z.shiftl (Zpos mx) (ex - ey - e')
                | Zneg _ => 0
                end) = Zpos mx * 2 ^ (ex - ey - e')).
  { destruct (ex - ey - e') as [| p | p] eqn:Es; try lia.
    rewrite Z.shiftl_mul_pow2 by lia. reflexivity. }
  rewrite Em. set (sh := ex - ey - e') in *.
  pose proof (Zdigits2_bounds (Zpos mx) ltac:(lia)) as [X1 X2].
  pose proof (Zdigits2_bounds (Zpos my) ltac:(lia)) as [Y1 Y2].
  cbn [Zdigits2] in X1, X2, Y1, Y2. fold dx in X1, X2. fold dy in Y1, Y2.
  assert (Q : fst (Z.div_eucl (Zpos mx * 2 ^ sh) (Zpos my)) = Zpos mx * 2 ^ sh / Zpos my)
    by (unfold Z.div; destruct (Z.div_eucl _ _); reflexivity).
  destruct (Z.div_eucl (Zpos mx * 2 ^ sh) (Zpos my)) as [qm rm].
  cbn [fst snd] in *. subst qm.
  assert (Psh : 0 < 2 ^ sh) by (apply Z.pow_pos_nonneg; lia).
  assert (Pdx : 0 < dx) by (unfold dx; lia). assert (Pdy : 0 < dy) by (unfold dy; lia).
  assert (L : 2 ^ (dx + sh - dy - 1) <= Zpos mx * 2 ^ sh / Zpos my).
  { apply Z.div_le_lower_bound; [lia |].
    transitivity (2 ^ dy * 2 ^ (dx + sh - dy - 1)).
    - apply Z.mul_le_mono_nonneg_r; [apply Z.pow_nonneg; lia | lia].
    - rewrite <- Z.pow_add_r by lia.
      replace (dy + (dx + sh - dy - 1)) with (dx - 1 + sh) by lia.
      rewrite Z.pow_add_r by lia.
      apply Z.mul_le_mono_nonneg_r; lia. }
  assert (U : Zpos mx * 2 ^ sh / Zpos my < 2 ^ (dx + sh - dy + 1)).
  { apply Z.div_lt_upper_bound; [lia |].
    apply Z.lt_le_trans with (2 ^ dx * 2 ^ sh).
    - apply Z.mul_lt_mono_pos_r; lia.
    - transitivity (2 ^ (dy - 1) * 2 ^ (dx + sh - dy + 1)).
      + rewrite <- !Z.pow_add_r by lia.
        apply Z.pow_le_mono_r; lia.
      + apply Z.mul_le_mono_nonneg_r; [apply Z.pow_nonneg; lia | lia]. }
  assert (P0 : 0 < 2 ^ (dx + sh - dy - 1)) by (apply Z.pow_pos_nonneg; lia).
  assert (Dq : Zdigits2 (Zpos mx * 2 ^ sh / Zpos my) = dx + sh - dy
               \/ Zdigits2 (Zpos mx * 2 ^ sh / Zpos my) = dx + sh - dy + 1).
  { destruct (Z_lt_le_dec (Zpos mx * 2 ^ sh / Zpos my) (2 ^ (dx + sh - dy))) as [C | C].
    - left. apply Zdigits2_unique; [lia |]. split; [exact L | exact C].
    - right. apply Zdigits2_unique; [lia |].
      replace (dx + sh - dy + 1 - 1) with (dx + sh - dy) by lia.
      split; [exact C | exact U]. }
  split; [lia |].
  assert (Mag : D <= Zdigits2 (Zpos mx * 2 ^ sh / Zpos my) + e' <= D + 1)
    by (unfold D, sh in *; lia).
  split; [| exact Mag].
  pose proof (fexp_mono D (Zdigits2 (Zpos mx * 2 ^ sh / Zpos my) + e')). lia.
Qed.

Lemma SFdiv_finite_spec (sx sy : bool) (mx my : positive) (ex ey : Z) :
  emin < Zpos (digits2_pos mx) + ex - (Zpos (digits2_pos my) + ey) ->
  exists m' e',
    SFdiv prec emax (S754_finite sx mx ex) (S754_finite sy my ey) =
      (if e' <=? emax - prec then S754_finite (xorb sx sy) m' e'
       else S754_infinity (xorb sx sy)) /\
    e' = fexp (Zpos (digits2_pos m') + e') /\
    Zpos (digits2_pos mx) + ex - (Zpos (digits2_pos my) + ey) <= Zpos (digits2_pos m') + e'
      <= Zpos (digits2_pos mx) + ex - (Zpos (digits2_pos my) + ey) + 2.
Proof.
  intros Hmag. cbn [SFdiv].
  pose proof (SFdiv_core_binary_spec mx my ex ey Hmag) as S. cbv zeta in S.
  destruct (SFdiv_core_binary prec emax (Zpos mx) ex (Zpos my) ey) as [[qm e'] l].
  cbn [fst snd] in S. destruct S as (P & C & B).
  destruct (binary_round_aux_spec (xorb sx sy) qm e' l P) as (m3 & e3 & R & C3 & B3);
    [lia | exact C |].
  exists m3, e3. split; [exact R |]. split; [exact C3 | lia].
Qed.

End Rounding.

(** ** The two formats *)

Lemma of_Z_uint32 (n : Z) :
  0 < n < 4294967296 -> positive_between 1 33 (F.of_Z n).
Proof.
  intros [Hn Hu]. destruct n as [| p | p]; try lia.
  unfold F.of_Z, binary_normalize.
  pose proof (Zdigits2_bounds (Zpos p) ltac:(lia)) as [B1 _]. cbn [Zdigits2] in B1.
  assert (Hd : Zpos (digits2_pos p) <= 32).
  { destruct (Z_le_gt_dec (Zpos (digits2_pos p)) 32) as [L | G]; [exact L |].
    assert (2 ^ 32 <= 2 ^ (Zpos (digits2_pos p) - 1)) by (apply Z.pow_le_mono_r; lia).
    change (2 ^ 32) with 4294967296 in *. lia. }
  destruct (binary_round_spec F.prec F.emax ltac:(reflexivity) false p 0)
    as (m & e & R & C & B).
  { unfold SpecFloat.emin, F.prec, F.emax. lia. }
  exists m, e. rewrite R.
  assert (Hf : (e <=? F.emax - F.prec) = true).
  { apply Z.leb_le. rewrite C. unfold SpecFloat.fexp, SpecFloat.emin, F.prec, F.emax. lia. }
  rewrite Hf. split; [reflexivity |]. split; [exact C | lia].
Qed.

Lemma div_1000 (x : float) :
  positive_between 1 33 x -> positive_between (-9) 25 (F.div x (F.of_Z 1000)).
Proof.
  intros (mx & ex & -> & Cx & Bx).
  change (F.of_Z 1000) with (S754_finite false 16384000 (-14)).
  unfold F.div.
  destruct (SFdiv_finite_spec F.prec F.emax ltac:(reflexivity)
              false false mx 16384000 ex (-14)) as (m & e & R & C & B).
  { change (Zpos (digits2_pos 16384000)) with 24.
    unfold SpecFloat.emin, F.prec, F.emax. lia. }
  change (Zpos (digits2_pos 16384000)) with 24 in B.
  exists m, e. rewrite R. cbn [xorb].
  assert (Hf : (e <=? F.emax - F.prec) = true).
  { apply Z.leb_le. rewrite C. unfold SpecFloat.fexp, SpecFloat.emin, F.prec, F.emax. lia. }
  rewrite Hf. split; [reflexivity |]. split; [exact C | lia].
Qed.

(** The promotion of a canonical [float] to [double] and back is the
    identity. *)
Lemma to_float_of_float (s : bool) (m : positive) (e : Z) :
  e = SpecFloat.fexp F.prec F.emax (Zpos (digits2_pos m) + e) ->
  e <= F.emax - F.prec ->
  D.to_float (D.of_float (S754_finite s m e)) = S754_finite s m e.
Proof.
  intros C He.
  assert (Hd : Zpos (digits2_pos m) <= 24 /\ -149 <= e).
  { unfold SpecFloat.fexp, SpecFloat.emin, F.prec, F.emax in C. lia. }
  destruct Hd as [Hd Hm].
  unfold F.prec, F.emax in He.
  set (d := Zpos (digits2_pos m)) in *.
  assert (Pd : 0 < d) by (unfold d; lia).
  (* the promotion shifts the mantissa to 53 digits *)
  assert (Ep : D.of_float (S754_finite s m e)
               = S754_finite s (Pos.iter xO m (Z.to_pos (53 - d))) (d + e - 53)).
  { unfold D.of_float, binary_round, shl_align. fold d.
    assert (Hx : SpecFloat.fexp D.prec D.emax (d + e) = d + e - 53)
      by (unfold SpecFloat.fexp, SpecFloat.emin, D.prec, D.emax; lia).
    rewrite Hx.
    destruct (d + e - 53 - e) as [| p | p] eqn:Ek; try lia.
    assert (Hp : Z.to_pos (53 - d) = p) by lia. rewrite Hp.
    apply binary_round_aux_exact0.
    - rewrite digits2_pos_iter_xO. fold d.
      unfold SpecFloat.fexp, SpecFloat.emin, D.prec, D.emax. lia.
    - unfold D.prec, D.emax. lia. }
  rewrite Ep. unfold D.to_float, binary_round, shl_align.
  rewrite digits2_pos_iter_xO. fold d.
  assert (Hk : Zpos (Z.to_pos (53 - d)) = 53 - d) by lia. rewrite Hk.
  replace (d + (53 - d) + (d + e - 53)) with (d + e) by lia.
  rewrite <- C.
  destruct (e - (d + e - 53)) as [| p | p] eqn:Ek; try lia.
  replace e with ((d + e - 53) + Zpos (Z.to_pos (53 - d))) at 2 by lia.
  apply binary_round_aux_exact_shift.
  - fold d. rewrite Hk. replace (d + e - 53 + (53 - d)) with e by lia.
    symmetry. exact C.
  - unfold F.prec, F.emax. lia.
Qed.

(** ** Zero and not-a-number through the arithmetic *)

Lemma zn_mul_l (x y : float) : zero_or_nan x -> zero_or_nan (x * y)%flt.
Proof. intros [s |]; destruct y; cbn; constructor. Qed.

Lemma zn_neg (x : float) : zero_or_nan x -> zero_or_nan (- x)%flt.
Proof. intros [s |]; cbn; constructor. Qed.

Lemma zn_add (x y : float) : zero_or_nan x -> zero_or_nan y -> zero_or_nan (x + y)%flt.
Proof. intros [[] |] [[] |]; cbn; constructor. Qed.

Lemma zn_sub (x y : float) : zero_or_nan x -> zero_or_nan y -> zero_or_nan (x - y)%flt.
Proof. intros [[] |] [[] |]; cbn; constructor. Qed.

Lemma zn_div_l (x y : float) : zero_or_nan x -> zero_or_nan (x / y)%flt.
Proof. intros [s |]; destruct y; cbn; constructor. Qed.

Lemma zn_sqrtf (x : float) : zero_or_nan x -> zero_or_nan (F.sqrtf x).
Proof. intros [s |]; cbn; constructor. Qed.

Lemma zn_f0 : zero_or_nan f0.
Proof. constructor. Qed.

Lemma zn_half_rad (x dT : float) : zero_or_nan x -> zero_or_nan (half_rad x dT).
Proof.
  intros H. unfold half_rad.
  pose proof (zn_mul_l x dT H) as Hm.
  destruct Hm as [s |]; cbn [D.of_float].
  - change M_PI with (S754_finite false 7074237752028440 (-51)).
    change (D.of_Z 180) with (S754_finite false 6333186975989760 (-45)).
    change (D.of_Z 2) with (S754_finite false 4503599627370496 (-51)).
    cbn. constructor.
  - cbn. constructor.
Qed.

Lemma zn_degenerate (x : float) : zero_or_nan x -> degenerate x = true.
Proof.
  intros [s |]; unfold degenerate.
  - cbn [D.of_float D.fabs SFabs].
    change (D.lit 1 1000) with (S754_finite false 4611686018427388 (-62)).
    reflexivity.
  - reflexivity.
Qed.

Create HintDb zn.

#[local] Hint Resolve zn_mul_l zn_neg zn_add zn_sub zn_div_l zn_sqrtf zn_f0 zn_half_rad
  : zn.

(** The time step of the all-zero quaternion, whatever the rates and the
    time step, has components that are zero or not-a-number; its
    renormalisation is the identity. *)
Lemma integrate_rates_zero (rates : arr3 float) (dT : float) :
  let qn := integrate_rates zero4 rates dT in
  zero_or_nan (qx0 qn) /\ zero_or_nan (qx1 qn) /\
  zero_or_nan (qx2 qn) /\ zero_or_nan (qx3 qn).
Proof.
  unfold integrate_rates, zero4. cbn [qx0 qx1 qx2 qx3].
  match goal with |- context [if ?c then _ else _] => destruct c end;
    cbn [qx0 qx1 qx2 qx3]; repeat split; auto 12 with zn.
Qed.

Lemma renormalize_zero_or_nan (qn : arr4 float) :
  zero_or_nan (qx0 qn) -> zero_or_nan (qx1 qn) ->
  zero_or_nan (qx2 qn) -> zero_or_nan (qx3 qn) ->
  renormalize qn = q_identity.
Proof.
  intros H0 H1 H2 H3. unfold renormalize.
  rewrite zn_degenerate; [reflexivity |].
  unfold norm4. auto 12 with zn.
Qed.

Lemma renormalize_zero (rates : arr3 float) (dT : float) :
  renormalize (integrate_rates zero4 rates dT) = q_identity.
Proof.
  destruct (integrate_rates_zero rates dT) as (H0 & H1 & H2 & H3).
  apply renormalize_zero_or_nan; assumption.
Qed.

(** ** Signs through the arithmetic *)

Lemma binary_round_aux_sign (prec emax : Z) (s : bool) (m e : Z) (l : location) :
  signed_or_nan s (binary_round_aux prec emax s m e l).
Proof.
  unfold binary_round_aux.
  destruct (shr_fexp prec emax m e l) as [r1 e1].
  destruct (shr_fexp prec emax _ e1 loc_Exact) as [r2 e2].
  destruct (shr_m r2); [constructor | | constructor].
  destruct (e2 <=? emax - prec); constructor.
Qed.

Lemma son_square (x : float) : signed_or_nan false (x * x)%flt.
Proof.
  destruct x as [s | s | | s m e]; cbn [F.mul SFmul].
  - rewrite xorb_nilpotent. constructor.
  - rewrite xorb_nilpotent. constructor.
  - constructor.
  - rewrite xorb_nilpotent. apply binary_round_aux_sign.
Qed.

Lemma son_add (x y : float) :
  signed_or_nan false x -> signed_or_nan false y -> signed_or_nan false (x + y)%flt.
Proof.
  intros [| mx ex | |] [| my ey | |]; cbn [F.add SFadd]; try constructor.
  cbn [cond_Zopp]. unfold binary_normalize.
  destruct (Zpos (fst (shl_align mx ex (Z.min ex ey)))
            + Zpos (fst (shl_align my ey (Z.min ex ey)))) as [| p | p] eqn:E;
    try lia; try constructor.
  unfold binary_round. destruct (shl_align p _ _) as [mz ez].
  apply binary_round_aux_sign.
Qed.

Lemma son_sqrtf (x : float) : signed_or_nan false x -> signed_or_nan false (F.sqrtf x).
Proof.
  intros [| m e | |]; cbn [F.sqrtf SFsqrt]; try constructor.
  destruct (SFsqrt_core_binary F.prec F.emax (Zpos m) e) as [[mz ez] lz].
  apply binary_round_aux_sign.
Qed.

Lemma son_norm4 (v : arr4 float) : signed_or_nan false (norm4 v).
Proof.
  unfold norm4. apply son_sqrtf. repeat apply son_add; apply son_square.
Qed.

Lemma not_negative_son (x : float) : signed_or_nan false x -> not_negative x.
Proof. intros [| m e | |]; reflexivity. Qed.

Lemma not_negative_div (x y : float) :
  not_negative x -> signed_or_nan false y -> not_negative (x / y)%flt.
Proof.
  intros Hx Hy.
  destruct x as [sx | sx | | sx mx ex]; destruct Hy as [| my ey | |];
    try reflexivity; try (destruct sx; [discriminate Hx | reflexivity]).
  destruct sx; [discriminate Hx |].
  apply not_negative_son. cbn [F.div SFdiv].
  destruct (SFdiv_core_binary F.prec F.emax (Zpos mx) ex (Zpos my) ey) as [[mz ez] lz].
  apply binary_round_aux_sign.
Qed.

Lemma not_negative_neg (x : float) : F.ltb x (F.of_Z 0) = true -> not_negative (- x)%flt.
Proof.
  destruct x as [sx | sx | | sx mx ex]; try discriminate;
    destruct sx; try discriminate; reflexivity.
Qed.

Lemma integrate_rates_not_negative (qq : arr4 float) (rates : arr3 float) (dT : float) :
  not_negative (qx0 (integrate_rates qq rates dT)).
Proof.
  unfold integrate_rates. cbv zeta.
  match goal with |- context [if ?c then _ else _] => destruct c eqn:E end;
    cbn [qx0].
  - apply not_negative_neg. exact E.
  - exact E.
Qed.

Lemma renormalize_not_negative (qn : arr4 float) :
  not_negative (qx0 qn) -> not_negative (qx0 (renormalize qn)).
Proof.
  intros H. unfold renormalize.
  destruct (degenerate (norm4 qn)); cbn [qx0].
  - reflexivity.
  - apply not_negative_div; [exact H | apply son_norm4].
Qed.

(** ** The time step *)

Lemma tick_difference (thisSysTime lastSysTime : Z) :
  0 <= thisSysTime < 4294967296 -> 0 <= lastSysTime < 4294967296 ->
  thisSysTime <> lastSysTime ->
  Z.land portMAX_DELAY ((thisSysTime - lastSysTime) mod 4294967296) / portTICK_RATE_MS
    = (thisSysTime - lastSysTime) mod 4294967296 /\
  0 < (thisSysTime - lastSysTime) mod 4294967296 < 4294967296.
Proof.
  intros Ht Hl Hne.
  unfold portTICK_RATE_MS. rewrite Z.div_1_r.
  change portMAX_DELAY with (Z.ones 32).
  rewrite Z.land_comm, Z.land_ones by lia. change (2 ^ 32) with 4294967296.
  rewrite Z.mod_mod by lia.
  split; [reflexivity |].
  pose proof (Z.mod_pos_bound (thisSysTime - lastSysTime) 4294967296 ltac:(lia)) as B.
  assert ((thisSysTime - lastSysTime) mod 4294967296 <> 0); [| lia].
  intros E.
  destruct (Z_le_gt_dec lastSysTime thisSysTime) as [L | G].
  - rewrite Z.mod_small in E by lia. lia.
  - replace (thisSysTime - lastSysTime)
      with (thisSysTime - lastSysTime + 4294967296 + (-1) * 4294967296) in E by lia.
    rewrite Z.mod_add in E by lia. rewrite Z.mod_small in E by lia. lia.
Qed.

(** C9: with tick counts of 32 bits at 1 kHz, the time step of
    [updateAttitude] is the difference of the two tick counts, modulo 2^32,
    converted to [float] and divided by 1000; when the two tick counts are
    equal it is 0.001 instead; in both cases it is a finite positive
    [float], so that the division by [dT] in the proportional correction
    never divides by zero. *)
Theorem dT_never_zero (thisSysTime lastSysTime : Z) :
  0 <= thisSysTime < 4294967296 -> 0 <= lastSysTime < 4294967296 ->
  (thisSysTime = lastSysTime ->
   compute_dT thisSysTime lastSysTime = S754_finite false 8589935 (-33) /\
   S754_finite false 8589935 (-33) = F.lit 1 1000) /\
  (thisSysTime <> lastSysTime ->
   compute_dT thisSysTime lastSysTime =
     (F.of_Z ((thisSysTime - lastSysTime) mod 4294967296) / F.of_Z 1000)%flt) /\
  (exists m e, compute_dT thisSysTime lastSysTime = S754_finite false m e).
Proof.
  intros Ht Hl.
  assert (Eq : thisSysTime = lastSysTime ->
               compute_dT thisSysTime lastSysTime = S754_finite false 8589935 (-33)).
  { intros ->. unfold compute_dT. rewrite Z.eqb_refl. reflexivity. }
  assert (Ne : thisSysTime <> lastSysTime ->
               compute_dT thisSysTime lastSysTime =
                 (F.of_Z ((thisSysTime - lastSysTime) mod 4294967296) / F.of_Z 1000)%flt /\
               positive_between (-9) 25 (compute_dT thisSysTime lastSysTime)).
  { intros Hne. unfold compute_dT.
    apply Z.eqb_neq in Hne as Hb. rewrite Hb.
    apply Z.eqb_neq in Hb.
    destruct (tick_difference thisSysTime lastSysTime Ht Hl Hb) as [-> Hn].
    pose proof (div_1000 _ (of_Z_uint32 _ Hn)) as P.
    destruct P as (m & e & E & C & B). rewrite E.
    rewrite to_float_of_float.
    - split; [reflexivity |]. exists m, e. split; [reflexivity |]. split; assumption.
    - exact C.
    - rewrite C. unfold SpecFloat.fexp, SpecFloat.emin, F.prec, F.emax. lia. }
  split; [| split].
  - intros E. split; [apply Eq; exact E | reflexivity].
  - intros Hne. apply Ne. exact Hne.
  - destruct (Z.eq_dec thisSysTime lastSysTime) as [E | Hne].
    + exists 8589935%positive, (-33). apply Eq. exact E.
    + destruct (Ne Hne) as (_ & m & e & E & _). exists m, e. exact E.
Qed.

Lemma dT_never_zero_witness :
  compute_dT 2004 2000 = (F.of_Z 4 / F.of_Z 1000)%flt /\
  compute_dT 3 4294967295 = (F.of_Z 4 / F.of_Z 1000)%flt /\
  compute_dT 2000 2000 = F.lit 1 1000 /\
  exists m e, compute_dT 2004 2000 = S754_finite false m e.
Proof.
  destruct (dT_never_zero 2004 2000 ltac:(lia) ltac:(lia)) as (_ & N & P).
  destruct (dT_never_zero 3 4294967295 ltac:(lia) ltac:(lia)) as (_ & N' & _).
  destruct (dT_never_zero 2000 2000 ltac:(lia) ltac:(lia)) as (E & _ & _).
  split; [apply N; discriminate |].
  split; [apply N'; discriminate |].
  split; [| exact P].
  destruct (E eq_refl) as [E1 E2]. rewrite E1. exact E2.
Defined.

(** ** Not-a-number through the arithmetic *)

Lemma mul_nan_l (y : float) : (S754_nan * y)%flt = S754_nan.
Proof. reflexivity. Qed.

Lemma mul_nan_r (x : float) : (x * S754_nan)%flt = S754_nan.
Proof. destruct x; reflexivity. Qed.

Lemma add_nan_l (y : float) : (S754_nan + y)%flt = S754_nan.
Proof. reflexivity. Qed.

Lemma add_nan_r (x : float) : (x + S754_nan)%flt = S754_nan.
Proof. destruct x; reflexivity. Qed.

Lemma sub_nan_l (y : float) : (S754_nan - y)%flt = S754_nan.
Proof. reflexivity. Qed.

Lemma sub_nan_r (x : float) : (x - S754_nan)%flt = S754_nan.
Proof. destruct x; reflexivity. Qed.

Lemma div_nan_l (y : float) : (S754_nan / y)%flt = S754_nan.
Proof. reflexivity. Qed.

Lemma div_nan_r (x : float) : (x / S754_nan)%flt = S754_nan.
Proof. destruct x; reflexivity. Qed.

Lemma neg_nan : (- S754_nan)%flt = S754_nan.
Proof. reflexivity. Qed.

Lemma sqrtf_nan : F.sqrtf S754_nan = S754_nan.
Proof. reflexivity. Qed.

Lemma ltb_nan_l (y : float) : F.ltb S754_nan y = false.
Proof. reflexivity. Qed.

Lemma half_rad_nan (dT : float) : half_rad S754_nan dT = S754_nan.
Proof. reflexivity. Qed.

Lemma degenerate_nan : degenerate S754_nan = true.
Proof. reflexivity. Qed.

Ltac nan :=
  rewrite ?mul_nan_l, ?mul_nan_r, ?add_nan_l, ?add_nan_r, ?sub_nan_l, ?sub_nan_r,
    ?div_nan_l, ?div_nan_r, ?neg_nan, ?sqrtf_nan, ?ltb_nan_l, ?half_rad_nan.

(** ** Zeros through the filter *)

Lemma is_zero_mul_finite (s : bool) (m : positive) (e : Z) (x : float) :
  is_zero x -> is_zero (S754_finite s m e * x)%flt.
Proof. destruct x; intros H; try destruct H. exact I. Qed.

Lemma is_zero_add (x y : float) : is_zero x -> is_zero y -> is_zero (x + y)%flt.
Proof.
  destruct x as [[] | | |]; intros Hx; try destruct Hx;
    destruct y as [[] | | |]; intros Hy; try destruct Hy; exact I.
Qed.

Lemma is_zero_sub (x y : float) : is_zero x -> is_zero y -> is_zero (x - y)%flt.
Proof.
  destruct x as [[] | | |]; intros Hx; try destruct Hx;
    destruct y as [[] | | |]; intros Hy; try destruct Hy; exact I.
Qed.

Lemma is_zero_mul_coefficient (c x : float) :
  (exists s m e, c = S754_finite s m e) -> is_zero x -> is_zero (c * x)%flt.
Proof. intros (s & m & e & ->). apply is_zero_mul_finite. Qed.

Ltac finite_value := vm_compute; do 3 eexists; reflexivity.

Lemma computeFourthOrder_zero (x i1 i2 i3 i4 o1 o2 o3 o4 : float) :
  is_zero x -> is_zero i1 -> is_zero i2 -> is_zero i3 -> is_zero i4 ->
  is_zero o1 -> is_zero o2 -> is_zero o3 -> is_zero o4 ->
  is_zero (_b0 * x + _b1 * i1 + _b2 * i2 + _b3 * i3 + _b4 * i4
           - _a1 * o1 - _a2 * o2 - _a3 * o3 - _a4 * o4)%flt.
Proof.
  intros.
  assert (exists s m e, _b0 = S754_finite s m e) by finite_value.
  assert (exists s m e, _b1 = S754_finite s m e) by finite_value.
  assert (exists s m e, _b2 = S754_finite s m e) by finite_value.
  assert (exists s m e, _b3 = S754_finite s m e) by finite_value.
  assert (exists s m e, _b4 = S754_finite s m e) by finite_value.
  assert (exists s m e, _a1 = S754_finite s m e) by finite_value.
  assert (exists s m e, _a2 = S754_finite s m e) by finite_value.
  assert (exists s m e, _a3 = S754_finite s m e) by finite_value.
  assert (exists s m e, _a4 = S754_finite s m e) by finite_value.
  do 4 (apply is_zero_sub; [| apply is_zero_mul_coefficient; assumption]).
  do 4 (apply is_zero_add; [| apply is_zero_mul_coefficient; assumption]).
  apply is_zero_mul_coefficient; assumption.
Qed.

Lemma computeFourthOrder_at_rest (x : float) (fp : fourthOrderData) :
  is_zero x -> filter_at_rest fp ->
  is_zero (fst (computeFourthOrder x fp)) /\ filter_at_rest (snd (computeFourthOrder x fp)).
Proof.
  intros Hx [Hi Ho]. destruct fp as [i1 i2 i3 i4 o1 o2 o3 o4].
  apply Forall_cons_iff in Hi as [I1 Hi]. apply Forall_cons_iff in Hi as [I2 Hi].
  apply Forall_cons_iff in Hi as [I3 Hi]. apply Forall_cons_iff in Hi as [I4 _].
  apply Forall_cons_iff in Ho as [O1 Ho]. apply Forall_cons_iff in Ho as [O2 Ho].
  apply Forall_cons_iff in Ho as [O3 Ho]. apply Forall_cons_iff in Ho as [O4 _].
  pose proof (computeFourthOrder_zero x i1 i2 i3 i4 o1 o2 o3 o4
                Hx I1 I2 I3 I4 O1 O2 O3 O4) as Hy.
  split; [exact Hy |].
  split; repeat (apply Forall_cons; [assumption |]); apply Forall_nil.
Qed.

(** ** Rounding of a mantissa that is not negative *)

Lemma shr_fexp_nonneg (prec emax m e : Z) (l : location) :
  0 <= m -> 0 <= shr_m (fst (shr_fexp prec emax m e l)).
Proof.
  intros Hm. unfold shr_fexp, shr.
  destruct (SpecFloat.fexp prec emax (Zdigits2 m + e) - e) as [| p | p]; cbn [fst].
  - rewrite shr_record_of_loc_m. exact Hm.
  - rewrite iter_pos_shr_1_m by (rewrite shr_record_of_loc_m; exact Hm).
    rewrite shr_record_of_loc_m. apply Z.div_pos; [exact Hm |].
    apply Z.pow_pos_nonneg; lia.
  - rewrite shr_record_of_loc_m. exact Hm.
Qed.

Lemma binary_round_aux_has_sign (prec emax : Z) (s : bool) (m e : Z) (l : location) :
  0 <= m -> has_sign s (binary_round_aux prec emax s m e l).
Proof.
  intros Hm. unfold binary_round_aux.
  pose proof (shr_fexp_nonneg prec emax m e l Hm) as P1.
  destruct (shr_fexp prec emax m e l) as [r1 e1]. cbn [fst] in P1.
  pose proof (round_nearest_even_bounds (shr_m r1) (loc_of_shr_record r1)) as B.
  set (m2 := round_nearest_even (shr_m r1) (loc_of_shr_record r1)) in *.
  assert (P2 : 0 <= m2) by lia.
  pose proof (shr_fexp_nonneg prec emax m2 e1 loc_Exact P2) as P3.
  destruct (shr_fexp prec emax m2 e1 loc_Exact) as [r3 e3]. cbn [fst] in P3.
  destruct (shr_m r3) as [| m3 | m3]; [reflexivity | | lia].
  destruct (e3 <=? emax - prec); reflexivity.
Qed.

Lemma SFdiv_core_binary_nonneg (prec emax : Z) (mx my : positive) (ex ey : Z) :
  0 <= fst (fst (SFdiv_core_binary prec emax (Zpos mx) ex (Zpos my) ey)).
Proof.
  unfold SFdiv_core_binary.
  set (sh := ex - ey - _).
  set (m' := match sh with Z0 => _ | Zpos _ => _ | Zneg _ => _ end).
  assert (Hm : 0 <= m').
  { subst m'. destruct sh as [| p | p]; [lia | | lia].
    apply Z.shiftl_nonneg. lia. }
  pose proof (Z.div_pos m' (Zpos my) Hm ltac:(lia)) as Hq.
  unfold Z.div in Hq.
  destruct (Z.div_eucl m' (Zpos my)) as [qq r]. cbn [fst] in *. exact Hq.
Qed.

(** A number divided by a finite positive number keeps its sign. *)
Lemma div_has_sign (x : float) (m : positive) (e : Z) :
  x <> S754_nan -> has_sign (sign_of x) (x / S754_finite false m e)%flt.
Proof.
  intros Hx. destruct x as [s | s | | s mx ex]; [| | congruence |].
  - cbn. apply xorb_false_r.
  - cbn. apply xorb_false_r.
  - cbn [F.div SFdiv sign_of].
    pose proof (SFdiv_core_binary_nonneg F.prec F.emax mx m ex e) as Hq.
    destruct (SFdiv_core_binary F.prec F.emax (Zpos mx) ex (Zpos m) e) as [[mz ez] lz].
    cbn [fst] in Hq. rewrite xorb_false_r.
    apply binary_round_aux_has_sign. exact Hq.
Qed.

(** Division by a zero and by an infinity. *)
Lemma div_by_zero (x : float) (s : bool) :
  is_finite x ->
  (is_zero x /\ (x / S754_zero s)%flt = S754_nan) \/
  (~ is_zero x /\ is_infinite (x / S754_zero s)%flt).
Proof.
  destruct x as [sx | sx | | sx mx ex]; intros H; try destruct H.
  - left. split; [exact I | reflexivity].
  - right. split; [intros Z; exact Z | exact I].
Qed.

Lemma div_by_infinity (x : float) (s : bool) :
  is_finite x -> is_zero (x / S754_infinity s)%flt.
Proof. destruct x; intros H; try destruct H; exact I. Qed.

Lemma eqb_zero (x : float) : F.eqb x (F.of_Z 0) = true -> is_zero x.
Proof. destruct x as [[] | [] | | [] m e]; intros H; try discriminate H; exact I. Qed.

Lemma eqb_zero_false (x : float) : F.eqb x (F.of_Z 0) = false -> ~ is_zero x.
Proof. destruct x as [[] | [] | | [] m e]; intros H Z; try discriminate H; exact Z. Qed.

(** ** The length of the magnetic field *)

Lemma north_length_zeros (Be : arr3 float) :
  is_zero (ix0 Be) -> is_zero (ix1 Be) -> is_zero (ix2 Be) -> is_zero (north_length Be).
Proof.
  destruct Be as [[[] | | |] [[] | | |] [[] | | |]]; cbn [ix0 ix1 ix2];
    intros H0 H1 H2; try destruct H0; try destruct H1; try destruct H2;
    vm_compute; exact I.
Qed.

Lemma of_float_nan : D.of_float S754_nan = S754_nan.
Proof. reflexivity. Qed.

Lemma to_float_nan : D.to_float S754_nan = S754_nan.
Proof. reflexivity. Qed.

Lemma north_length_of_overflowed (x : float) :
  overflowed x -> overflowed (D.to_float (D_sqrt (D.of_float x))).
Proof. intros [-> | ->]; [left | right]; reflexivity. Qed.

Lemma square_infinite (x : float) : is_infinite x -> (x * x)%flt = S754_infinity false.
Proof. destruct x as [| [] | |]; intros H; try destruct H; reflexivity. Qed.

Lemma add_overflowed_l (x y : float) :
  overflowed x -> signed_or_nan false y -> overflowed (x + y)%flt.
Proof.
  intros [-> | ->] [| m e | |]; unfold overflowed; cbn; auto.
Qed.

Lemma add_overflowed_r (x y : float) :
  signed_or_nan false x -> overflowed y -> overflowed (x + y)%flt.
Proof.
  intros [| m e | |] [-> | ->]; unfold overflowed; cbn; auto.
Qed.

Lemma sqrt_nan : D_sqrt S754_nan = S754_nan.
Proof. reflexivity. Qed.

Lemma overflowed_not_zero (x : float) : overflowed x -> ~ is_zero x.
Proof. intros [-> | ->] Z; exact Z. Qed.

(** ** The numbers a rounding delivers *)

Lemma binary_round_aux_bounded (prec emax : Z) (s : bool) (m e : Z) (l : location)
    (s' : bool) (m' : positive) (e' : Z) :
  0 < prec -> 0 <= m ->
  binary_round_aux prec emax s m e l = S754_finite s' m' e' ->
  Zpos (digits2_pos m') <= prec /\ SpecFloat.emin prec emax <= e' <= emax - prec.
Proof.
  intros Hp Hm. unfold binary_round_aux.
  pose proof (shr_fexp_nonneg prec emax m e l Hm) as P1.
  destruct (shr_fexp prec emax m e l) as [r1 e1]. cbn [fst] in P1.
  pose proof (round_nearest_even_bounds (shr_m r1) (loc_of_shr_record r1)) as B.
  set (m2 := round_nearest_even (shr_m r1) (loc_of_shr_record r1)) in *.
  assert (P2 : 0 <= m2) by lia.
  unfold shr_fexp, shr.
  set (fx := SpecFloat.fexp prec emax (Zdigits2 m2 + e1)).
  assert (Hfx : Zdigits2 m2 + e1 - prec <= fx /\ SpecFloat.emin prec emax <= fx)
    by (unfold fx, SpecFloat.fexp; lia).
  destruct (fx - e1) as [| p | p] eqn:En.
  - rewrite shr_record_of_loc_m.
    destruct m2 as [| q | q]; try discriminate.
    destruct (e1 <=? emax - prec) eqn:Le; try discriminate.
    intros R. injection R as <- <- <-. apply Z.leb_le in Le.
    cbn [Zdigits2] in Hfx. lia.
  - rewrite iter_pos_shr_1_m by (rewrite shr_record_of_loc_m; exact P2).
    rewrite shr_record_of_loc_m.
    destruct (m2 / 2 ^ Zpos p) as [| q | q] eqn:Eq; try discriminate.
    destruct (e1 + Zpos p <=? emax - prec) eqn:Le; try discriminate.
    intros R. injection R as <- <- <-. apply Z.leb_le in Le.
    assert (Pm : 0 < m2).
    { destruct (Z.eq_dec m2 0) as [Z | Z]; [| lia].
      rewrite Z in Eq. rewrite Z.div_0_l in Eq; [discriminate |].
      apply Z.pow_nonzero; lia. }
    assert (Hlt : Zpos p < Zdigits2 m2).
    { destruct (Z.lt_ge_cases (Zpos p) (Zdigits2 m2)) as [L | G]; [exact L |].
      pose proof (Zdigits2_bounds m2 Pm) as [_ U].
      assert (2 ^ Zdigits2 m2 <= 2 ^ Zpos p) by (apply Z.pow_le_mono_r; lia).
      rewrite Z.div_small in Eq by lia. discriminate. }
    destruct (Zdigits2_shiftr m2 (Zpos p) Pm) as [_ Dg]; [lia |].
    rewrite Eq in Dg. cbn [Zdigits2] in Dg. lia.
  - rewrite shr_record_of_loc_m.
    destruct m2 as [| q | q]; try discriminate.
    destruct (e1 <=? emax - prec) eqn:Le; try discriminate.
    intros R. injection R as <- <- <-. apply Z.leb_le in Le.
    cbn [Zdigits2] in Hfx. lia.
Qed.

Lemma SFsqrt_core_binary_nonneg (prec emax : Z) (m : positive) (e : Z) :
  0 <= fst (fst (SFsqrt_core_binary prec emax (Zpos m) e)).
Proof.
  unfold SFsqrt_core_binary.
  set (sh := e - 2 * _).
  set (m' := match sh with Z0 => _ | Zpos _ => _ | Zneg _ => _ end).
  assert (Hm : 0 <= m').
  { subst m'. destruct sh as [| p | p]; [lia | | lia].
    apply Z.shiftl_nonneg. lia. }
  pose proof (Z.sqrtrem_spec m' Hm) as S.
  destruct (Z.sqrtrem m') as [q r]. cbn [fst]. lia.
Qed.

Lemma sqrtf_bounded (x : float) : float_bounded (F.sqrtf x).
Proof.
  destruct x as [s | [] | | [] m e]; try exact I.
  cbn [F.sqrtf SFsqrt float_bounded].
  pose proof (SFsqrt_core_binary_nonneg F.prec F.emax m e) as Hq.
  destruct (SFsqrt_core_binary F.prec F.emax (Zpos m) e) as [[mz ez] lz].
  cbn [fst] in Hq.
  destruct (binary_round_aux F.prec F.emax false mz ez lz) as [| | | s' m' e'] eqn:E;
    try exact I.
  apply binary_round_aux_bounded in E; [| reflexivity | exact Hq].
  unfold F.prec, F.emax, SpecFloat.emin in E. cbn [float_bounded]. lia.
Qed.

(** ** The test on the norm of the quaternion *)

Lemma iter_xO_value (m k : positive) : Zpos (Pos.iter xO m k) = Zpos m * 2 ^ Zpos k.
Proof.
  revert m. induction k using Pos.peano_ind; intros m.
  - cbn. lia.
  - rewrite Pos.iter_succ, Pos2Z.inj_xO, IHk, Pos2Z.inj_succ, Z.pow_succ_r by lia.
    ring.
Qed.

(** The promotion of a [float] to [double] realigns the mantissa to 53
    digits. *)
Lemma of_float_finite (s : bool) (m : positive) (e : Z) :
  Zpos (digits2_pos m) <= 24 -> -149 <= e <= 104 ->
  D.of_float (S754_finite s m e)
  = S754_finite s (Pos.iter xO m (Z.to_pos (53 - Zpos (digits2_pos m))))
                (Zpos (digits2_pos m) + e - 53).
Proof.
  intros Hd He. set (d := Zpos (digits2_pos m)) in *.
  assert (Pd : 0 < d) by (unfold d; lia).
  unfold D.of_float, binary_round, shl_align. fold d.
  assert (Hx : SpecFloat.fexp D.prec D.emax (d + e) = d + e - 53)
    by (unfold SpecFloat.fexp, SpecFloat.emin, D.prec, D.emax; lia).
  rewrite Hx.
  destruct (d + e - 53 - e) as [| p | p] eqn:Ek; try lia.
  assert (Hp : Z.to_pos (53 - d) = p) by lia. rewrite Hp.
  apply binary_round_aux_exact0.
  - rewrite digits2_pos_iter_xO. fold d.
    unfold SpecFloat.fexp, SpecFloat.emin, D.prec, D.emax. lia.
  - unfold D.prec, D.emax. lia.
Qed.

Lemma is_nan_finite (s : bool) (m : positive) (e : Z) : is_nan (S754_finite s m e) = false.
Proof.
  unfold is_nan, F.eqb, SFeqb, SFcompare.
  destruct s; rewrite Z.compare_refl, Pos.compare_cont_refl; reflexivity.
Qed.

Lemma lit_1e3 : D.lit 1 1000 = S754_finite false 4611686018427388 (-62).
Proof. vm_compute. reflexivity. Qed.

Lemma ltb_finite_pos (M C : positive) (E F : Z) :
  SFltb (S754_finite false M E) (S754_finite false C F)
  = match Z.compare E F with
    | Lt => true
    | Gt => false
    | Eq => match Pos.compare M C with Lt => true | _ => false end
    end.
Proof.
  unfold SFltb, SFcompare, Pos.compare.
  destruct (Z.compare E F); [| reflexivity | reflexivity].
  destruct (Pos.compare_cont Eq M C); reflexivity.
Qed.

(** A mantissa of [d] digits at the exponent of the [double] nearest to
    0.001: the mantissas decide, and no integer lies between 2^62 / 1000 and
    the mantissa of that [double]. *)
Lemma below_1e3_same_exponent (m M : positive) (e d : Z) :
  0 < d <= 24 -> Zpos M = Zpos m * 2 ^ (53 - d) -> d + e - 53 = -62 ->
  match Pos.compare M 4611686018427388 with Lt => true | _ => false end
  = (if 0 <=? e then false else 1000 * Zpos m <? 2 ^ (- e)).
Proof.
  intros Hd V E.
  assert (He0 : (0 <=? e) = false) by (apply Z.leb_gt; lia). rewrite He0.
  assert (P : 2 ^ (- e) * 2 ^ (53 - d) = 4611686018427387904).
  { rewrite <- Z.pow_add_r by lia. replace (- e + (53 - d)) with 62 by lia.
    reflexivity. }
  assert (Pk : 0 < 2 ^ (53 - d)) by (apply Z.pow_pos_nonneg; lia).
  assert (X : 1000 * Zpos M = 1000 * Zpos m * 2 ^ (53 - d)) by (rewrite V; ring).
  destruct (Pos.compare_spec M 4611686018427388) as [C | C | C];
    destruct (Z.ltb_spec (1000 * Zpos m) (2 ^ (- e))) as [T | T];
    try reflexivity; exfalso.
  - assert (T2 : 1000 * Zpos m * 2 ^ (53 - d) < 2 ^ (- e) * 2 ^ (53 - d))
      by (apply Z.mul_lt_mono_pos_r; [exact Pk | exact T]).
    rewrite P, <- X in T2.
    assert (Q : Zpos M = 4611686018427388) by (rewrite C; reflexivity).
    clear - T2 Q. lia.
  - assert (T2 : 2 ^ (- e) * 2 ^ (53 - d) <= 1000 * Zpos m * 2 ^ (53 - d))
      by (apply Z.mul_le_mono_nonneg_r; [apply Z.lt_le_incl; exact Pk | exact T]).
    rewrite P, <- X in T2.
    assert (Q : Zpos M < 4611686018427388) by (apply Pos2Z.pos_lt_pos; exact C).
    clear - T2 Q. lia.
  - assert (T2 : 1000 * Zpos m * 2 ^ (53 - d) < 2 ^ (- e) * 2 ^ (53 - d))
      by (apply Z.mul_lt_mono_pos_r; [exact Pk | exact T]).
    rewrite P, <- X in T2.
    assert (Q : 4611686018427388 < Zpos M) by (apply Pos2Z.pos_lt_pos; exact C).
    clear - T2 Q. lia.
Qed.

(** A smaller exponent: the magnitude is below 2^-10. *)
Lemma below_1e3_smaller_exponent (m : positive) (e d : Z) :
  0 < d <= 24 -> Zpos m < 2 ^ d -> d + e - 53 < -62 ->
  true = (if 0 <=? e then false else 1000 * Zpos m <? 2 ^ (- e)).
Proof.
  intros Hd U E.
  assert (He0 : (0 <=? e) = false) by (apply Z.leb_gt; lia). rewrite He0.
  symmetry. apply Z.ltb_lt.
  assert (2 ^ (d + 10) <= 2 ^ (- e)) by (apply Z.pow_le_mono_r; lia).
  assert (2 ^ (d + 10) = 1024 * 2 ^ d)
    by (rewrite Z.pow_add_r by lia; change (2 ^ 10) with 1024; ring).
  lia.
Qed.

(** A larger exponent: the magnitude is 2^-9 at least. *)
Lemma below_1e3_larger_exponent (m : positive) (e d : Z) :
  0 < d <= 24 -> 2 ^ (d - 1) <= Zpos m -> -62 < d + e - 53 ->
  false = (if 0 <=? e then false else 1000 * Zpos m <? 2 ^ (- e)).
Proof.
  intros Hd L E.
  destruct (Z.leb_spec 0 e) as [G | G]; [reflexivity |].
  symmetry. apply Z.ltb_ge.
  assert (2 ^ (- e) <= 2 ^ (d + 8)) by (apply Z.pow_le_mono_r; lia).
  assert (2 ^ (d + 8) = 512 * 2 ^ (d - 1)).
  { replace (d + 8) with (9 + (d - 1)) by lia.
    rewrite Z.pow_add_r by lia. change (2 ^ 9) with 512. ring. }
  lia.
Qed.

(** For a finite [float] the test [fabs(qmag) < 1e-3], made in [double]
    against the [double] nearest to 0.001, decides whether the magnitude is
    below the rational 1/1000: no [float] lies between the two. *)
Lemma degenerate_finite (s : bool) (m : positive) (e : Z) :
  Zpos (digits2_pos m) <= 24 -> -149 <= e <= 104 ->
  degenerate (S754_finite s m e) = below_1e3 (S754_finite s m e).
Proof.
  intros Hd He. unfold degenerate.
  rewrite is_nan_finite, orb_false_r, (of_float_finite s m e Hd He), lit_1e3.
  pose proof (Zdigits2_bounds (Zpos m) ltac:(lia)) as [L U]. cbn [Zdigits2] in L, U.
  pose proof (iter_xO_value m (Z.to_pos (53 - Zpos (digits2_pos m)))) as V.
  remember (Zpos (digits2_pos m)) as d eqn:Ed.
  remember (Pos.iter xO m (Z.to_pos (53 - d))) as M eqn:EM.
  assert (Pd : 0 < d <= 24) by lia.
  assert (Hk : Zpos (Z.to_pos (53 - d)) = 53 - d) by lia. rewrite Hk in V.
  clear EM Ed.
  unfold D.fabs, D.ltb. cbn [SFabs below_1e3]. rewrite ltb_finite_pos.
  destruct (Z.compare_spec (d + e - 53) (-62)) as [E | E | E].
  - exact (below_1e3_same_exponent m M e d Pd V E).
  - exact (below_1e3_smaller_exponent m e d Pd U E).
  - exact (below_1e3_larger_exponent m e d Pd L E).
Qed.

Lemma degenerate_below_1e3 (x : float) :
  float_bounded x -> degenerate x = below_1e3 x || not_a_number x.
Proof.
  destruct x as [s | s | | s m e]; intros H.
  - destruct s; vm_compute; reflexivity.
  - destruct s; vm_compute; reflexivity.
  - reflexivity.
  - cbn [float_bounded] in H. destruct H as [Hd He].
    rewrite (degenerate_finite s m e Hd He). cbn [not_a_number].
    rewrite orb_false_r. reflexivity.
Qed.

Lemma renormalize_spec (qn : arr4 float) : renormalize qn = spec_renormalize qn.
Proof.
  unfold renormalize, spec_renormalize. cbv zeta.
  rewrite (degenerate_below_1e3 (norm4 qn)) by apply sqrtf_bounded.
  reflexivity.
Qed.

(** The arithmetic is run by evaluation only; the structural proofs below do
    not look inside it. *)
#[local] Opaque F.add F.sub F.mul F.div F.neg F.sqrtf F.ltb F.eqb F.of_Z F.lit
  D.mul D.div D.fabs D.ltb D.of_Z D.lit D.of_float D.to_float.

(** ** The filter *)

Lemma arr3_eta {A : Type} (v : arr3 A) : Arr3 (ix0 v) (ix1 v) (ix2 v) = v.
Proof. destruct v; reflexivity. Qed.

Lemma arr4_eta {A : Type} (v : arr4 A) : Arr4 (qx0 v) (qx1 v) (qx2 v) (qx3 v) = v.
Proof. destruct v; reflexivity. Qed.

Lemma computeFourthOrder_output (x : float) (fp : fourthOrderData) :
  fst (computeFourthOrder x fp) = recurrence (x :: inputs_of fp) (outputs_of fp).
Proof.
  cbv [computeFourthOrder recurrence weighted b_table a_table inputs_of outputs_of
       map combine fold_left fst snd _b0 _b1 _b2 _b3 _b4 _a1 _a2 _a3 _a4].
  reflexivity.
Qed.

Lemma computeFourthOrder_shift (x : float) (fp : fourthOrderData) :
  inputs_of (snd (computeFourthOrder x fp)) = firstn 4 (x :: inputs_of fp) /\
  outputs_of (snd (computeFourthOrder x fp)) =
    firstn 4 (fst (computeFourthOrder x fp) :: outputs_of fp).
Proof.
  cbv [computeFourthOrder inputs_of outputs_of firstn fst snd
       inputTm1 inputTm2 inputTm3 inputTm4 outputTm1 outputTm2 outputTm3 outputTm4].
  split; reflexivity.
Qed.

Lemma firstn_app_firstn {A : Type} (n : nat) (l m : list A) :
  firstn n (l ++ firstn n m) = firstn n (l ++ m).
Proof.
  rewrite !firstn_app, firstn_firstn.
  replace (Nat.min (n - length l) n) with (n - length l)%nat by lia.
  reflexivity.
Qed.

(** After the filter has run over a list of inputs it holds the last four
    inputs and the last four outputs. *)
Lemma filter_run_histories (xs : list float) (fp : fourthOrderData) :
  inputs_of (snd (filter_run xs fp)) = firstn 4 (rev xs ++ inputs_of fp) /\
  outputs_of (snd (filter_run xs fp)) =
    firstn 4 (rev (fst (filter_run xs fp)) ++ outputs_of fp).
Proof.
  revert fp. induction xs as [| x rest IH]; intros fp.
  - split; reflexivity.
  - cbn [filter_run].
    pose proof (computeFourthOrder_shift x fp) as [Si So].
    destruct (computeFourthOrder x fp) as [y fp1]. cbn [fst snd] in Si, So.
    specialize (IH fp1). destruct (filter_run rest fp1) as [ys fp2].
    cbn [fst snd rev] in *. destruct IH as [Ii Io].
    rewrite Ii, Io, Si, So, <- !app_assoc, !firstn_app_firstn.
    split; reflexivity.
Qed.

(** The first two outputs for a unit impulse into a filter at rest: [b0],
    then [b1 - a1 * b0]. *)
Example impulse_response :
  fst (filter_run [f1; f0] filter_zero) = [_b0; (_b1 - _a1 * _b0)%flt].
Proof. vm_compute. reflexivity. Qed.

(** C6: one call of the filter returns the 4th order recurrence over the
    current input, the four inputs and the four outputs it holds, with the
    coefficient tables [b] and [a]; the call shifts both histories by one,
    dropping the oldest entry, so that after any run of calls the filter
    holds the last four inputs and outputs; with the filter switched off
    [apply_accel_filter] returns the raw vector and leaves the three filter
    states as they are, and with it switched on it runs the recurrence on
    each axis with that axis' state. *)
Theorem iir_filter_recurrence :
  (forall x fp,
     fst (computeFourthOrder x fp) = recurrence (x :: inputs_of fp) (outputs_of fp) /\
     inputs_of (snd (computeFourthOrder x fp)) = firstn 4 (x :: inputs_of fp) /\
     outputs_of (snd (computeFourthOrder x fp)) =
       firstn 4 (fst (computeFourthOrder x fp) :: outputs_of fp)) /\
  (forall xs fp,
     inputs_of (snd (filter_run xs fp)) = firstn 4 (rev xs ++ inputs_of fp) /\
     outputs_of (snd (filter_run xs fp)) =
       firstn 4 (rev (fst (filter_run xs fp)) ++ outputs_of fp)) /\
  (forall raw fps, apply_accel_filter false raw fps = (raw, fps)) /\
  (forall raw fps,
     apply_accel_filter true raw fps =
       (Arr3 (fst (computeFourthOrder (ix0 raw) (ix0 fps)))
             (fst (computeFourthOrder (ix1 raw) (ix1 fps)))
             (fst (computeFourthOrder (ix2 raw) (ix2 fps))),
        Arr3 (snd (computeFourthOrder (ix0 raw) (ix0 fps)))
             (snd (computeFourthOrder (ix1 raw) (ix1 fps)))
             (snd (computeFourthOrder (ix2 raw) (ix2 fps))))).
Proof.
  split; [| split; [| split]].
  - intros x fp. split.
    + apply computeFourthOrder_output.
    + apply computeFourthOrder_shift.
  - apply filter_run_histories.
  - intros raw fps. unfold apply_accel_filter. now rewrite arr3_eta.
  - intros raw fps. cbv [apply_accel_filter].
    destruct (computeFourthOrder (ix0 raw) (ix0 fps)).
    destruct (computeFourthOrder (ix1 raw) (ix1 fps)).
    destruct (computeFourthOrder (ix2 raw) (ix2 fps)).
    reflexivity.
Qed.

(** ** Projections of the state through its updates *)

Ltac proj :=
  cbn [est gn brd trm init mpu6050_data AttitudeSettings alarm published
       set_est set_gn set_init set_mpu6050_data set_alarm publish
       set_AttitudeSettings set_gyro_correct_int AlarmsSet AlarmsClear
       q gyro_correct_int accels_filtered grot_filtered
       filterParams_acc filterParams_grot lastSysTime
       ix0 ix1 ix2 qx0 qx1 qx2 qx3 fst snd] in *.

Lemma updateAttitude_outcome {pf : Platform} t a g s :
  attitude_outcome t s (updateAttitude t a g s).
Proof.
  unfold updateAttitude.
  destruct (apply_accel_filter _ _ (filterParams_acc _)) as [af pa].
  destruct (apply_accel_filter _ _ (filterParams_grot _)) as [gf pg].
  destruct (F.ltb (norm3 af) (F.lit 1 1000)) eqn:Ea.
  - apply outcome_aborted; proj; auto.
  - destruct (accel_filter_enabled (gn s)) eqn:En.
    + destruct (F.ltb (norm3 gf) (F.lit 1 1000)) eqn:Eg.
      * apply outcome_aborted; proj; auto.
      * eapply outcome_completed; proj;
          [exact Ea | right; exact Eg | reflexivity | reflexivity].
    + destruct (F.ltb (F.of_Z 1) (F.lit 1 1000)) eqn:E1.
      * vm_compute in E1. discriminate.
      * eapply outcome_completed; proj;
          [exact Ea | left; exact En | reflexivity | reflexivity].
Qed.

Lemma updateAttitude_frame {pf : Platform} t a g s :
  gn (updateAttitude t a g s) = gn s /\
  brd (updateAttitude t a g s) = brd s /\
  trm (updateAttitude t a g s) = trm s /\
  init (updateAttitude t a g s) = init s /\
  AttitudeSettings (updateAttitude t a g s) = AttitudeSettings s /\
  alarm (updateAttitude t a g s) = alarm s.
Proof.
  unfold updateAttitude.
  destruct (apply_accel_filter _ _ (filterParams_acc _)) as [af pa].
  destruct (apply_accel_filter _ _ (filterParams_grot _)) as [gf pg].
  destruct (F.ltb (norm3 af) (F.lit 1 1000)).
  - proj. repeat split.
  - destruct (F.ltb _ (F.lit 1 1000)); proj; repeat split.
Qed.

(** ** The magnitude guard of the fusion *)

Lemma updateAttitude_filtered {pf : Platform} t a g s :
  accels_filtered (est (updateAttitude t a g s)) =
    fst (apply_accel_filter (accel_filter_enabled (gn s))
           (Arr3 (Accels.x a) (Accels.y a) (Accels.z a)) (filterParams_acc (est s))) /\
  grot_filtered (est (updateAttitude t a g s)) =
    fst (apply_accel_filter (accel_filter_enabled (gn s))
           (predicted_gravity (q (est s))) (filterParams_grot (est s))).
Proof.
  unfold updateAttitude.
  destruct (apply_accel_filter _ _ (filterParams_acc _)) as [af pa].
  destruct (apply_accel_filter _ _ (filterParams_grot _)) as [gf pg].
  destruct (F.ltb (norm3 af) (F.lit 1 1000)).
  - proj. split; reflexivity.
  - destruct (F.ltb _ (F.lit 1 1000)); proj; split; reflexivity.
Qed.

(** What a cycle leaves that the guard lets through: the integral with the
    normalised error times [accelKi] added to x and y, the renormalised time
    step of the quaternion under the corrected rates, and the attitude
    published. *)
Lemma updateAttitude_completed {pf : Platform} t a g s :
  F.ltb (norm3 (accels_filtered (est (updateAttitude t a g s)))) (F.lit 1 1000) = false ->
  accel_filter_enabled (gn s) = false \/
    F.ltb (norm3 (grot_filtered (est (updateAttitude t a g s)))) (F.lit 1 1000) = false ->
  gyro_correct_int (est (updateAttitude t a g s)) =
    Arr3 (ix0 (gyro_correct_int (est s))
          + ix0 (fusion_error (accel_filter_enabled (gn s))
                   (accels_filtered (est (updateAttitude t a g s)))
                   (grot_filtered (est (updateAttitude t a g s))))
            * accelKi (gn s))%flt
         (ix1 (gyro_correct_int (est s))
          + ix1 (fusion_error (accel_filter_enabled (gn s))
                   (accels_filtered (est (updateAttitude t a g s)))
                   (grot_filtered (est (updateAttitude t a g s))))
            * accelKi (gn s))%flt
         (ix2 (gyro_correct_int (est s))) /\
  q (est (updateAttitude t a g s)) =
    renormalize
      (integrate_rates (q (est s))
         (corrected_rates g
            (fusion_error (accel_filter_enabled (gn s))
               (accels_filtered (est (updateAttitude t a g s)))
               (grot_filtered (est (updateAttitude t a g s))))
            (accelKp (gn s)) (compute_dT t (lastSysTime (est s))))
         (compute_dT t (lastSysTime (est s)))) /\
  exists rpy,
    published (updateAttitude t a g s) =
      AttitudeActualSet
        {| q1 := qx0 (q (est (updateAttitude t a g s)));
           q2 := qx1 (q (est (updateAttitude t a g s)));
           q3 := qx2 (q (est (updateAttitude t a g s)));
           q4 := qx3 (q (est (updateAttitude t a g s)));
           Roll := ix0 rpy; Pitch := ix1 rpy; Yaw := ix2 rpy |} :: published s.
Proof.
  unfold updateAttitude, fusion_error, corrected_rates.
  destruct (apply_accel_filter _ _ (filterParams_acc _)) as [af pa].
  destruct (apply_accel_filter _ _ (filterParams_grot _)) as [gf pg].
  destruct (F.ltb (norm3 af) (F.lit 1 1000)) eqn:Ea.
  - proj. intros Ha. rewrite Ea in Ha. discriminate.
  - destruct (accel_filter_enabled (gn s)) eqn:En.
    + destruct (F.ltb (norm3 gf) (F.lit 1 1000)) eqn:Eg.
      * proj. intros _ [Hg | Hg]; [discriminate | rewrite Eg in Hg; discriminate].
      * proj. intros _ _. split; [reflexivity |]. split; [reflexivity |].
        eexists. reflexivity.
    + destruct (F.ltb (F.of_Z 1) (F.lit 1 1000)) eqn:E1;
        [vm_compute in E1; discriminate |].
      proj. intros _ _. split; [reflexivity |]. split; [reflexivity |].
      eexists. reflexivity.
Qed.

(** What a cycle leaves that the guard aborts. *)
Lemma updateAttitude_aborted {pf : Platform} t a g s :
  F.ltb (norm3 (accels_filtered (est (updateAttitude t a g s)))) (F.lit 1 1000) = true \/
    (accel_filter_enabled (gn s) = true /\
     F.ltb (norm3 (grot_filtered (est (updateAttitude t a g s)))) (F.lit 1 1000) = true) ->
  q (est (updateAttitude t a g s)) = q (est s) /\
  gyro_correct_int (est (updateAttitude t a g s)) = gyro_correct_int (est s) /\
  published (updateAttitude t a g s) = published s.
Proof.
  intros H.
  destruct (updateAttitude_outcome t a g s) as [s' _ Hq Hg Hp | s' e0 e1 r Ha Hf _ _].
  - repeat split; assumption.
  - exfalso. destruct H as [C | [C1 C2]]; [congruence |].
    destruct Hf; congruence.
Qed.

(** C2 (as amended): [updateAttitude] leaves in [accels_filtered] and
    [grot_filtered] the filtered acceleration and the filtered predicted
    gravity of the cycle; when the magnitude of the filtered acceleration is
    below 1e-3, or when the filter is enabled and the magnitude of the
    filtered predicted gravity is below 1e-3, the cycle ends without a change
    of the quaternion or of the gyro bias integral, and without a
    publication.  With the filter disabled the magnitude of the predicted
    gravity is taken as 1 and is not tested. *)
Theorem fusion_abort_guard {pf : Platform} t a g s :
  let s' := updateAttitude t a g s in
  (accels_filtered (est s') =
     fst (apply_accel_filter (accel_filter_enabled (gn s))
            (Arr3 (Accels.x a) (Accels.y a) (Accels.z a)) (filterParams_acc (est s))) /\
   grot_filtered (est s') =
     fst (apply_accel_filter (accel_filter_enabled (gn s))
            (predicted_gravity (q (est s))) (filterParams_grot (est s)))) /\
  (F.ltb (norm3 (accels_filtered (est s'))) (F.lit 1 1000) = true \/
   (accel_filter_enabled (gn s) = true /\
    F.ltb (norm3 (grot_filtered (est s'))) (F.lit 1 1000) = true) ->
   q (est s') = q (est s) /\
   gyro_correct_int (est s') = gyro_correct_int (est s) /\
   published s' = published s).
Proof.
  intros s'. split; [apply updateAttitude_filtered |].
  intros H.
  pose proof (updateAttitude_outcome t a g s) as O. fold s' in O.
  destruct O as [s' _ Hq Hg Hp | s' e0 e1 r Ha Hf _ _].
  - auto.
  - destruct H as [H | [He H]].
    + congruence.
    + destruct Hf; congruence.
Qed.

Lemma fusion_abort_guard_witness :
  F.ltb (norm3 (grot_filtered
                  (est (@updateAttitude bench 8 accels_level gyros_still (zeroed_at 4)))))
        (F.lit 1 1000) = true /\
  q (est (@updateAttitude bench 8 accels_level gyros_still (zeroed_at 4)))
    = q (est (zeroed_at 4)) /\
  gyro_correct_int (est (@updateAttitude bench 8 accels_level gyros_still (zeroed_at 4)))
    = gyro_correct_int (est (zeroed_at 4)) /\
  published (@updateAttitude bench 8 accels_level gyros_still (zeroed_at 4))
    = published (zeroed_at 4).
Proof.
  assert (G : accel_filter_enabled (gn (zeroed_at 4)) = true /\
              F.ltb (norm3 (grot_filtered
                              (est (@updateAttitude bench 8 accels_level gyros_still
                                      (zeroed_at 4)))))
                    (F.lit 1 1000) = true)
    by (split; vm_compute; reflexivity).
  split; [exact (proj2 G) |].
  exact (proj2 (@fusion_abort_guard bench 8 accels_level gyros_still (zeroed_at 4))
               (or_intror G)).
Defined.

(** With the filter disabled (tick 2000 lies in the warm-up window) and the
    quaternion all-zero, the predicted gravity is the zero vector, of
    magnitude below 1e-3, and the cycle is not aborted: it changes the
    quaternion. *)
Lemma fusion_abort_guard_counterexample :
  accel_filter_enabled (gn (zeroed_at 2000)) = false /\
  F.ltb (norm3 (grot_filtered
                  (est (@updateAttitude bench 2004 accels_level gyros_still
                          (zeroed_at 2000)))))
        (F.lit 1 1000) = true /\
  q (est (zeroed_at 2000)) = zero4 /\
  q (est (@updateAttitude bench 2004 accels_level gyros_still (zeroed_at 2000)))
    = q_identity.
Proof. vm_compute. repeat split. Qed.

(** The same on a state the task reaches: after the run that leaves the
    quaternion all-zero, a turn of the loop in the warm-up window, where the
    filter is disabled, is not aborted although the predicted gravity is the
    zero vector, and brings the quaternion to the identity. *)
Example fusion_guard_reachable :
  exists s,
    overflow_run = Done s /\
    q (est s) = zero4 /\
    F.ltb (norm3 (grot_filtered
                    (est (@AttitudeTask_cycle bench (turn 2000 (Some at_rest)) s))))
          (F.lit 1 1000) = true /\
    q (est (@AttitudeTask_cycle bench (turn 2000 (Some at_rest)) s)) = q_identity.
Proof.
  destruct overflow_run as [s | f s] eqn:E; [| vm_compute in E; discriminate].
  exists s. split; [reflexivity |].
  vm_compute in E. injection E as <-.
  vm_compute. repeat split.
Qed.

(** ** The gyro bias integral *)

Lemma updateSensorsCC3D_timeout {pf : Platform} a g s :
  updateSensorsCC3D false false None a g s = (-1, s, a, g).
Proof. reflexivity. Qed.

(** C7: a call of [updateSensorsCC3D] that conditions a sample returns 0 and
    adds [- gz * yawBiasRate] to the yaw component of the gyro bias integral,
    [gz] being the conditioned yaw rate it publishes; this holds whatever the
    value of [bias_correct_gyro], which only decides whether the integral
    was added to the rate.  The call leaves the x and y components as they
    were.  [updateAttitude] leaves the yaw component as it was; a cycle that
    the magnitude guard aborts leaves x and y too, and a cycle that the
    guard lets through adds to x and to y the component of the normalised
    error, the cross product of the filtered acceleration and the filtered
    gravity over the product of their magnitudes, times [accelKi]. *)
Theorem yaw_drift_term_unconditional {pf : Platform} :
  (forall d a g s,
     let r := updateSensorsCC3D false false (Some d) a g s in
     let s' := snd (fst (fst r)) in
     let g' := snd r in
     fst (fst (fst r)) = 0 /\
     ix2 (gyro_correct_int (est s')) =
       (ix2 (gyro_correct_int (est s)) + (- Gyros.z g') * yawBiasRate (gn s))%flt /\
     ix0 (gyro_correct_int (est s')) = ix0 (gyro_correct_int (est s)) /\
     ix1 (gyro_correct_int (est s')) = ix1 (gyro_correct_int (est s)) /\
     (exists gz,
        Gyros.z g' = if bias_correct_gyro (brd s)
                     then (gz + ix2 (gyro_correct_int (est s)))%flt else gz) /\
     exists a', published s' = AccelsSet a' :: GyrosSet g' :: published s) /\
  (forall t a g s,
     let s' := updateAttitude t a g s in
     let enabled := accel_filter_enabled (gn s) in
     let af := accels_filtered (est s') in
     let gf := grot_filtered (est s') in
     ix2 (gyro_correct_int (est s')) = ix2 (gyro_correct_int (est s)) /\
     (F.ltb (norm3 af) (F.lit 1 1000) = true \/
      (enabled = true /\ F.ltb (norm3 gf) (F.lit 1 1000) = true) ->
      gyro_correct_int (est s') = gyro_correct_int (est s)) /\
     (F.ltb (norm3 af) (F.lit 1 1000) = false ->
      enabled = false \/ F.ltb (norm3 gf) (F.lit 1 1000) = false ->
      ix0 (gyro_correct_int (est s')) =
        (ix0 (gyro_correct_int (est s))
         + ix0 (fusion_error enabled af gf) * accelKi (gn s))%flt /\
      ix1 (gyro_correct_int (est s')) =
        (ix1 (gyro_correct_int (est s))
         + ix1 (fusion_error enabled af gf) * accelKi (gn s))%flt)).
Proof.
  split.
  - intros d a g s r s' g'. subst r s' g'.
    unfold updateSensorsCC3D. cbn [orb]. cbv zeta. proj.
    destruct (bias_correct_gyro (brd s)); proj; cbn [Gyros.z];
      (repeat split; [eexists; reflexivity | eexists; reflexivity]).
  - intros t a g s s' enabled af gf. subst s' enabled af gf.
    split; [| split].
    + destruct (updateAttitude_outcome t a g s) as [s' _ _ Hg _ | s' e0 e1 r _ _ _ Hg];
        rewrite Hg; reflexivity.
    + intros H. apply (updateAttitude_aborted t a g s H).
    + intros Ha Hf.
      destruct (updateAttitude_completed t a g s Ha Hf) as (Hg & _ & _).
      rewrite Hg. split; reflexivity.
Qed.

(** In the warm-up window, the board at rest and tilted: the cycle is let
    through and the y component of the integral moves by the error times
    [accelKi]. *)
Lemma yaw_drift_term_unconditional_witness :
  F.ltb (norm3 (accels_filtered
                  (est (@updateAttitude bench 2004 accels_tilted gyros_still (warm_at 2000)))))
        (F.lit 1 1000) = false /\
  ix1 (gyro_correct_int
         (est (@updateAttitude bench 2004 accels_tilted gyros_still (warm_at 2000)))) =
    (ix1 (gyro_correct_int (est (warm_at 2000)))
     + ix1 (fusion_error (accel_filter_enabled (gn (warm_at 2000)))
              (accels_filtered
                 (est (@updateAttitude bench 2004 accels_tilted gyros_still
                         (warm_at 2000))))
              (grot_filtered
                 (est (@updateAttitude bench 2004 accels_tilted gyros_still
                         (warm_at 2000)))))
       * accelKi (gn (warm_at 2000)))%flt /\
  ix1 (gyro_correct_int
         (est (@updateAttitude bench 2004 accels_tilted gyros_still (warm_at 2000))))
    <> ix1 (gyro_correct_int (est (warm_at 2000))).
Proof.
  assert (Ha : F.ltb (norm3 (accels_filtered
                               (est (@updateAttitude bench 2004 accels_tilted gyros_still
                                       (warm_at 2000)))))
                     (F.lit 1 1000) = false)
    by (vm_compute; reflexivity).
  assert (Hf : accel_filter_enabled (gn (warm_at 2000)) = false \/
               F.ltb (norm3 (grot_filtered
                               (est (@updateAttitude bench 2004 accels_tilted gyros_still
                                       (warm_at 2000)))))
                     (F.lit 1 1000) = false)
    by (left; reflexivity).
  split; [exact Ha |]. split.
  - exact (proj2 (proj2 (proj2 (proj2 (@yaw_drift_term_unconditional bench)
                                  2004 accels_tilted gyros_still (warm_at 2000)))
                    Ha Hf)).
  - vm_compute. discriminate.
Defined.

(** ** Frames of the task loop *)

Lemma AttitudeTask_gains_frame {pf : Platform} i s :
  est (AttitudeTask_gains i s) = est s /\
  brd (AttitudeTask_gains i s) = brd s /\
  trm (AttitudeTask_gains i s) = trm s /\
  mpu6050_data (AttitudeTask_gains i s) = mpu6050_data s /\
  AttitudeSettings (AttitudeTask_gains i s) = AttitudeSettings s /\
  alarm (AttitudeTask_gains i s) = alarm s /\
  published (AttitudeTask_gains i s) = published s.
Proof.
  unfold AttitudeTask_gains.
  destruct ((tick_lt i <? 7000) && (tick_gt i >? 1000)); [proj; repeat split |].
  destruct (zero_during_arming (brd s) && Armed_eqb (Armed i) ARMED_ARMING);
    [proj; repeat split |].
  destruct (init s =? 0); proj; repeat split.
Qed.

Lemma updateSensorsCC3D_frame {pf : Platform} ro1 ro2 qu a g s :
  let s' := snd (fst (fst (updateSensorsCC3D ro1 ro2 qu a g s))) in
  gn s' = gn s /\ brd s' = brd s /\ trm s' = trm s /\ init s' = init s /\
  AttitudeSettings s' = AttitudeSettings s /\ alarm s' = alarm s /\
  q (est s') = q (est s).
Proof.
  unfold updateSensorsCC3D.
  destruct (ro1 || ro2); [proj; repeat split |].
  destruct qu as [d |]; proj; repeat split.
Qed.

(** What a turn of the loop does not write: the board parameters, the trim
    variables and the AttitudeSettings object. *)
Lemma AttitudeTask_cycle_frame {pf : Platform} i s :
  brd (AttitudeTask_cycle i s) = brd s /\
  trm (AttitudeTask_cycle i s) = trm s /\
  AttitudeSettings (AttitudeTask_cycle i s) = AttitudeSettings s /\
  gn (AttitudeTask_cycle i s) = gn (AttitudeTask_gains i s) /\
  init (AttitudeTask_cycle i s) = init (AttitudeTask_gains i s).
Proof.
  unfold AttitudeTask_cycle.
  pose proof (AttitudeTask_gains_frame i s) as (_ & Gb & Gt & _ & Ga & _ & _).
  pose proof (updateSensorsCC3D_frame (GyrosReadOnly i) (AccelsReadOnly i) (queue i)
                (accels_local i) (gyros_local i) (AttitudeTask_gains i s)) as U.
  destruct (updateSensorsCC3D _ _ _ _ _ _) as [[[ret s1] a1] g1].
  cbn [fst snd] in U. destruct U as (Ug & Ub & Ut & Ui & Ua & _ & _).
  destruct (negb (ret =? 0)).
  - proj. repeat split; congruence.
  - destruct (negb (AttitudeActualReadOnly i)).
    + pose proof (updateAttitude_frame (tick_att i) a1 g1 s1)
        as (Vg & Vb & Vt & Vi & Va & _).
      proj. repeat split; congruence.
    + proj. repeat split; congruence.
Qed.

(** ** Sensor timeout *)

(** C5: when the queue delivers nothing within the wait, [updateSensorsCC3D]
    returns -1 with the state and the two structures as they were, so without
    a publication; the turn of the loop then leaves the estimator (the
    quaternion, the gyro bias integral, the filters) and the publications as
    they were and sets the alarm to Error; a later turn whose sensor update
    returns 0 clears the alarm. *)
Theorem sensor_timeout_skips_fusion {pf : Platform} i s :
  GyrosReadOnly i = false -> AccelsReadOnly i = false -> queue i = None ->
  (forall a g s0, updateSensorsCC3D false false None a g s0 = (-1, s0, a, g)) /\
  est (AttitudeTask_cycle i s) = est s /\
  published (AttitudeTask_cycle i s) = published s /\
  alarm (AttitudeTask_cycle i s) = ALARM_ERROR /\
  (forall i2,
     fst (fst (fst (updateSensorsCC3D (GyrosReadOnly i2) (AccelsReadOnly i2) (queue i2)
                      (accels_local i2) (gyros_local i2)
                      (AttitudeTask_gains i2 (AttitudeTask_cycle i s))))) = 0 ->
     alarm (AttitudeTask_cycle i2 (AttitudeTask_cycle i s)) = ALARM_OK).
Proof.
  intros Hg Ha Hq.
  split; [intros; apply updateSensorsCC3D_timeout |].
  pose proof (AttitudeTask_gains_frame i s) as (Ge & _ & _ & _ & _ & _ & Gp).
  repeat split.
  - unfold AttitudeTask_cycle. rewrite Hg, Ha, Hq, updateSensorsCC3D_timeout.
    cbn [Z.eqb negb]. proj. exact Ge.
  - unfold AttitudeTask_cycle. rewrite Hg, Ha, Hq, updateSensorsCC3D_timeout.
    cbn [Z.eqb negb]. proj. exact Gp.
  - unfold AttitudeTask_cycle. rewrite Hg, Ha, Hq, updateSensorsCC3D_timeout.
    reflexivity.
  - intros i2 H. generalize dependent (AttitudeTask_cycle i s). intros s1 H.
    unfold AttitudeTask_cycle.
    destruct (updateSensorsCC3D _ _ _ _ _ _) as [[[ret s2] a2] g2].
    cbn [fst] in H. subst ret. cbn [Z.eqb negb].
    destruct (negb (AttitudeActualReadOnly i2)); reflexivity.
Qed.

Lemma sensor_timeout_skips_fusion_witness :
  est (@AttitudeTask_cycle bench (turn 2004 None) (zeroed_at 2000))
    = est (zeroed_at 2000) /\
  published (@AttitudeTask_cycle bench (turn 2004 None) (zeroed_at 2000))
    = published (zeroed_at 2000) /\
  alarm (@AttitudeTask_cycle bench (turn 2004 None) (zeroed_at 2000)) = ALARM_ERROR /\
  alarm (@AttitudeTask_cycle bench (turn 2008 (Some at_rest))
           (@AttitudeTask_cycle bench (turn 2004 None) (zeroed_at 2000))) = ALARM_OK.
Proof.
  destruct (@sensor_timeout_skips_fusion bench (turn 2004 None) (zeroed_at 2000)
              eq_refl eq_refl eq_refl)
    as (_ & He & Hp & Ha & Hn).
  split; [exact He | split; [exact Hp | split; [exact Ha |]]].
  apply Hn. reflexivity.
Defined.

(** ** The settings callback *)

(** What the callback has assigned when it returns or reaches the
    undefined division of Load. *)
Lemma settingsUpdatedCb_reached {pf : Platform} s :
  gyro_correct_int (est (reached (settingsUpdatedCb s)))
    = configured_gyro_bias (AttitudeSettings s) /\
  q (est (reached (settingsUpdatedCb s))) = q (est s) /\
  init (reached (settingsUpdatedCb s)) = init s /\
  gains_of (AttitudeSettings s) (gn (reached (settingsUpdatedCb s))) /\
  gains_of (AttitudeSettings (reached (settingsUpdatedCb s)))
           (gn (reached (settingsUpdatedCb s))) /\
  accel_filter_enabled (gn (reached (settingsUpdatedCb s)))
    = accel_filter_enabled (gn s) /\
  zero_during_arming (brd (reached (settingsUpdatedCb s)))
    = ZeroDuringArming (AttitudeSettings s).
Proof.
  unfold settingsUpdatedCb, gains_of.
  destruct (TrimFlight (AttitudeSettings s)).
  - cbn [reached]. proj.
    destruct ((ix0 _ =? 0) && (ix1 _ =? 0) && (ix2 _ =? 0)); repeat split.
  - cbn [reached]. proj.
    destruct ((ix0 _ =? 0) && (ix1 _ =? 0) && (ix2 _ =? 0)); repeat split.
  - cbv zeta. cbn [trim_accels trim_samples].
    destruct (int32_div (ix0 _) _); cbn [lift bind reached];
      [| proj; destruct ((ix0 _ =? 0) && (ix1 _ =? 0) && (ix2 _ =? 0)); repeat split].
    destruct (int32_div (ix1 _) _); cbn [lift bind reached];
      [| proj; destruct ((ix0 _ =? 0) && (ix1 _ =? 0) && (ix2 _ =? 0)); repeat split].
    destruct (int32_div (ix2 _) _); cbn [lift bind reached];
      [| proj; destruct ((ix0 _ =? 0) && (ix1 _ =? 0) && (ix2 _ =? 0)); repeat split].
    destruct (F.to_int16 _); cbn [lift bind reached];
      proj; destruct ((ix0 _ =? 0) && (ix1 _ =? 0) && (ix2 _ =? 0)); repeat split.
Qed.

Lemma settingsUpdatedCb_done {pf : Platform} s s' :
  settingsUpdatedCb s = Done s' ->
  gyro_correct_int (est s') = configured_gyro_bias (AttitudeSettings s) /\
  q (est s') = q (est s) /\
  init s' = init s /\
  gains_of (AttitudeSettings s) (gn s') /\
  gains_of (AttitudeSettings s') (gn s') /\
  accel_filter_enabled (gn s') = accel_filter_enabled (gn s) /\
  zero_during_arming (brd s') = ZeroDuringArming (AttitudeSettings s).
Proof.
  intros H. pose proof (settingsUpdatedCb_reached s) as R.
  rewrite H in R. exact R.
Qed.

Lemma settingsUpdatedCb_total {pf : Platform} s :
  TrimFlight (AttitudeSettings s) <> TRIMFLIGHT_LOAD ->
  exists s', settingsUpdatedCb s = Done s'.
Proof.
  intros H. unfold settingsUpdatedCb.
  destruct (TrimFlight (AttitudeSettings s)); [eexists; reflexivity .. | congruence].
Qed.

(** C10: every call of the callback, up to its return or up to the
    undefined division of a Load command, leaves in the three components of
    the gyro bias integral the [GyroBias] of the settings object divided by
    100, whatever the integral held before and whichever field of the
    settings changed: two states that differ in the learned integral get
    the same integral.  The callback returns for every settings object whose
    [TrimFlight] is not Load. *)
Theorem settings_overwrite_gyro_bias {pf : Platform} a s :
  gyro_correct_int (est (reached (handle (SettingsUpdated a) s)))
    = configured_gyro_bias a /\
  (forall v,
     gyro_correct_int (est (reached (handle (SettingsUpdated a) (set_bias v s))))
     = gyro_correct_int (est (reached (handle (SettingsUpdated a) s)))) /\
  (TrimFlight a <> TRIMFLIGHT_LOAD ->
   exists s', handle (SettingsUpdated a) s = Done s').
Proof.
  cbn [handle]. split; [| split].
  - apply settingsUpdatedCb_reached.
  - intros v.
    destruct (settingsUpdatedCb_reached (set_AttitudeSettings a (set_bias v s))) as [-> _].
    destruct (settingsUpdatedCb_reached (set_AttitudeSettings a s)) as [-> _].
    reflexivity.
  - intros H. apply settingsUpdatedCb_total. exact H.
Qed.

(** A change of [AccelKp] alone, after a turn of the loop has moved the yaw
    component of the integral: the integral is back at the configured
    0.12, 0.34 and -0.56 deg/s. *)
Lemma settings_overwrite_gyro_bias_witness :
  exists s0 s',
    @AttitudeTask_start bench (biased (F.lit 5 100)) = Done s0 /\
    gyro_correct_int (est (@AttitudeTask_cycle bench (turn 2000 (Some at_rest)) s0))
      <> configured_gyro_bias (biased (F.lit 5 100)) /\
    @handle bench (SettingsUpdated (biased (F.lit 6 100)))
       (@AttitudeTask_cycle bench (turn 2000 (Some at_rest)) s0) = Done s' /\
    gyro_correct_int (est s') = configured_gyro_bias (biased (F.lit 6 100)).
Proof.
  destruct (@AttitudeTask_start bench (biased (F.lit 5 100))) as [s0 | f s0] eqn:E0;
    [| vm_compute in E0; discriminate].
  destruct (@settings_overwrite_gyro_bias bench (biased (F.lit 6 100))
              (@AttitudeTask_cycle bench (turn 2000 (Some at_rest)) s0))
    as (G & _ & T).
  destruct T as [s' E]; [discriminate |].
  exists s0, s'. split; [reflexivity |]. split.
  - vm_compute in E0. injection E0 as <-. vm_compute. discriminate.
  - split; [exact E |]. rewrite E in G. exact G.
Defined.

(** ** Trim *)

Lemma run_cycles_trim {pf : Platform} (turns : list cycle_input) s :
  exists s', run (map Cycle turns) s = Done s' /\ trm s' = trm s.
Proof.
  revert s. induction turns as [| i turns IH]; intros s.
  - exists s. split; reflexivity.
  - cbn [map run handle].
    destruct (IH (AttitudeTask_cycle i s)) as (s' & Hr & Ht).
    exists s'. split; [exact Hr |].
    rewrite Ht. apply AttitudeTask_cycle_frame.
Qed.

Lemma settingsUpdatedCb_start {pf : Platform} s :
  TrimFlight (AttitudeSettings s) = TRIMFLIGHT_START ->
  exists s', settingsUpdatedCb s = Done s' /\
             trm s' = {| trim_requested := true; trim_accels := Arr3 0 0 0;
                         trim_samples := 0 |}.
Proof.
  intros H. unfold settingsUpdatedCb. rewrite H.
  eexists. split; reflexivity.
Qed.

Lemma settingsUpdatedCb_load_empty {pf : Platform} s :
  TrimFlight (AttitudeSettings s) = TRIMFLIGHT_LOAD ->
  trim_samples (trm s) = 0 ->
  exists s', settingsUpdatedCb s = Fault DivisionFault s' /\
             AttitudeSettings s' = AttitudeSettings s /\
             published s' = published s.
Proof.
  intros H H0. unfold settingsUpdatedCb. rewrite H.
  cbv zeta. cbn [trim_accels trim_samples]. rewrite H0.
  eexists. split; [reflexivity |]. split; reflexivity.
Qed.

(** C1 (the code at the failing input): a Start command clears the trim
    variables and sets [trim_requested]; whatever turns of the task loop
    follow, with whatever samples, the sums and the sample count stay zero;
    the Load command then divides the zero sum by the zero count, which is
    undefined, before it has written a bias to the settings object. *)
Theorem trim_load_divides_by_zero {pf : Platform}
    (a : AttitudeSettingsData) (turns : list cycle_input) (s : state) :
  exists s1 s2 s3,
    handle (SettingsUpdated (with_trim TRIMFLIGHT_START a)) s = Done s1 /\
    trim_requested (trm s1) = true /\
    run (map Cycle turns) s1 = Done s2 /\
    trim_samples (trm s2) = 0 /\
    trim_accels (trm s2) = Arr3 0 0 0 /\
    handle (SettingsUpdated (with_trim TRIMFLIGHT_LOAD a)) s2
      = Fault DivisionFault s3 /\
    published s3 = published s2.
Proof.
  cbn [handle].
  destruct (settingsUpdatedCb_start
              (set_AttitudeSettings (with_trim TRIMFLIGHT_START a) s) eq_refl)
    as (s1 & H1 & T1).
  destruct (run_cycles_trim turns s1) as (s2 & H2 & T2).
  rewrite T1 in T2.
  destruct (settingsUpdatedCb_load_empty
              (set_AttitudeSettings (with_trim TRIMFLIGHT_LOAD a) s2) eq_refl)
    as (s3 & H3 & _ & P3); [proj; rewrite T2; reflexivity |].
  exists s1, s2, s3.
  split; [exact H1 |]. split; [rewrite T1; reflexivity |].
  split; [exact H2 |]. split; [rewrite T2; reflexivity |].
  split; [rewrite T2; reflexivity |].
  split; [exact H3 | exact P3].
Qed.

(** ** The choice of the gains *)










(** ** The quaternion *)

(** C4 (as amended): the renormalisation is the one of the specification:
    it resets the quaternion to the identity when the norm is below 1e-3,
    compared with the rational 1/1000 and a zero included, or
    not-a-number, and divides each component by the norm otherwise.  A
    cycle that the magnitude guard does not abort leaves the renormalised
    time step of the quaternion under the corrected rates, and from the
    all-zero quaternion that is the identity, whatever the samples, the
    gains and the time step.  A cycle that the guard aborts leaves the
    quaternion as it was, all-zero included. *)
Theorem degenerate_quaternion_reset {pf : Platform} :
  (forall qn, renormalize qn = spec_renormalize qn) /\
  (forall t a g s,
     let s' := updateAttitude t a g s in
     let enabled := accel_filter_enabled (gn s) in
     let dT := compute_dT t (lastSysTime (est s)) in
     F.ltb (norm3 (accels_filtered (est s'))) (F.lit 1 1000) = false ->
     enabled = false \/
       F.ltb (norm3 (grot_filtered (est s'))) (F.lit 1 1000) = false ->
     q (est s') =
       renormalize
         (integrate_rates (q (est s))
            (corrected_rates g
               (fusion_error enabled (accels_filtered (est s')) (grot_filtered (est s')))
               (accelKp (gn s)) dT)
            dT) /\
     (q (est s) = zero4 -> q (est s') = q_identity)) /\
  (forall t a g s,
     let s' := updateAttitude t a g s in
     F.ltb (norm3 (accels_filtered (est s'))) (F.lit 1 1000) = true \/
       (accel_filter_enabled (gn s) = true /\
        F.ltb (norm3 (grot_filtered (est s'))) (F.lit 1 1000) = true) ->
     q (est s') = q (est s)).
Proof.
  split; [| split].
  - apply renormalize_spec.
  - intros t a g s s' enabled dT Ha Hg. subst s' enabled dT.
    destruct (updateAttitude_completed t a g s Ha Hg) as (_ & Hq & _).
    split; [exact Hq |].
    intros Hz. rewrite Hq, Hz. apply renormalize_zero.
  - intros t a g s s' H. subst s'.
    apply (updateAttitude_aborted t a g s H).
Qed.

(** In the warm-up window (filter disabled), board at rest and level: the
    all-zero quaternion becomes the identity. *)
Lemma degenerate_quaternion_reset_witness :
  q (est (zeroed_at 2000)) = zero4 /\
  q (est (@updateAttitude bench 2004 accels_level gyros_still (zeroed_at 2000)))
    = q_identity.
Proof.
  assert (Ha : F.ltb (norm3 (accels_filtered
                               (est (@updateAttitude bench 2004 accels_level gyros_still
                                       (zeroed_at 2000)))))
                     (F.lit 1 1000) = false)
    by (vm_compute; reflexivity).
  assert (Hg : accel_filter_enabled (gn (zeroed_at 2000)) = false \/
               F.ltb (norm3 (grot_filtered
                               (est (@updateAttitude bench 2004 accels_level gyros_still
                                       (zeroed_at 2000)))))
                     (F.lit 1 1000) = false)
    by (left; reflexivity).
  split; [reflexivity |].
  exact (proj2 (proj1 (proj2 (@degenerate_quaternion_reset bench))
                  2004 accels_level gyros_still (zeroed_at 2000) Ha Hg) eq_refl).
Defined.

(** A quaternion of norm 0.0005 is reset, one of norm 0.002 is divided by
    its norm. *)
Example short_quaternion_reset :
  renormalize (Arr4 f0 (F.lit 5 10000) f0 f0) = q_identity /\
  renormalize (Arr4 f0 (F.lit 2 1000) f0 f0) = Arr4 f0 f1 f0 f0.
Proof.
  split; vm_compute; reflexivity.
Qed.

(** Outside the warm-up window (filter enabled, its history still zero),
    board at rest and level: the filtered predicted gravity is the zero
    vector, the cycle is aborted and the all-zero quaternion stays. *)
Lemma degenerate_quaternion_reset_counterexample :
  q (est (zeroed_at 4)) = zero4 /\
  accel_filter_enabled (gn (zeroed_at 4)) = true /\
  q (est (@updateAttitude bench 8 accels_level gyros_still (zeroed_at 4))) = zero4 /\
  q (est (@updateAttitude bench 8 accels_level gyros_still (zeroed_at 4))) <> q_identity.
Proof.
  vm_compute. repeat split. discriminate.
Qed.

(** An ordinary run keeps the quaternion of unit norm, to 1e-4, with a
    non-negative scalar part: 50 turns in the warm-up window, [AccelKp]
    forced to 1. *)
Example ordinary_run_unit :
  exists s, ordinary_run 2000 50 = Done s /\
            unit_within_1e4 (q (est s)) /\ nonneg (qx0 (q (est s))) /\
            q (est s) <> q_identity.
Proof.
  destruct (ordinary_run 2000 50) as [s | f s] eqn:E; [| vm_compute in E; discriminate].
  exists s. split; [reflexivity |].
  vm_compute in E. injection E as <-.
  split; [| split].
  - vm_compute. split; discriminate.
  - reflexivity.
  - discriminate.
Qed.

(** The canonical sign through the task: a cycle leaves the quaternion as it
    was, or leaves the renormalised time step, whose scalar part is not
    negative; the callback does not write the quaternion. *)
Lemma updateAttitude_not_negative {pf : Platform} t a g s :
  not_negative (qx0 (q (est s))) ->
  not_negative (qx0 (q (est (updateAttitude t a g s)))).
Proof.
  intros H.
  pose proof (updateAttitude_outcome t a g s) as O.
  destruct O as [s' _ Hq _ _ | s' e0 e1 r _ _ Hq _]; rewrite Hq.
  - exact H.
  - apply renormalize_not_negative, integrate_rates_not_negative.
Qed.

Lemma AttitudeTask_cycle_not_negative {pf : Platform} i s :
  not_negative (qx0 (q (est s))) ->
  not_negative (qx0 (q (est (AttitudeTask_cycle i s)))).
Proof.
  intros H. unfold AttitudeTask_cycle.
  pose proof (AttitudeTask_gains_frame i s) as (Ge & _).
  pose proof (updateSensorsCC3D_frame (GyrosReadOnly i) (AccelsReadOnly i) (queue i)
                (accels_local i) (gyros_local i) (AttitudeTask_gains i s)) as U.
  destruct (updateSensorsCC3D _ _ _ _ _ _) as [[[ret s1] a1] g1].
  cbn [fst snd] in U. destruct U as (_ & _ & _ & _ & _ & _ & Uq).
  rewrite Ge in Uq.
  destruct (negb (ret =? 0)).
  - proj. rewrite Uq. exact H.
  - destruct (negb (AttitudeActualReadOnly i)); proj.
    + apply updateAttitude_not_negative. rewrite Uq. exact H.
    + rewrite Uq. exact H.
Qed.

Lemma run_not_negative {pf : Platform} evs s s' :
  not_negative (qx0 (q (est s))) -> run evs s = Done s' ->
  not_negative (qx0 (q (est s'))).
Proof.
  revert s. induction evs as [| ev evs IH]; intros s H R; cbn [run] in R.
  - injection R as <-. exact H.
  - destruct (handle ev s) as [s1 | f s1] eqn:E; [| discriminate].
    apply (IH s1); [| exact R].
    destruct ev as [i | a]; cbn [handle] in E.
    + injection E as <-. apply AttitudeTask_cycle_not_negative. exact H.
    + apply settingsUpdatedCb_done in E. destruct E as (_ & -> & _). exact H.
Qed.

(** C3 (the code at the failing input): the scalar part of the quaternion
    is not negative in any state the task reaches from its start.  The norm
    is not kept: with [AccelKp = 1e30] in the settings, the second turn of
    the loop integrates a quaternion whose squared norm overflows; the norm
    is infinite, neither below 1e-3 nor not-a-number, so the quaternion is
    not reinitialised, and the division by the infinite norm leaves the
    all-zero quaternion, which is published. *)
Theorem quaternion_overflow :
  (forall (pf : Platform) a evs s0 s,
     AttitudeTask_start a = Done s0 -> run evs s0 = Done s ->
     not_negative (qx0 (q (est s)))) /\
  (exists s,
     overflow_run = Done s /\
     q (est s) = zero4 /\
     ~ unit_within_1e4 (q (est s)) /\
     exists rpy, hd_error (published s)
       = Some (AttitudeActualSet {| q1 := f0; q2 := f0; q3 := f0; q4 := f0;
                                    Roll := ix0 rpy; Pitch := ix1 rpy;
                                    Yaw := ix2 rpy |})).
Proof.
  split.
  - intros pf a evs s0 s Hs Hr.
    apply (run_not_negative evs s0); [| exact Hr].
    unfold AttitudeTask_start in Hs. apply settingsUpdatedCb_done in Hs.
    destruct Hs as (_ & -> & _). reflexivity.
  - destruct overflow_run as [s | f s] eqn:E; [| vm_compute in E; discriminate].
    exists s. split; [reflexivity |].
    vm_compute in E. injection E as <-.
    split; [reflexivity |]. split.
    + vm_compute. intros [H _]. apply H. reflexivity.
    + exists zero3. reflexivity.
Qed.

Lemma quaternion_overflow_witness :
  exists s0 s,
    @AttitudeTask_start bench (tuned (F.lit 5 100)) = Done s0 /\
    @run bench [Cycle (turn 2000 (Some at_rest)); Cycle (turn 2004 (Some at_rest))] s0
      = Done s /\
    not_negative (qx0 (q (est s))).
Proof.
  destruct (@AttitudeTask_start bench (tuned (F.lit 5 100))) as [s0 | f s0] eqn:E0;
    [| vm_compute in E0; discriminate].
  exists s0, (@AttitudeTask_cycle bench (turn 2004 (Some at_rest))
                (@AttitudeTask_cycle bench (turn 2000 (Some at_rest)) s0)).
  split; [reflexivity |]. split; [reflexivity |].
  exact (proj1 quaternion_overflow bench (tuned (F.lit 5 100))
           [Cycle (turn 2000 (Some at_rest)); Cycle (turn 2004 (Some at_rest))]
           s0 _ E0 eq_refl).
Defined.


(** ** Not-a-number through the estimator *)

(** The magnitude of a vector with a not-a-number in it. *)
Lemma norm3_nan (v : arr3 float) :
  ix0 v = S754_nan \/ ix1 v = S754_nan \/ ix2 v = S754_nan -> norm3 v = S754_nan.
Proof.
  unfold norm3. intros [E | [E | E]]; rewrite E; repeat nan; reflexivity.
Qed.

Lemma norm4_nan (v : arr4 float) : qx0 v = S754_nan -> norm4 v = S754_nan.
Proof.
  unfold norm4. intros E; rewrite E; repeat nan; reflexivity.
Qed.

Lemma renormalize_nan (v : arr4 float) : qx0 v = S754_nan -> renormalize v = q_identity.
Proof.
  intros E. unfold renormalize. cbv zeta. rewrite (norm4_nan v E), degenerate_nan.
  reflexivity.
Qed.

(** A rate that is not a number leaves no number in the integrated
    quaternion. *)
Lemma integrate_rates_nan (qq : arr4 float) (rates : arr3 float) (dT : float) :
  ix0 rates = S754_nan \/ ix1 rates = S754_nan \/ ix2 rates = S754_nan ->
  qx0 (integrate_rates qq rates dT) = S754_nan.
Proof.
  unfold integrate_rates. cbv zeta. cbn [qx0 qx1 qx2 qx3].
  intros [E | [E | E]]; rewrite E; repeat nan; reflexivity.
Qed.

Lemma computeFourthOrder_last (x : float) (fp : fourthOrderData) :
  outputTm1 (snd (computeFourthOrder x fp)) = fst (computeFourthOrder x fp).
Proof. reflexivity. Qed.

(** The filter on an input, or on a last output, that is not a number. *)
Lemma computeFourthOrder_nan_input (fp : fourthOrderData) :
  fst (computeFourthOrder S754_nan fp) = S754_nan.
Proof.
  unfold computeFourthOrder. cbn [fst]. repeat nan. reflexivity.
Qed.

Lemma computeFourthOrder_nan_output (x : float) (fp : fourthOrderData) :
  outputTm1 fp = S754_nan -> fst (computeFourthOrder x fp) = S754_nan.
Proof.
  intros E. unfold computeFourthOrder. cbn [fst]. rewrite E.
  repeat nan. reflexivity.
Qed.


(** ** The filter on zeros and on a not-a-number *)

(** X1: a filter whose four held inputs and four held outputs are zeros, of
    either sign, answers zeros to zeros and stays at rest: a filter at rest
    has no output of its own. *)
Theorem filter_rest_stays_at_rest (xs : list float) (fp : fourthOrderData) :
  Forall is_zero xs -> filter_at_rest fp ->
  Forall is_zero (fst (filter_run xs fp)) /\ filter_at_rest (snd (filter_run xs fp)).
Proof.
  revert fp. induction xs as [| x rest IH]; intros fp Hxs Hfp.
  - split; [constructor | exact Hfp].
  - apply Forall_cons_iff in Hxs as [Hx Hrest]. cbn [filter_run].
    destruct (computeFourthOrder_at_rest x fp Hx Hfp) as [Hy Hfp1].
    destruct (computeFourthOrder x fp) as [y fp1]. cbn [fst snd] in Hy, Hfp1.
    destruct (IH fp1 Hrest Hfp1) as [Hys Hfp2].
    destruct (filter_run rest fp1) as [ys fp2]. cbn [fst snd] in *.
    split; [apply Forall_cons; assumption | exact Hfp2].
Qed.

Lemma filter_rest_stays_at_rest_witness :
  Forall is_zero [f0; S754_zero true; f0] /\ filter_at_rest filter_zero /\
  Forall is_zero (fst (filter_run [f0; S754_zero true; f0] filter_zero)) /\
  filter_at_rest (snd (filter_run [f0; S754_zero true; f0] filter_zero)).
Proof.
  assert (Hxs : Forall is_zero [f0; S754_zero true; f0])
    by (repeat (apply Forall_cons; [exact I |]); apply Forall_nil).
  assert (Hfp : filter_at_rest filter_zero)
    by (split; repeat (apply Forall_cons; [exact I |]); apply Forall_nil).
  split; [exact Hxs |]. split; [exact Hfp |].
  exact (filter_rest_stays_at_rest [f0; S754_zero true; f0] filter_zero Hxs Hfp).
Defined.

Lemma filter_run_after_nan (ys : list float) (fp : fourthOrderData) :
  outputTm1 fp = S754_nan ->
  fst (filter_run ys fp) = repeat S754_nan (length ys).
Proof.
  revert fp. induction ys as [| y rest IH]; intros fp E.
  - reflexivity.
  - cbn [filter_run length repeat].
    pose proof (computeFourthOrder_nan_output y fp E) as Hy.
    pose proof (computeFourthOrder_last y fp) as Hl.
    destruct (computeFourthOrder y fp) as [z fp1]. cbn [fst snd] in Hy, Hl.
    specialize (IH fp1 (eq_trans Hl Hy)).
    destruct (filter_run rest fp1) as [zs fp2]. cbn [fst] in *.
    rewrite Hy, IH. reflexivity.
Qed.

(** X2: a not-a-number never leaves the filter: whatever run of inputs came
    before it and whatever the filter held, the output for an input that is
    not a number and every output after it are not a number. *)
Theorem filter_nan_absorbing (xs ys : list float) (fp : fourthOrderData) :
  skipn (length xs) (fst (filter_run (xs ++ S754_nan :: ys) fp)) =
    repeat S754_nan (S (length ys)).
Proof.
  revert fp. induction xs as [| x rest IH]; intros fp.
  - cbn [app length skipn filter_run repeat].
    pose proof (computeFourthOrder_nan_input fp) as Hy.
    pose proof (computeFourthOrder_last S754_nan fp) as Hl.
    destruct (computeFourthOrder S754_nan fp) as [z fp1]. cbn [fst snd] in Hy, Hl.
    pose proof (filter_run_after_nan ys fp1 (eq_trans Hl Hy)) as Hr.
    destruct (filter_run ys fp1) as [zs fp2]. cbn [fst] in *.
    rewrite Hy, Hr. reflexivity.
  - cbn [app length filter_run].
    destruct (computeFourthOrder x fp) as [z fp1].
    specialize (IH fp1).
    destruct (filter_run (rest ++ S754_nan :: ys) fp1) as [zs fp2].
    cbn [fst skipn] in *. exact IH.
Qed.

(** ** What an aborted fusion still does *)

(** X3: every call of [updateAttitude], aborted by the magnitude guard or
    not, stamps [lastSysTime] with the tick it read.  With the filter
    enabled it also leaves both filter banks advanced, axis by axis, by the
    acceleration and by the predicted gravity of the call; with the filter
    disabled, as in warm-up and while arming, both banks stay as they
    were.  An aborted cycle is therefore not a skipped one: the next time
    step is measured from it and an enabled filter has seen its input. *)
Theorem updateAttitude_always_advances {pf : Platform} t a g s :
  lastSysTime (est (updateAttitude t a g s)) = t /\
  (accel_filter_enabled (gn s) = true ->
   filterParams_acc (est (updateAttitude t a g s)) =
     Arr3 (snd (computeFourthOrder (Accels.x a) (ix0 (filterParams_acc (est s)))))
          (snd (computeFourthOrder (Accels.y a) (ix1 (filterParams_acc (est s)))))
          (snd (computeFourthOrder (Accels.z a) (ix2 (filterParams_acc (est s))))) /\
   filterParams_grot (est (updateAttitude t a g s)) =
     Arr3 (snd (computeFourthOrder (ix0 (predicted_gravity (q (est s))))
                  (ix0 (filterParams_grot (est s)))))
          (snd (computeFourthOrder (ix1 (predicted_gravity (q (est s))))
                  (ix1 (filterParams_grot (est s)))))
          (snd (computeFourthOrder (ix2 (predicted_gravity (q (est s))))
                  (ix2 (filterParams_grot (est s)))))) /\
  (accel_filter_enabled (gn s) = false ->
   filterParams_acc (est (updateAttitude t a g s)) = filterParams_acc (est s) /\
   filterParams_grot (est (updateAttitude t a g s)) = filterParams_grot (est s)).
Proof.
  assert (A : lastSysTime (est (updateAttitude t a g s)) = t /\
              filterParams_acc (est (updateAttitude t a g s)) =
                snd (apply_accel_filter (accel_filter_enabled (gn s))
                       (Arr3 (Accels.x a) (Accels.y a) (Accels.z a))
                       (filterParams_acc (est s))) /\
              filterParams_grot (est (updateAttitude t a g s)) =
                snd (apply_accel_filter (accel_filter_enabled (gn s))
                       (predicted_gravity (q (est s))) (filterParams_grot (est s)))).
  { unfold updateAttitude.
    destruct (apply_accel_filter _ _ (filterParams_acc _)) as [af pa].
    destruct (apply_accel_filter _ _ (filterParams_grot _)) as [gf pg].
    destruct (F.ltb (norm3 af) (F.lit 1 1000)).
    - proj. split; [| split]; reflexivity.
    - destruct (F.ltb _ (F.lit 1 1000)); proj; (split; [| split]); reflexivity. }
  destruct A as (At & Aa & Ag). split; [exact At |].
  rewrite Aa, Ag. unfold apply_accel_filter. cbn [ix0 ix1 ix2].
  split; intros En; rewrite En.
  - destruct (computeFourthOrder (Accels.x a) _), (computeFourthOrder (Accels.y a) _),
      (computeFourthOrder (Accels.z a) _).
    destruct (computeFourthOrder (ix0 (predicted_gravity _)) _),
      (computeFourthOrder (ix1 (predicted_gravity _)) _),
      (computeFourthOrder (ix2 (predicted_gravity _)) _).
    split; reflexivity.
  - split; reflexivity.
Qed.

(** ** The published attitude and the stored quaternion *)

Lemma updateAttitude_in_step {pf : Platform} t a g s :
  attitude_in_step s -> attitude_in_step (updateAttitude t a g s).
Proof.
  unfold attitude_in_step, updateAttitude. intros H.
  destruct (apply_accel_filter _ _ (filterParams_acc _)) as [af pa].
  destruct (apply_accel_filter _ _ (filterParams_grot _)) as [gf pg].
  destruct (F.ltb (norm3 af) (F.lit 1 1000)); [proj; exact H |].
  destruct (F.ltb _ (F.lit 1 1000)); [proj; exact H |].
  proj. cbn [latest_attitude published_q q1 q2 q3 q4]. apply arr4_eta.
Qed.

Lemma updateSensorsCC3D_in_step {pf : Platform} ro1 ro2 qu a g s :
  attitude_in_step s ->
  attitude_in_step (snd (fst (fst (updateSensorsCC3D ro1 ro2 qu a g s)))).
Proof.
  unfold attitude_in_step, updateSensorsCC3D. intros H.
  destruct (ro1 || ro2); [proj; exact H |].
  destruct qu as [d |]; proj; [| exact H].
  cbn [latest_attitude]. exact H.
Qed.

Lemma AttitudeTask_cycle_in_step {pf : Platform} i s :
  attitude_in_step s -> attitude_in_step (AttitudeTask_cycle i s).
Proof.
  intros H. unfold AttitudeTask_cycle.
  assert (H0 : attitude_in_step (AttitudeTask_gains i s)).
  { pose proof (AttitudeTask_gains_frame i s) as (Ge & _ & _ & _ & _ & _ & Gp).
    unfold attitude_in_step in *. rewrite Ge, Gp. exact H. }
  pose proof (updateSensorsCC3D_in_step (GyrosReadOnly i) (AccelsReadOnly i) (queue i)
                (accels_local i) (gyros_local i) (AttitudeTask_gains i s) H0) as H1.
  destruct (updateSensorsCC3D _ _ _ _ _ _) as [[[ret s1] a1] g1].
  cbn [fst snd] in H1.
  destruct (negb (ret =? 0)); [exact H1 |].
  destruct (negb (AttitudeActualReadOnly i)); [| exact H1].
  exact (updateAttitude_in_step (tick_att i) a1 g1 s1 H1).
Qed.

Lemma settingsUpdatedCb_in_step {pf : Platform} s :
  attitude_in_step s -> attitude_in_step (reached (settingsUpdatedCb s)).
Proof.
  unfold attitude_in_step, settingsUpdatedCb. intros H.
  destruct (TrimFlight (AttitudeSettings s)).
  - cbn [reached]. proj. exact H.
  - cbn [reached]. proj. exact H.
  - cbv zeta. cbn [trim_accels trim_samples].
    destruct (int32_div (ix0 _) _); cbn [lift bind reached]; [| proj; exact H].
    destruct (int32_div (ix1 _) _); cbn [lift bind reached]; [| proj; exact H].
    destruct (int32_div (ix2 _) _); cbn [lift bind reached]; [| proj; exact H].
    destruct (F.to_int16 _); cbn [lift bind reached]; proj; exact H.
Qed.

Lemma handle_in_step {pf : Platform} ev s :
  attitude_in_step s -> attitude_in_step (reached (handle ev s)).
Proof.
  intros H. destruct ev as [i | a]; cbn [handle reached].
  - apply AttitudeTask_cycle_in_step. exact H.
  - apply settingsUpdatedCb_in_step. exact H.
Qed.

Lemma run_in_step {pf : Platform} evs s :
  attitude_in_step s -> attitude_in_step (reached (run evs s)).
Proof.
  revert s. induction evs as [| ev rest IH]; intros s H; cbn [run].
  - exact H.
  - pose proof (handle_in_step ev s H) as H1.
    destruct (handle ev s) as [s1 | f s1]; cbn [reached] in H1.
    + apply IH. exact H1.
    + exact H1.
Qed.

(** X4: over every run of the task, loop turns and settings updates in any
    order, the attitude object and the quaternion of the estimator stay in
    step: the attitude published last carries the quaternion the estimator
    holds, and as long as none was published the estimator holds the
    identity.  No settings update, sensor update or aborted fusion moves the
    one without the other. *)
Theorem published_attitude_in_step {pf : Platform}
    (a : AttitudeSettingsData) (evs : list event) (s0 s : state) :
  AttitudeTask_start a = Done s0 -> run evs s0 = Done s -> attitude_in_step s.
Proof.
  intros H0 H1.
  assert (B : attitude_in_step (boot a)) by reflexivity.
  pose proof (settingsUpdatedCb_in_step (boot a) B) as B0.
  unfold AttitudeTask_start in H0. rewrite H0 in B0. cbn [reached] in B0.
  pose proof (run_in_step evs s0 B0) as B1. rewrite H1 in B1. exact B1.
Qed.

Lemma published_attitude_in_step_witness :
  attitude_in_step
    (reached (@run bench [Cycle (turn 8 (Some at_rest)); SettingsUpdated (biased f1);
                          Cycle (turn 12 (Some at_rest))]
                (reached (@AttitudeTask_start bench (tuned (F.lit 5 100)))))).
Proof.
  assert (H0 : @AttitudeTask_start bench (tuned (F.lit 5 100)) =
               Done (reached (@AttitudeTask_start bench (tuned (F.lit 5 100)))))
    by (vm_compute; reflexivity).
  assert (H1 : @run bench [Cycle (turn 8 (Some at_rest)); SettingsUpdated (biased f1);
                           Cycle (turn 12 (Some at_rest))]
                 (reached (@AttitudeTask_start bench (tuned (F.lit 5 100)))) =
               Done (reached (@run bench [Cycle (turn 8 (Some at_rest));
                                          SettingsUpdated (biased f1);
                                          Cycle (turn 12 (Some at_rest))]
                                (reached (@AttitudeTask_start bench (tuned (F.lit 5 100)))))))
    by (vm_compute; reflexivity).
  exact (@published_attitude_in_step bench _ _ _ _ H0 H1).
Defined.

(** ** Read-only sensor objects *)

(** X5: when the Gyros or the Accels object is read-only, a turn of the loop
    does not read the sensor queue: the last raw sample is kept, the alarm
    is cleared whatever the queue holds, so a silent sensor is never
    reported, and neither Gyros nor Accels is published.  If the attitude
    object is read-only too the estimator and the publications stay as they
    were; if not, the fusion runs on the two local structures of the task,
    which nothing has written. *)
Theorem read_only_sensors_turn {pf : Platform} i s :
  GyrosReadOnly i = true \/ AccelsReadOnly i = true ->
  mpu6050_data (AttitudeTask_cycle i s) = mpu6050_data s /\
  alarm (AttitudeTask_cycle i s) = ALARM_OK /\
  (if AttitudeActualReadOnly i
   then est (AttitudeTask_cycle i s) = est s /\
        published (AttitudeTask_cycle i s) = published s
   else AttitudeTask_cycle i s =
          AlarmsClear (updateAttitude (tick_att i) (accels_local i) (gyros_local i)
                         (AttitudeTask_gains i s))).
Proof.
  intros H.
  assert (E : GyrosReadOnly i || AccelsReadOnly i = true)
    by (destruct H as [-> | ->]; [reflexivity | apply orb_true_r]).
  pose proof (AttitudeTask_gains_frame i s) as (Ge & _ & _ & Gm & _ & _ & Gp).
  unfold AttitudeTask_cycle, updateSensorsCC3D. rewrite E.
  change (negb (0 =? 0)) with false. cbv iota.
  destruct (AttitudeActualReadOnly i); cbn [negb].
  - proj. repeat split; assumption.
  - split; [| split; reflexivity].
    assert (M : mpu6050_data (updateAttitude (tick_att i) (accels_local i) (gyros_local i)
                                (AttitudeTask_gains i s))
                = mpu6050_data (AttitudeTask_gains i s)).
    { unfold updateAttitude.
      destruct (apply_accel_filter _ _ (filterParams_acc _)) as [af pa].
      destruct (apply_accel_filter _ _ (filterParams_grot _)) as [gf pg].
      destruct (F.ltb (norm3 af) (F.lit 1 1000)); [reflexivity |].
      destruct (F.ltb _ (F.lit 1 1000)); reflexivity. }
    proj. rewrite M. exact Gm.
Qed.

Lemma read_only_sensors_turn_witness :
  mpu6050_data
    (@AttitudeTask_cycle bench
       {| tick_lt := 8; tick_gt := 8; Armed := ARMED_DISARMED;
          GyrosReadOnly := true; AccelsReadOnly := false;
          AttitudeActualReadOnly := true;
          queue := None; tick_att := 8;
          accels_local := accels_level; gyros_local := gyros_still |}
       (boot (tuned f1)))
  = mpu6050_data (boot (tuned f1)).
Proof.
  exact (proj1 (@read_only_sensors_turn bench
                  {| tick_lt := 8; tick_gt := 8; Armed := ARMED_DISARMED;
                     GyrosReadOnly := true; AccelsReadOnly := false;
                     AttitudeActualReadOnly := true;
                     queue := None; tick_att := 8;
                     accels_local := accels_level; gyros_local := gyros_still |}
                  (boot (tuned f1)) (or_introl eq_refl))).
Defined.

(** ** From the settings to the next sample *)

(** X6: a settings object without board rotation takes effect on the very
    next sample, whatever the state was and also when its Load command ends
    in the undefined division: the sample is scaled and not rotated, the
    accelerations have the configured [AccelBias] times [ACCEL_SCALE]
    subtracted, and the rates have the configured [GyroBias] over 100 added
    when [BiasCorrectGyro] is set, and nothing added when it is not. *)
Theorem settings_reach_next_sample {pf : Platform}
    (a : AttitudeSettingsData) (s : state) (d : pios_mpu6050_data)
    (ac : Accels.Data) (gy : Gyros.Data) :
  BoardRotation a = Arr3 0 0 0 ->
  let r := updateSensorsCC3D false false (Some d) ac gy
             (reached (handle (SettingsUpdated a) s)) in
  fst (fst (fst r)) = 0 /\
  Accels.x (snd (fst r)) =
    (ix0 (scaled_accels d) - F.of_Z (ix0 (AccelBias a)) * ACCEL_SCALE)%flt /\
  Accels.y (snd (fst r)) =
    (ix1 (scaled_accels d) - F.of_Z (ix1 (AccelBias a)) * ACCEL_SCALE)%flt /\
  Accels.z (snd (fst r)) =
    (ix2 (scaled_accels d) - F.of_Z (ix2 (AccelBias a)) * ACCEL_SCALE)%flt /\
  Arr3 (Gyros.x (snd r)) (Gyros.y (snd r)) (Gyros.z (snd r)) =
    (if BiasCorrectGyro a
     then Arr3 (ix0 (scaled_gyros d) + ix0 (configured_gyro_bias a))%flt
               (ix1 (scaled_gyros d) + ix1 (configured_gyro_bias a))%flt
               (ix2 (scaled_gyros d) + ix2 (configured_gyro_bias a))%flt
     else scaled_gyros d).
Proof.
  intros Hr.
  assert (B : forall s1, s1 = reached (handle (SettingsUpdated a) s) ->
            rotate (brd s1) = 0 /\ accelbias (brd s1) = AccelBias a /\
            bias_correct_gyro (brd s1) = BiasCorrectGyro a /\
            gyro_correct_int (est s1) = configured_gyro_bias a).
  { intros s1 ->. cbn [handle]. unfold settingsUpdatedCb, configured_gyro_bias.
    cbn [AttitudeSettings set_AttitudeSettings]. rewrite Hr.
    cbn [ix0 ix1 ix2 Z.eqb andb].
    destruct (TrimFlight a).
    - cbn [reached]. proj. cbn [brd rotate accelbias bias_correct_gyro]. repeat split.
    - cbn [reached]. proj. cbn [brd rotate accelbias bias_correct_gyro]. repeat split.
    - cbv zeta. cbn [trim_accels trim_samples].
      destruct (int32_div _ _); cbn [lift bind reached];
        [| proj; cbn [brd rotate accelbias bias_correct_gyro]; repeat split].
      destruct (int32_div _ _); cbn [lift bind reached];
        [| proj; cbn [brd rotate accelbias bias_correct_gyro]; repeat split].
      destruct (int32_div _ _); cbn [lift bind reached];
        [| proj; cbn [brd rotate accelbias bias_correct_gyro]; repeat split].
      destruct (F.to_int16 _); cbn [lift bind reached];
        proj; cbn [brd rotate accelbias bias_correct_gyro]; repeat split. }
  destruct (B _ eq_refl) as (Brot & Bacc & Bcor & Bint).
  set (s1 := reached (handle (SettingsUpdated a) s)) in *.
  unfold updateSensorsCC3D. cbn [orb]. cbv zeta.
  proj. rewrite Brot, Bacc, Bcor, Bint. cbn [Z.eqb].
  unfold scaled_accels, scaled_gyros.
  destruct (BiasCorrectGyro a); proj;
    cbn [Accels.x Accels.y Accels.z Gyros.x Gyros.y Gyros.z];
    (split; [reflexivity |]); (split; [reflexivity |]); (split; [reflexivity |]);
    (split; reflexivity).
Qed.

Lemma settings_reach_next_sample_witness :
  fst (fst (fst (@updateSensorsCC3D bench false false (Some at_rest)
                   accels_level gyros_still
                   (reached (@handle bench (SettingsUpdated (biased f1))
                               (boot (tuned f1))))))) = 0.
Proof.
  exact (proj1 (@settings_reach_next_sample bench (biased f1) (boot (tuned f1)) at_rest
                  accels_level gyros_still eq_refl)).
Defined.

(** ** A sample that is not a number *)

Lemma apply_accel_filter_nan (enabled : bool) (raw : arr3 float)
    (fps : arr3 fourthOrderData) :
  some_nan raw -> some_nan (fst (apply_accel_filter enabled raw fps)).
Proof.
  unfold some_nan, apply_accel_filter. intros H. destruct enabled.
  - pose proof (computeFourthOrder_nan_input (ix0 fps)) as N0.
    pose proof (computeFourthOrder_nan_input (ix1 fps)) as N1.
    pose proof (computeFourthOrder_nan_input (ix2 fps)) as N2.
    destruct H as [E | [E | E]]; rewrite E;
      destruct (computeFourthOrder _ (ix0 fps)) as [y0 p0];
      destruct (computeFourthOrder _ (ix1 fps)) as [y1 p1];
      destruct (computeFourthOrder _ (ix2 fps)) as [y2 p2];
      cbn [fst ix0 ix1 ix2] in *; auto.
  - cbn [fst ix0 ix1 ix2]. exact H.
Qed.

(** X8: an acceleration that is not a number in any of its components is
    not stopped by the magnitude guard of the fusion, filter enabled or not.
    Unless the guard on the filtered gravity aborts the cycle, the cycle
    ends with the identity quaternion stored and published, and with the x
    and y components of the gyro bias integral not a number. *)
Theorem nan_acceleration_poisons_bias {pf : Platform} t a g s :
  some_nan (Arr3 (Accels.x a) (Accels.y a) (Accels.z a)) ->
  F.ltb (norm3 (accels_filtered (est (updateAttitude t a g s)))) (F.lit 1 1000) = false /\
  ((accel_filter_enabled (gn s) = true /\
    F.ltb (norm3 (grot_filtered (est (updateAttitude t a g s)))) (F.lit 1 1000) = true /\
    q (est (updateAttitude t a g s)) = q (est s) /\
    gyro_correct_int (est (updateAttitude t a g s)) = gyro_correct_int (est s)) \/
   (q (est (updateAttitude t a g s)) = q_identity /\
    ix0 (gyro_correct_int (est (updateAttitude t a g s))) = S754_nan /\
    ix1 (gyro_correct_int (est (updateAttitude t a g s))) = S754_nan /\
    exists d, published (updateAttitude t a g s) = AttitudeActualSet d :: published s /\
              published_q d = q_identity)).
Proof.
  intros H.
  pose proof (apply_accel_filter_nan (accel_filter_enabled (gn s)) _
                (filterParams_acc (est s)) H) as N.
  apply norm3_nan in N.
  unfold updateAttitude.
  destruct (apply_accel_filter _ _ (filterParams_acc _)) as [af pa].
  destruct (apply_accel_filter _ _ (filterParams_grot _)) as [gf pg].
  cbn [fst] in N. rewrite N. rewrite ltb_nan_l.
  destruct (accel_filter_enabled (gn s)) eqn:En.
  - destruct (F.ltb (norm3 gf) (F.lit 1 1000)) eqn:Eg.
    + proj. rewrite N, ltb_nan_l. split; [reflexivity | left]. repeat split. exact Eg.
    + proj. rewrite N, ltb_nan_l. split; [reflexivity | right].
      repeat nan. cbn [ix0 ix1 ix2].
      rewrite renormalize_nan
        by (apply integrate_rates_nan; left; reflexivity).
      split; [reflexivity |]. split; [reflexivity |]. split; [reflexivity |].
      eexists. split; reflexivity.
  - destruct (F.ltb (F.of_Z 1) (F.lit 1 1000)) eqn:E1;
      [vm_compute in E1; discriminate |].
    proj. rewrite N, ltb_nan_l. split; [reflexivity | right].
    repeat nan. cbn [ix0 ix1 ix2].
    rewrite renormalize_nan
      by (apply integrate_rates_nan; left; reflexivity).
    split; [reflexivity |]. split; [reflexivity |]. split; [reflexivity |].
    eexists. split; reflexivity.
Qed.

Lemma nan_acceleration_poisons_bias_witness :
  F.ltb (norm3 (accels_filtered
                  (est (@updateAttitude bench 8 accels_nan gyros_still (boot (tuned f1))))))
        (F.lit 1 1000) = false.
Proof.
  exact (proj1 (@nan_acceleration_poisons_bias bench 8 accels_nan gyros_still
                  (boot (tuned f1)) (or_introl eq_refl))).
Defined.

(** X9: a rate that is not a number in any of its components, in a cycle
    that the magnitude guard lets through (the magnitude of the filtered
    acceleration not below 1e-3 and, with the filter enabled, that of the
    filtered gravity neither), leaves no number in the integrated
    quaternion; the test on its magnitude then stores and publishes the
    identity, whatever attitude had been reached. *)
Theorem nan_rate_resets_attitude {pf : Platform} t a g s :
  some_nan (Arr3 (Gyros.x g) (Gyros.y g) (Gyros.z g)) ->
  F.ltb (norm3 (accels_filtered (est (updateAttitude t a g s)))) (F.lit 1 1000) = false ->
  accel_filter_enabled (gn s) = false \/
    F.ltb (norm3 (grot_filtered (est (updateAttitude t a g s)))) (F.lit 1 1000) = false ->
  q (est (updateAttitude t a g s)) = q_identity /\
  exists d, published (updateAttitude t a g s) = AttitudeActualSet d :: published s /\
            published_q d = q_identity.
Proof.
  intros H Ha Hg.
  destruct (updateAttitude_completed t a g s Ha Hg) as (_ & Hq & rpy & Hp).
  assert (Q : q (est (updateAttitude t a g s)) = q_identity).
  { rewrite Hq. apply renormalize_nan, integrate_rates_nan.
    unfold some_nan, corrected_rates in *. cbn [ix0 ix1 ix2] in *.
    destruct H as [E | [E | E]]; rewrite E; repeat nan; auto. }
  split; [exact Q |].
  eexists. split; [exact Hp |].
  unfold published_q. cbn [q1 q2 q3 q4]. rewrite Q. reflexivity.
Qed.

(** In the warm-up window, from a quaternion that is not the identity. *)
Lemma nan_rate_resets_attitude_witness :
  q (est (rolled_at 2000)) <> q_identity /\
  q (est (@updateAttitude bench 2004 accels_level gyros_nan (rolled_at 2000))) = q_identity /\
  exists d,
    published (@updateAttitude bench 2004 accels_level gyros_nan (rolled_at 2000))
      = AttitudeActualSet d :: published (rolled_at 2000) /\
    published_q d = q_identity.
Proof.
  assert (Ha : F.ltb (norm3 (accels_filtered
                               (est (@updateAttitude bench 2004 accels_level gyros_nan
                                       (rolled_at 2000)))))
                     (F.lit 1 1000) = false)
    by (vm_compute; reflexivity).
  assert (Hg : accel_filter_enabled (gn (rolled_at 2000)) = false \/
               F.ltb (norm3 (grot_filtered
                               (est (@updateAttitude bench 2004 accels_level gyros_nan
                                       (rolled_at 2000)))))
                     (F.lit 1 1000) = false)
    by (left; reflexivity).
  split; [vm_compute; discriminate |].
  exact (@nan_rate_resets_attitude bench 2004 accels_level gyros_nan (rolled_at 2000)
           (or_intror (or_intror eq_refl)) Ha Hg).
Defined.

(** ** A bias integral that is not a number *)

Lemma nan_where_refl (v : arr3 float) : nan_where v v.
Proof. unfold nan_where. auto. Qed.

Lemma nan_where_trans (u v w : arr3 float) :
  nan_where u v -> nan_where v w -> nan_where u w.
Proof. unfold nan_where. intros (A0 & A1 & A2) (B0 & B1 & B2). auto. Qed.

Lemma updateSensorsCC3D_nan_where {pf : Platform} ro1 ro2 qu a g s :
  nan_where (gyro_correct_int (est s))
    (gyro_correct_int (est (snd (fst (fst (updateSensorsCC3D ro1 ro2 qu a g s)))))).
Proof.
  unfold updateSensorsCC3D.
  destruct (ro1 || ro2); [apply nan_where_refl |].
  destruct qu as [d |]; [| apply nan_where_refl].
  cbv zeta. proj. unfold nan_where. cbn [ix0 ix1 ix2].
  split; [auto |]. split; [auto |]. intros E. rewrite E. repeat nan. reflexivity.
Qed.

Lemma updateAttitude_nan_where {pf : Platform} t a g s :
  nan_where (gyro_correct_int (est s))
    (gyro_correct_int (est (updateAttitude t a g s))).
Proof.
  destruct (updateAttitude_outcome t a g s) as [s' _ _ Hg _ | s' e0 e1 r _ _ _ Hg];
    rewrite Hg; [apply nan_where_refl |].
  unfold nan_where. cbn [ix0 ix1 ix2].
  split; [| split]; intros E; try rewrite E; repeat nan; auto.
Qed.

Lemma AttitudeTask_cycle_nan_where {pf : Platform} i s :
  nan_where (gyro_correct_int (est s))
    (gyro_correct_int (est (AttitudeTask_cycle i s))).
Proof.
  unfold AttitudeTask_cycle.
  pose proof (AttitudeTask_gains_frame i s) as (Ge & _).
  pose proof (updateSensorsCC3D_nan_where (GyrosReadOnly i) (AccelsReadOnly i) (queue i)
                (accels_local i) (gyros_local i) (AttitudeTask_gains i s)) as U.
  rewrite Ge in U.
  destruct (updateSensorsCC3D _ _ _ _ _ _) as [[[ret s1] a1] g1].
  cbn [fst snd] in U.
  destruct (negb (ret =? 0)); [proj; exact U |].
  destruct (negb (AttitudeActualReadOnly i)); [| proj; exact U].
  proj. eapply nan_where_trans; [exact U |]. apply updateAttitude_nan_where.
Qed.

(** X10: the loop never repairs a gyro bias integral: over any number of
    turns, whatever they read, a component of the integral that is not a
    number stays so; only the settings callback writes a number back. *)
Theorem nan_bias_integral_persists {pf : Platform} (turns : list cycle_input) s :
  exists s',
    run (map Cycle turns) s = Done s' /\
    nan_where (gyro_correct_int (est s)) (gyro_correct_int (est s')).
Proof.
  revert s. induction turns as [| i turns IH]; intros s.
  - exists s. split; [reflexivity | apply nan_where_refl].
  - cbn [map run handle].
    destruct (IH (AttitudeTask_cycle i s)) as (s' & Hr & Hn).
    exists s'. split; [exact Hr |].
    eapply nan_where_trans; [apply AttitudeTask_cycle_nan_where | exact Hn].
Qed.

Lemma updateAttitude_nan_rate {pf : Platform} t a g s :
  some_nan (Arr3 (Gyros.x g) (Gyros.y g) (Gyros.z g)) ->
  q (est (updateAttitude t a g s)) = q (est s) \/
  q (est (updateAttitude t a g s)) = q_identity.
Proof.
  unfold some_nan. cbn [ix0 ix1 ix2]. intros H. unfold updateAttitude.
  destruct (apply_accel_filter _ _ (filterParams_acc _)) as [af pa].
  destruct (apply_accel_filter _ _ (filterParams_grot _)) as [gf pg].
  destruct (F.ltb (norm3 af) (F.lit 1 1000)); [left; reflexivity |].
  destruct (F.ltb _ (F.lit 1 1000)); [left; reflexivity |].
  right. proj. apply renormalize_nan, integrate_rates_nan. cbn [ix0 ix1 ix2].
  destruct H as [E | [E | E]]; rewrite E; repeat nan; auto.
Qed.

Lemma updateSensorsCC3D_nan_rate {pf : Platform} d a g s :
  bias_correct_gyro (brd s) = true ->
  some_nan (gyro_correct_int (est s)) ->
  some_nan (Arr3 (Gyros.x (snd (updateSensorsCC3D false false (Some d) a g s)))
                 (Gyros.y (snd (updateSensorsCC3D false false (Some d) a g s)))
                 (Gyros.z (snd (updateSensorsCC3D false false (Some d) a g s)))).
Proof.
  intros Hb Hn. unfold updateSensorsCC3D. cbn [orb]. cbv zeta. proj.
  rewrite Hb. cbn [snd Gyros.x Gyros.y Gyros.z].
  unfold some_nan in *. cbn [ix0 ix1 ix2].
  destruct Hn as [E | [E | E]]; rewrite E; repeat nan; auto.
Qed.

Lemma AttitudeTask_cycle_pinned {pf : Platform} i s :
  bias_correct_gyro (brd s) = true ->
  some_nan (gyro_correct_int (est s)) ->
  GyrosReadOnly i = false /\ AccelsReadOnly i = false ->
  q (est (AttitudeTask_cycle i s)) = q (est s) \/
  q (est (AttitudeTask_cycle i s)) = q_identity.
Proof.
  intros Hb Hn [Hg Ha]. unfold AttitudeTask_cycle. rewrite Hg, Ha.
  pose proof (AttitudeTask_gains_frame i s) as (Ge & Gb & _).
  rewrite <- Ge in Hn. rewrite <- Gb in Hb. rewrite <- Ge.
  set (s0 := AttitudeTask_gains i s) in *.
  destruct (queue i) as [d |].
  - pose proof (updateSensorsCC3D_nan_rate d (accels_local i) (gyros_local i) s0 Hb Hn) as N.
    pose proof (updateSensorsCC3D_frame false false (Some d) (accels_local i)
                  (gyros_local i) s0) as F.
    assert (R : fst (fst (fst (updateSensorsCC3D false false (Some d) (accels_local i)
                                 (gyros_local i) s0))) = 0) by reflexivity.
    destruct (updateSensorsCC3D _ _ _ _ _ _) as [[[ret s1] a1] g1].
    cbn [fst snd] in N, F, R. destruct F as (_ & _ & _ & _ & _ & _ & Fq). subst ret.
    change (negb (0 =? 0)) with false. cbv iota.
    destruct (negb (AttitudeActualReadOnly i)); proj; [| left; exact Fq].
    destruct (updateAttitude_nan_rate (tick_att i) a1 g1 s1 N) as [Hq | Hq].
    + left. congruence.
    + right. exact Hq.
  - rewrite updateSensorsCC3D_timeout. change (negb (-1 =? 0)) with true. cbv iota.
    proj. left. reflexivity.
Qed.

(** X11: with the bias correction of the rates switched on, a gyro bias
    integral with a component that is not a number pins the attitude: over
    any number of turns that read the sensor themselves, the quaternion is
    the one held before or the identity, whatever the sensor delivers. *)
Theorem nan_bias_integral_pins_attitude {pf : Platform}
    (turns : list cycle_input) (s : state) :
  bias_correct_gyro (brd s) = true ->
  some_nan (gyro_correct_int (est s)) ->
  Forall (fun i => GyrosReadOnly i = false /\ AccelsReadOnly i = false) turns ->
  exists s',
    run (map Cycle turns) s = Done s' /\
    (q (est s') = q (est s) \/ q (est s') = q_identity).
Proof.
  revert s. induction turns as [| i turns IH]; intros s Hb Hn Ht.
  - exists s. split; [reflexivity | left; reflexivity].
  - apply Forall_cons_iff in Ht as [Hi Ht]. cbn [map run handle].
    pose proof (AttitudeTask_cycle_pinned i s Hb Hn Hi) as P.
    pose proof (AttitudeTask_cycle_frame i s) as (Fb & _).
    pose proof (AttitudeTask_cycle_nan_where i s) as (N0 & N1 & N2).
    assert (Hn1 : some_nan (gyro_correct_int (est (AttitudeTask_cycle i s))))
      by (unfold some_nan in *; tauto).
    destruct (IH (AttitudeTask_cycle i s)) as (s' & Hr & Hq);
      [congruence | exact Hn1 | exact Ht |].
    exists s'. split; [exact Hr |].
    destruct Hq as [Hq | Hq]; [| right; exact Hq].
    rewrite Hq. exact P.
Qed.

Lemma nan_bias_integral_pins_attitude_witness :
  exists s',
    @run bench (map Cycle [turn 8 (Some at_rest); turn 12 None])
      (set_bias (Arr3 f0 S754_nan f0) (boot (tuned f1))) = Done s' /\
    (q (est s') = q (est (set_bias (Arr3 f0 S754_nan f0) (boot (tuned f1)))) \/
     q (est s') = q_identity).
Proof.
  assert (Ht : Forall (fun i => GyrosReadOnly i = false /\ AccelsReadOnly i = false)
                 [turn 8 (Some at_rest); turn 12 None])
    by (repeat (apply Forall_cons; [split; reflexivity |]); apply Forall_nil).
  exact (@nan_bias_integral_pins_attitude bench [turn 8 (Some at_rest); turn 12 None]
           (set_bias (Arr3 f0 S754_nan f0) (boot (tuned f1)))
           eq_refl (or_intror (or_introl eq_refl)) Ht).
Defined.

(** ** The magnetic north sent to the AHRS *)

Lemma north_length_some_nan (Be : arr3 float) :
  some_nan Be -> north_length Be = S754_nan.
Proof.
  unfold north_length.
  intros [E | [E | E]]; rewrite E; repeat nan;
    rewrite of_float_nan, sqrt_nan, to_float_nan; reflexivity.
Qed.

Lemma north_length_some_infinite (Be : arr3 float) :
  is_infinite (ix0 Be) \/ is_infinite (ix1 Be) \/ is_infinite (ix2 Be) ->
  overflowed (north_length Be).
Proof.
  intros H. unfold north_length. apply north_length_of_overflowed.
  destruct H as [H | [H | H]]; rewrite (square_infinite _ H).
  - apply add_overflowed_l; [| apply son_square].
    apply add_overflowed_l; [left; reflexivity | apply son_square].
  - apply add_overflowed_l; [| apply son_square].
    apply add_overflowed_r; [apply son_square | left; reflexivity].
  - apply add_overflowed_r; [| left; reflexivity].
    apply son_add; apply son_square.
Qed.

Lemma north_length_component (Be : arr3 float) (x : float) :
  x = ix0 Be \/ x = ix1 Be \/ x = ix2 Be ->
  (x = S754_nan -> north_length Be = S754_nan) /\
  (is_infinite x -> overflowed (north_length Be)).
Proof.
  intros H. split; intros Hx.
  - apply north_length_some_nan. unfold some_nan.
    destruct H as [-> | [-> | ->]]; auto.
  - apply north_length_some_infinite.
    destruct H as [-> | [-> | ->]]; auto.
Qed.

Lemma north_length_finite_component (Be : arr3 float) (x : float) :
  x = ix0 Be \/ x = ix1 Be \/ x = ix2 Be ->
  is_finite (north_length Be) -> is_finite x.
Proof.
  intros H Hl. destruct (north_length_component Be x H) as [Hn Hi].
  destruct x as [s | s | | s m e]; [exact I | | | exact I].
  - destruct (Hi I) as [E | E]; rewrite E in Hl; destruct Hl.
  - rewrite (Hn eq_refl) in Hl. destruct Hl.
Qed.

Lemma north_unset_zeros (Be : arr3 float) :
  north_unset Be = true -> is_zero (north_length Be).
Proof.
  unfold north_unset. intros H.
  apply andb_prop in H as [H H2]. apply andb_prop in H as [H0 H1].
  apply north_length_zeros; apply eqb_zero; assumption.
Qed.

Lemma load_magnetic_north_normalised (Be : arr3 float) :
  north_unset Be = false ->
  load_magnetic_north Be =
    Arr3 (ix0 Be / north_length Be)%flt (ix1 Be / north_length Be)%flt
         (ix2 Be / north_length Be)%flt.
Proof.
  unfold north_unset, load_magnetic_north. intros H. rewrite H. reflexivity.
Qed.

Lemma is_finite_not_nan (x : float) : is_finite x -> x <> S754_nan.
Proof. intros H E. rewrite E in H. exact H. Qed.

(** X12: when the length [load_magnetic_north] computes is a finite positive
    number, the request holds no not-a-number and each of its components
    has the sign of the component of the home field it was made from: a
    zero, a finite number or an infinity of that sign. *)
Theorem magnetic_north_keeps_signs (Be : arr3 float) (m : positive) (e : Z) :
  north_length Be = S754_finite false m e ->
  has_sign (sign_of (ix0 Be)) (ix0 (load_magnetic_north Be)) /\
  has_sign (sign_of (ix1 Be)) (ix1 (load_magnetic_north Be)) /\
  has_sign (sign_of (ix2 Be)) (ix2 (load_magnetic_north Be)).
Proof.
  intros Hl.
  assert (Hf : is_finite (north_length Be)) by (rewrite Hl; exact I).
  assert (Hu : north_unset Be = false).
  { destruct (north_unset Be) eqn:U; [| reflexivity].
    apply north_unset_zeros in U. rewrite Hl in U. destruct U. }
  rewrite (load_magnetic_north_normalised Be Hu), Hl. cbn [ix0 ix1 ix2].
  split; [| split]; apply div_has_sign; apply is_finite_not_nan;
    apply (north_length_finite_component Be); auto.
Qed.

Lemma magnetic_north_keeps_signs_witness :
  has_sign (sign_of (ix0 field_ordinary)) (ix0 (load_magnetic_north field_ordinary)) /\
  has_sign (sign_of (ix1 field_ordinary)) (ix1 (load_magnetic_north field_ordinary)) /\
  has_sign (sign_of (ix2 field_ordinary)) (ix2 (load_magnetic_north field_ordinary)).
Proof.
  assert (H : north_length field_ordinary = S754_finite false 13631488 (-20))
    by (vm_compute; reflexivity).
  exact (magnetic_north_keeps_signs field_ordinary 13631488 (-20) H).
Defined.

(** X13: the test for an unset home field does not keep the not-a-number
    out of the request.  A field that is not zero but so weak that the sum
    of its squares rounds to zero is divided by a zero length: every
    component of the request is then an infinity or not a number, and one
    at least is an infinity. *)
Theorem magnetic_north_underflow (Be : arr3 float) :
  north_unset Be = false -> is_zero (north_length Be) ->
  (infinite_or_nan (ix0 (load_magnetic_north Be)) /\
   infinite_or_nan (ix1 (load_magnetic_north Be)) /\
   infinite_or_nan (ix2 (load_magnetic_north Be))) /\
  (is_infinite (ix0 (load_magnetic_north Be)) \/
   is_infinite (ix1 (load_magnetic_north Be)) \/
   is_infinite (ix2 (load_magnetic_north Be))).
Proof.
  intros Hu Hz.
  assert (Hf : is_finite (north_length Be))
    by (destruct (north_length Be); try destruct Hz; exact I).
  pose proof (north_length_finite_component Be (ix0 Be) (or_introl eq_refl) Hf) as F0.
  pose proof (north_length_finite_component Be (ix1 Be)
                (or_intror (or_introl eq_refl)) Hf) as F1.
  pose proof (north_length_finite_component Be (ix2 Be)
                (or_intror (or_intror eq_refl)) Hf) as F2.
  rewrite (load_magnetic_north_normalised Be Hu). cbn [ix0 ix1 ix2].
  destruct (north_length Be) as [s | | |]; try destruct Hz.
  assert (N : ~ (is_zero (ix0 Be) /\ is_zero (ix1 Be) /\ is_zero (ix2 Be))).
  { intros (Z0 & Z1 & Z2). unfold north_unset in Hu.
    apply andb_false_iff in Hu as [Hu | Hu];
      [apply andb_false_iff in Hu as [Hu | Hu] |];
      apply eqb_zero_false in Hu; contradiction. }
  assert (A : forall x, is_finite x -> infinite_or_nan (x / S754_zero s)%flt).
  { intros x Fx. destruct (div_by_zero x s Fx) as [[_ E] | [_ Hi]].
    - rewrite E. exact I.
    - destruct (x / S754_zero s)%flt; try destruct Hi; exact I. }
  split; [split; [| split]; apply A; assumption |].
  destruct (div_by_zero (ix0 Be) s F0) as [[Z0 _] | [_ I0]]; [| left; exact I0].
  destruct (div_by_zero (ix1 Be) s F1) as [[Z1 _] | [_ I1]];
    [| right; left; exact I1].
  destruct (div_by_zero (ix2 Be) s F2) as [[Z2 _] | [_ I2]];
    [| right; right; exact I2].
  exfalso. apply N. repeat split; assumption.
Qed.

Lemma magnetic_north_underflow_witness :
  (infinite_or_nan (ix0 (load_magnetic_north field_weak)) /\
   infinite_or_nan (ix1 (load_magnetic_north field_weak)) /\
   infinite_or_nan (ix2 (load_magnetic_north field_weak))) /\
  (is_infinite (ix0 (load_magnetic_north field_weak)) \/
   is_infinite (ix1 (load_magnetic_north field_weak)) \/
   is_infinite (ix2 (load_magnetic_north field_weak))).
Proof.
  assert (Hu : north_unset field_weak = false) by (vm_compute; reflexivity).
  assert (Hz : is_zero (north_length field_weak)) by (vm_compute; exact I).
  exact (magnetic_north_underflow field_weak Hu Hz).
Defined.

(** X14: a home field of finite components so strong that the sum of its
    squares overflows is divided by an infinite length: the request is the
    zero vector, the very value the test for an unset field replaces. *)
Theorem magnetic_north_overflow (Be : arr3 float) :
  is_finite (ix0 Be) -> is_finite (ix1 Be) -> is_finite (ix2 Be) ->
  north_length Be = S754_infinity false ->
  is_zero (ix0 (load_magnetic_north Be)) /\
  is_zero (ix1 (load_magnetic_north Be)) /\
  is_zero (ix2 (load_magnetic_north Be)).
Proof.
  intros F0 F1 F2 Hl.
  assert (Hu : north_unset Be = false).
  { destruct (north_unset Be) eqn:U; [| reflexivity].
    apply north_unset_zeros in U. rewrite Hl in U. destruct U. }
  rewrite (load_magnetic_north_normalised Be Hu), Hl. cbn [ix0 ix1 ix2].
  split; [| split]; apply div_by_infinity; assumption.
Qed.

Lemma magnetic_north_overflow_witness :
  is_zero (ix0 (load_magnetic_north field_strong)) /\
  is_zero (ix1 (load_magnetic_north field_strong)) /\
  is_zero (ix2 (load_magnetic_north field_strong)).
Proof.
  assert (F0 : is_finite (ix0 field_strong)) by (vm_compute; exact I).
  assert (F1 : is_finite (ix1 field_strong)) by (vm_compute; exact I).
  assert (F2 : is_finite (ix2 field_strong)) by (vm_compute; exact I).
  assert (Hl : north_length field_strong = S754_infinity false)
    by (vm_compute; reflexivity).
  exact (magnetic_north_overflow field_strong F0 F1 F2 Hl).
Defined.

(** ** The AHRS communication task *)

Ltac aproj :=
  cbn [flags errors ahrs_alarm AhrsStatus trace
       set_flags set_errors set_ahrs_alarm set_AhrsStatus emit
       BaroAltitudeIsUpdatedFlag PositionActualIsUpdatedFlag HomeLocationIsUpdatedFlag
       AHRSKnowsHome outer_head fst snd] in *.

(** What one turn leaves alone: the alarm and the status object; and what it
    does to the knowledge of home and to the trace. *)
Lemma ahrs_turn_frame (i : link_turn) (s : ahrs_state) :
  ahrs_alarm (snd (ahrs_turn i s)) = ahrs_alarm s /\
  AhrsStatus (snd (ahrs_turn i s)) = AhrsStatus s /\
  exists pre, trace (snd (ahrs_turn i s)) = pre ++ trace s.
Proof.
  unfold ahrs_turn, get_attitude, get_attituderaw, send_baro_altitude,
    send_position_actual, send_magnetic_north.
  destruct s as [[fb fp fh fk] e al st tr].
  destruct (GetAttitude i); cbn [and_then]; aproj;
    [| repeat split; exists []; reflexivity].
  destruct (GetAttitudeRaw i); cbn [and_then]; aproj;
    [| repeat split; eexists [_]; reflexivity].
  destruct fb; [destruct (baro_acknowledged i) |]; cbn [and_then]; aproj;
    try (repeat split; eexists [_; _; _]; reflexivity);
    (destruct fp; [destruct (position_acknowledged i) |]; cbn [and_then]; aproj;
     try (repeat split;
          first [eexists [_; _; _]; reflexivity | eexists [_; _; _; _]; reflexivity]);
     (destruct fh, fk; cbn [orb negb]; try destruct (north_acknowledged i);
      cbn [and_then]; aproj; repeat split;
      first [eexists [_; _; _]; reflexivity | eexists [_; _; _; _]; reflexivity
            | eexists [_; _; _; _; _]; reflexivity
            | eexists [_; _; _; _; _; _]; reflexivity
            | eexists [_; _; _; _; _; _; _]; reflexivity])).
Qed.

Lemma run_callback_frame (c : callback) (s : ahrs_state) :
  ahrs_alarm (run_callback c s) = ahrs_alarm s /\
  AHRSKnowsHome (flags (run_callback c s)) = AHRSKnowsHome (flags s) /\
  errors (run_callback c s) = errors s /\
  trace (run_callback c s) = trace s.
Proof. destruct c; cbn [run_callback]; aproj; repeat split. Qed.

Lemma ahrs_step_alarm (x : ahrs_input) (ps : phase * ahrs_state) :
  alarm_in_step ps -> alarm_in_step (ahrs_step x ps).
Proof.
  destruct ps as [ph s]. unfold alarm_in_step. cbn [fst snd]. intros H.
  destruct x as [c | | [serial |] | i]; cbn [ahrs_step].
  - pose proof (run_callback_frame c s) as (Fa & Fk & _).
    destruct ph; cbn [fst snd]; rewrite Fa, ?Fk; exact H.
  - destruct ph; cbn [fst snd]; aproj; exact H.
  - destruct ph; cbn [fst snd]; aproj; [reflexivity | exact H].
  - destruct ph; cbn [fst snd]; aproj; [split; reflexivity | exact H].
  - destruct ph; cbn [fst snd]; [exact H |].
    pose proof (ahrs_turn_frame i s) as (Fa & _).
    destruct (ahrs_turn i s) as [[] s']; cbn [fst snd] in *.
    + rewrite Fa. exact H.
    + aproj. split; reflexivity.
Qed.

Lemma ahrs_run_alarm (xs : list ahrs_input) (ps : phase * ahrs_state) :
  alarm_in_step ps -> alarm_in_step (ahrs_run xs ps).
Proof.
  revert ps. induction xs as [| x rest IH]; intros ps H; cbn [ahrs_run]; [exact H |].
  apply IH. apply ahrs_step_alarm. exact H.
Qed.

(** X15: over every run of the task the alarm tells whether the link is in
    sync: it is Critical, and the AHRS is taken not to know home, whenever
    the task waits for a resync, which is from its start, after every turn
    that ended at a comms error and after every serial number request that
    failed; it is cleared whenever the task is in its inner loop. *)
Theorem alarm_tracks_sync (status : AhrsStatusData) (xs : list ahrs_input) :
  alarm_in_step (ahrs_run xs (ahrs_start status)).
Proof.
  apply ahrs_run_alarm. unfold alarm_in_step, ahrs_start. cbn [fst snd]. aproj.
  split; reflexivity.
Qed.

Lemma uint16_incr_bounds (x : Z) : 0 <= uint16_incr x.
Proof. unfold uint16_incr. apply Z.mod_pos_bound. lia. Qed.

Lemma uint16_incr_small (x : Z) : 0 <= x < 65535 -> uint16_incr x = x + 1.
Proof. intros H. unfold uint16_incr. apply Z.mod_small. lia. Qed.

(** A turn that ends at its delay counts nothing; a turn that ends at a
    break counts one error, on one counter. *)
Lemma ahrs_turn_errors (i : link_turn) (s : ahrs_state) :
  counters_ok (errors s) ->
  counters_ok (errors (snd (ahrs_turn i s))) /\
  match fst (ahrs_turn i s) with
  | Continue => errors (snd (ahrs_turn i s)) = errors s
  | Break =>
      total_errors (errors s) < 65535 ->
      total_errors (errors (snd (ahrs_turn i s))) = total_errors (errors s) + 1
  end.
Proof.
  unfold ahrs_turn, get_attitude, get_attituderaw, send_baro_altitude,
    send_position_actual, send_magnetic_north.
  destruct s as [[fb fp fh fk] [e1 e2 e3 e4 e5] al st tr].
  unfold counters_ok, total_errors. cbn [errors attitude_errors attituderaw_errors
    position_errors home_errors altitude_errors]. intros (C1 & C2 & C3 & C4 & C5).
  pose proof (uint16_incr_bounds e1). pose proof (uint16_incr_bounds e2).
  pose proof (uint16_incr_bounds e3). pose proof (uint16_incr_bounds e4).
  pose proof (uint16_incr_bounds e5).
  assert (T : forall x, 0 <= x -> e1 + e2 + e3 + e4 + e5 < 65535 ->
                        x <= e1 + e2 + e3 + e4 + e5 -> uint16_incr x = x + 1)
    by (intros x Hx Ht Hle; apply uint16_incr_small; lia).
  destruct (GetAttitude i); cbn [and_then]; aproj;
    [| cbn [count_attitude errors attitude_errors attituderaw_errors position_errors
            home_errors altitude_errors];
       split; [repeat split; assumption | intros Ht; rewrite (T e1) by lia; lia]].
  destruct (GetAttitudeRaw i); cbn [and_then]; aproj;
    [| cbn [count_attituderaw errors attitude_errors attituderaw_errors position_errors
            home_errors altitude_errors];
       split; [repeat split; assumption | intros Ht; rewrite (T e2) by lia; lia]].
  destruct fb; [destruct (baro_acknowledged i) |]; cbn [and_then]; aproj;
    try (cbn [count_altitude errors attitude_errors attituderaw_errors position_errors
              home_errors altitude_errors];
         split; [repeat split; assumption | intros Ht; rewrite (T e5) by lia; lia]);
    (destruct fp; [destruct (position_acknowledged i) |]; cbn [and_then]; aproj;
     try (cbn [count_position errors attitude_errors attituderaw_errors position_errors
               home_errors altitude_errors];
          split; [repeat split; assumption | intros Ht; rewrite (T e3) by lia; lia]);
     (destruct fh, fk; cbn [orb negb]; try destruct (north_acknowledged i);
      cbn [and_then]; aproj;
      cbn [count_home errors attitude_errors attituderaw_errors position_errors
           home_errors altitude_errors];
      first [split; [repeat split; assumption | reflexivity]
            | split; [repeat split; assumption
                     | intros Ht; rewrite (T e4) by lia; lia]])).
Qed.

Lemma broken_turns_nonneg (xs : list ahrs_input) (ps : phase * ahrs_state) :
  0 <= broken_turns xs ps.
Proof.
  revert ps. induction xs as [| x rest IH]; intros ps; cbn [broken_turns]; [lia |].
  specialize (IH (ahrs_step x ps)).
  destruct x; try lia. destruct (fst ps); try lia.
  destruct (fst (ahrs_step _ ps)); lia.
Qed.

Lemma ahrs_step_errors (x : ahrs_input) (ps : phase * ahrs_state) :
  counters_ok (errors (snd ps)) ->
  counters_ok (errors (snd (ahrs_step x ps))) /\
  (total_errors (errors (snd ps)) + broken_turns [x] ps < 65536 ->
   total_errors (errors (snd (ahrs_step x ps))) =
     total_errors (errors (snd ps)) + broken_turns [x] ps).
Proof.
  destruct ps as [ph s]. cbn [snd broken_turns fst]. intros C.
  destruct x as [c | | [serial |] | i]; cbn [ahrs_step].
  - pose proof (run_callback_frame c s) as (_ & _ & Fe & _).
    cbn [fst snd]. rewrite Fe. split; [exact C | lia].
  - destruct ph; cbn [fst snd]; aproj; (split; [exact C | lia]).
  - destruct ph; cbn [fst snd]; aproj; (split; [exact C | lia]).
  - destruct ph; cbn [fst snd]; aproj; (split; [exact C | lia]).
  - destruct ph; cbn [fst snd]; [split; [exact C | lia] |].
    pose proof (ahrs_turn_errors i s C) as [C1 E].
    destruct (ahrs_turn i s) as [[] s']; cbn [fst snd] in *.
    + rewrite E. split; [exact C | lia].
    + aproj. split; [exact C1 |]. intros Ht. rewrite E by lia. lia.
Qed.

Lemma ahrs_run_errors (xs : list ahrs_input) (ps : phase * ahrs_state) :
  counters_ok (errors (snd ps)) ->
  total_errors (errors (snd ps)) + broken_turns xs ps < 65536 ->
  total_errors (errors (snd (ahrs_run xs ps))) =
    total_errors (errors (snd ps)) + broken_turns xs ps.
Proof.
  revert ps. induction xs as [| x rest IH]; intros ps C Ht.
  - cbn [ahrs_run broken_turns]. lia.
  - destruct (ahrs_step_errors x ps C) as [C1 E].
    pose proof (broken_turns_nonneg rest (ahrs_step x ps)) as Hr.
    cbn [broken_turns] in Ht, E |- *. cbn [ahrs_run].
    rewrite IH; [| exact C1 | rewrite E by lia; lia].
    rewrite E by lia. lia.
Qed.

(** X16: the five error counters account for the breaks of the inner loop:
    over every run of the task with at most 65535 turns ended at a comms
    error, the sum of the counters is the number of those turns.  Every
    break is counted, on one counter, and nothing else moves a counter. *)
Theorem comm_errors_count_breaks (status : AhrsStatusData) (xs : list ahrs_input) :
  broken_turns xs (ahrs_start status) < 65536 ->
  total_errors (errors (snd (ahrs_run xs (ahrs_start status)))) =
    broken_turns xs (ahrs_start status).
Proof.
  intros H.
  rewrite ahrs_run_errors.
  - reflexivity.
  - cbv. repeat split; discriminate.
  - exact H.
Qed.

Lemma comm_errors_count_breaks_witness :
  total_errors
    (errors (snd (ahrs_run [Resynced (Some [1; 2]); Turn (turn_ok field_ordinary);
                            Turn turn_silent; Resynced (Some [1; 2]); Turn turn_silent]
                    (ahrs_start status_blank)))) =
  broken_turns [Resynced (Some [1; 2]); Turn (turn_ok field_ordinary);
                Turn turn_silent; Resynced (Some [1; 2]); Turn turn_silent]
    (ahrs_start status_blank).
Proof.
  assert (H : broken_turns [Resynced (Some [1; 2]); Turn (turn_ok field_ordinary);
                            Turn turn_silent; Resynced (Some [1; 2]); Turn turn_silent]
                (ahrs_start status_blank) < 65536)
    by (vm_compute; reflexivity).
  exact (comm_errors_count_breaks status_blank _ H).
Defined.

Lemma ahrs_run_app (l m : list ahrs_input) (ps : phase * ahrs_state) :
  ahrs_run (l ++ m) ps = ahrs_run m (ahrs_run l ps).
Proof.
  revert ps. induction l as [| x l IH]; intros ps; cbn [app ahrs_run];
    [reflexivity | apply IH].
Qed.

Lemma run_callbacks_frame (cbs : list callback) (ph : phase) (s : ahrs_state) :
  fst (ahrs_run (map Callback cbs) (ph, s)) = ph /\
  ahrs_alarm (snd (ahrs_run (map Callback cbs) (ph, s))) = ahrs_alarm s /\
  AHRSKnowsHome (flags (snd (ahrs_run (map Callback cbs) (ph, s)))) =
    AHRSKnowsHome (flags s).
Proof.
  revert s. induction cbs as [| c rest IH]; intros s; cbn [map ahrs_run ahrs_step].
  - repeat split.
  - destruct (IH (run_callback c s)) as (I1 & I2 & I3).
    pose proof (run_callback_frame c s) as (Fa & Fk & _).
    rewrite I1, I2, I3, Fa, Fk. repeat split.
Qed.

(** A turn that starts without the AHRS knowing home and ends at its delay
    has sent the magnetic north. *)
Lemma ahrs_turn_sends_north (i : link_turn) (s s' : ahrs_state) :
  AHRSKnowsHome (flags s) = false ->
  ahrs_turn i s = (Continue, s') ->
  AHRSKnowsHome (flags s') = true /\
  exists rest,
    trace s' = TaskDelay (Z.quot (UpdatePeriod i) portTICK_RATE_MS)
               :: SetMagNorth (load_magnetic_north (HomeLocation_Be i)) :: rest.
Proof.
  unfold ahrs_turn, get_attitude, get_attituderaw, send_baro_altitude,
    send_position_actual, send_magnetic_north.
  destruct s as [[fb fp fh fk] e al st tr]. aproj. intros ->.
  destruct (GetAttitude i); cbn [and_then]; aproj; [| discriminate].
  destruct (GetAttitudeRaw i); cbn [and_then]; aproj; [| discriminate].
  destruct fb; [destruct (baro_acknowledged i) |]; cbn [and_then]; aproj;
    try discriminate;
    (destruct fp; [destruct (position_acknowledged i) |]; cbn [and_then]; aproj;
     try discriminate;
     (rewrite orb_true_r; destruct (north_acknowledged i); cbn [and_then]; aproj;
      [| discriminate];
      intros E; injection E as <-; aproj; split; [reflexivity |];
      eexists; reflexivity)).
Qed.

(** X17: after every resync the magnetic north is sent again.  From any
    point of any run at which the task waits for a resync, once the resync
    and the serial number request have succeeded, the first turn of the
    inner loop that reaches its delay has handed the normalised home field
    to the link just before, whether the home location was updated or not,
    and whatever callbacks fired in between; only then is the AHRS taken to
    know home. *)
Theorem north_resent_after_resync (status : AhrsStatusData) (xs : list ahrs_input)
    (serial_bcd : list Z) (cbs : list callback) (i : link_turn) :
  fst (ahrs_run xs (ahrs_start status)) = Resyncing ->
  fst (ahrs_run (xs ++ Resynced (Some serial_bcd) :: map Callback cbs ++ [Turn i])
         (ahrs_start status)) = InSync ->
  AHRSKnowsHome
    (flags (snd (ahrs_run (xs ++ Resynced (Some serial_bcd) :: map Callback cbs)
                   (ahrs_start status)))) = false /\
  AHRSKnowsHome
    (flags (snd (ahrs_run (xs ++ Resynced (Some serial_bcd) :: map Callback cbs ++ [Turn i])
                   (ahrs_start status)))) = true /\
  exists rest,
    trace (snd (ahrs_run (xs ++ Resynced (Some serial_bcd) :: map Callback cbs ++ [Turn i])
                  (ahrs_start status))) =
      TaskDelay (Z.quot (UpdatePeriod i) portTICK_RATE_MS)
      :: SetMagNorth (load_magnetic_north (HomeLocation_Be i)) :: rest.
Proof.
  assert (Inv : alarm_in_step (ahrs_run xs (ahrs_start status)))
    by (apply ahrs_run_alarm; split; reflexivity).
  intros Hp.
  rewrite !ahrs_run_app. cbn [ahrs_run]. rewrite !ahrs_run_app.
  destruct (ahrs_run xs (ahrs_start status)) as [ph s]. cbn [fst] in Hp. subst ph.
  unfold alarm_in_step in Inv. cbn [fst snd] in Inv. destruct Inv as [_ Hk].
  cbn [ahrs_step].
  set (s1 := set_ahrs_alarm AHRSCOMMS_OK _).
  assert (Hk1 : AHRSKnowsHome (flags s1) = false) by (subst s1; aproj; exact Hk).
  destruct (run_callbacks_frame cbs InSync s1) as (Cp & _ & Ck).
  destruct (ahrs_run (map Callback cbs) (InSync, s1)) as [ph2 s2].
  cbn [fst snd] in Cp, Ck. subst ph2. rewrite Hk1 in Ck.
  cbn [ahrs_run ahrs_step].
  destruct (ahrs_turn i s2) as [[] s3] eqn:Et; cbn [fst snd]; [| discriminate].
  intros _. split; [exact Ck |].
  exact (ahrs_turn_sends_north i s2 s3 Ck Et).
Qed.

Lemma north_resent_after_resync_witness :
  AHRSKnowsHome
    (flags (snd (ahrs_run ([ResyncFailed] ++ Resynced (Some [1; 2])
                             :: map Callback [BaroAltitudeUpdatedCb]
                                ++ [Turn (turn_ok field_ordinary)])
                   (ahrs_start status_blank)))) = true.
Proof.
  assert (H0 : fst (ahrs_run [ResyncFailed] (ahrs_start status_blank)) = Resyncing)
    by reflexivity.
  assert (H1 : fst (ahrs_run ([ResyncFailed] ++ Resynced (Some [1; 2])
                                :: map Callback [BaroAltitudeUpdatedCb]
                                   ++ [Turn (turn_ok field_ordinary)])
                      (ahrs_start status_blank)) = InSync)
    by reflexivity.
  exact (proj1 (proj2 (north_resent_after_resync status_blank [ResyncFailed] [1; 2]
                         [BaroAltitudeUpdatedCb] (turn_ok field_ordinary) H0 H1))).
Defined.

(** ** Updates handed to the link *)

Ltac turn_cases :=
  repeat (cbn [and_then orb negb] in *; aproj;
          match goal with
          | |- context [match GetAttitude ?i with _ => _ end] =>
              destruct (GetAttitude i)
          | |- context [match GetAttitudeRaw ?i with _ => _ end] =>
              destruct (GetAttitudeRaw i)
          | |- context [if baro_acknowledged ?i then _ else _] =>
              destruct (baro_acknowledged i)
          | |- context [if position_acknowledged ?i then _ else _] =>
              destruct (position_acknowledged i)
          | |- context [if north_acknowledged ?i then _ else _] =>
              destruct (north_acknowledged i)
          end).

Ltac in_trace := cbn [In]; repeat first [left; reflexivity | right].

Lemma ahrs_turn_baro (i : link_turn) (s : ahrs_state) :
  BaroAltitudeIsUpdatedFlag (flags s) = true ->
  BaroAltitudeIsUpdatedFlag (flags (snd (ahrs_turn i s))) = false ->
  baro_acknowledged i = true /\
  In (SetBaroAltitude (load_baro_altitude (BaroAltitude i))) (trace (snd (ahrs_turn i s))).
Proof.
  unfold ahrs_turn, get_attitude, get_attituderaw, send_baro_altitude,
    send_position_actual, send_magnetic_north.
  destruct s as [[fb fp fh fk] e al st tr]. aproj. intros ->.
  destruct fp, fh, fk; turn_cases; intros H; try discriminate H;
    (split; [reflexivity | in_trace]).
Qed.

Lemma ahrs_turn_position (i : link_turn) (s : ahrs_state) :
  PositionActualIsUpdatedFlag (flags s) = true ->
  PositionActualIsUpdatedFlag (flags (snd (ahrs_turn i s))) = false ->
  position_acknowledged i = true /\
  In (SetPositionActual (load_position_actual (PositionActual i)))
     (trace (snd (ahrs_turn i s))).
Proof.
  unfold ahrs_turn, get_attitude, get_attituderaw, send_baro_altitude,
    send_position_actual, send_magnetic_north.
  destruct s as [[fb fp fh fk] e al st tr]. aproj. intros ->.
  destruct fb, fh, fk; turn_cases; intros H; try discriminate H;
    (split; [reflexivity | in_trace]).
Qed.

Lemma ahrs_turn_home (i : link_turn) (s : ahrs_state) :
  HomeLocationIsUpdatedFlag (flags s) = true ->
  HomeLocationIsUpdatedFlag (flags (snd (ahrs_turn i s))) = false ->
  north_acknowledged i = true /\
  In (SetMagNorth (load_magnetic_north (HomeLocation_Be i)))
     (trace (snd (ahrs_turn i s))).
Proof.
  unfold ahrs_turn, get_attitude, get_attituderaw, send_baro_altitude,
    send_position_actual, send_magnetic_north.
  destruct s as [[fb fp fh fk] e al st tr]. aproj. intros ->.
  destruct fb, fp, fk; turn_cases; intros H; try discriminate H;
    (split; [reflexivity | in_trace]).
Qed.

Lemma ahrs_step_trace (x : ahrs_input) (ps : phase * ahrs_state) :
  exists pre, trace (snd (ahrs_step x ps)) = pre ++ trace (snd ps).
Proof.
  destruct ps as [ph s]. destruct x as [c | | [serial |] | i]; cbn [ahrs_step].
  - pose proof (run_callback_frame c s) as (_ & _ & _ & Ft).
    cbn [snd]. rewrite Ft. exists []. reflexivity.
  - destruct ph; cbn [snd]; aproj; [eexists [_] | exists []]; reflexivity.
  - destruct ph; cbn [snd]; aproj; [eexists [_] | exists []]; reflexivity.
  - destruct ph; cbn [snd]; aproj; exists []; reflexivity.
  - destruct ph; cbn [snd]; [exists []; reflexivity |].
    pose proof (ahrs_turn_frame i s) as (_ & _ & Ft).
    destruct (ahrs_turn i s) as [[] s']; cbn [snd] in *; aproj; exact Ft.
Qed.

Lemma ahrs_run_trace (xs : list ahrs_input) (ps : phase * ahrs_state) (ev : ahrs_event) :
  In ev (trace (snd ps)) -> In ev (trace (snd (ahrs_run xs ps))).
Proof.
  revert ps. induction xs as [| x rest IH]; intros ps H; cbn [ahrs_run]; [exact H |].
  apply IH. destruct (ahrs_step_trace x ps) as [pre E]. rewrite E.
  apply in_or_app. right. exact H.
Qed.

Section Pending.
Variable pending : comm_flags -> bool.
Variable acknowledged : link_turn -> bool.
Variable request : link_turn -> ahrs_event.

Hypothesis callback_keeps : forall c s,
  pending (flags s) = true -> pending (flags (run_callback c s)) = true.
Hypothesis head_keeps : forall s, pending (flags (outer_head s)) = pending (flags s).
Hypothesis turn_clears : forall i s,
  pending (flags s) = true -> pending (flags (snd (ahrs_turn i s))) = false ->
  acknowledged i = true /\ In (request i) (trace (snd (ahrs_turn i s))).

Lemma ahrs_step_pending (x : ahrs_input) (ps : phase * ahrs_state) :
  pending (flags (snd ps)) = true ->
  pending (flags (snd (ahrs_step x ps))) = false ->
  exists i, x = Turn i /\ acknowledged i = true /\
            In (request i) (trace (snd (ahrs_step x ps))).
Proof.
  destruct ps as [ph s]. cbn [snd]. intros H.
  destruct x as [c | | [serial |] | i]; cbn [ahrs_step].
  - cbn [snd]. rewrite (callback_keeps c s H). discriminate.
  - destruct ph; cbn [snd]; aproj; rewrite H; discriminate.
  - destruct ph; cbn [snd]; aproj; rewrite H; discriminate.
  - destruct ph; cbn [snd]; rewrite ?head_keeps, H; discriminate.
  - destruct ph; cbn [snd]; [rewrite H; discriminate |].
    pose proof (turn_clears i s H) as T.
    destruct (ahrs_turn i s) as [[] s']; cbn [snd] in *.
    + intros E. destruct (T E) as [A I]. exists i. repeat split; assumption.
    + rewrite head_keeps. intros E. destruct (T E) as [A I].
      exists i. split; [reflexivity |]. split; [exact A |].
      unfold outer_head. aproj. exact I.
Qed.

Lemma ahrs_run_pending (xs : list ahrs_input) (ps : phase * ahrs_state) :
  pending (flags (snd ps)) = true ->
  pending (flags (snd (ahrs_run xs ps))) = false ->
  exists i, In (Turn i) xs /\ acknowledged i = true /\
            In (request i) (trace (snd (ahrs_run xs ps))).
Proof.
  revert ps. induction xs as [| x rest IH]; intros ps H E; cbn [ahrs_run] in *.
  - rewrite H in E. discriminate.
  - destruct (pending (flags (snd (ahrs_step x ps)))) eqn:P.
    + destruct (IH _ P E) as (i & I & A & T).
      exists i. split; [right; exact I |]. split; assumption.
    + destruct (ahrs_step_pending x ps H P) as (i & -> & A & T).
      exists i. split; [left; reflexivity |]. split; [exact A |].
      apply ahrs_run_trace. exact T.
Qed.

End Pending.

(** X18: with the callbacks running between the steps of the task, an
    update is not dropped.  If the flag of the barometric altitude, of the
    position or of the home location is set at some point and is found clear
    after any run of the task from there, then in between a turn of the
    inner loop has handed the request made from the object to the link and
    the link has acknowledged it.  A request that fails, a break earlier in
    the turn and a resync all leave the flag set. *)
Theorem updates_not_lost (xs : list ahrs_input) (ps : phase * ahrs_state) :
  (BaroAltitudeIsUpdatedFlag (flags (snd ps)) = true ->
   BaroAltitudeIsUpdatedFlag (flags (snd (ahrs_run xs ps))) = false ->
   exists i, In (Turn i) xs /\ baro_acknowledged i = true /\
     In (SetBaroAltitude (load_baro_altitude (BaroAltitude i)))
        (trace (snd (ahrs_run xs ps)))) /\
  (PositionActualIsUpdatedFlag (flags (snd ps)) = true ->
   PositionActualIsUpdatedFlag (flags (snd (ahrs_run xs ps))) = false ->
   exists i, In (Turn i) xs /\ position_acknowledged i = true /\
     In (SetPositionActual (load_position_actual (PositionActual i)))
        (trace (snd (ahrs_run xs ps)))) /\
  (HomeLocationIsUpdatedFlag (flags (snd ps)) = true ->
   HomeLocationIsUpdatedFlag (flags (snd (ahrs_run xs ps))) = false ->
   exists i, In (Turn i) xs /\ north_acknowledged i = true /\
     In (SetMagNorth (load_magnetic_north (HomeLocation_Be i)))
        (trace (snd (ahrs_run xs ps)))).
Proof.
  split; [| split].
  - apply (ahrs_run_pending BaroAltitudeIsUpdatedFlag baro_acknowledged
             (fun i => SetBaroAltitude (load_baro_altitude (BaroAltitude i)))).
    + intros c s H. destruct c; cbn [run_callback]; aproj; auto.
    + intros s. reflexivity.
    + apply ahrs_turn_baro.
  - apply (ahrs_run_pending PositionActualIsUpdatedFlag position_acknowledged
             (fun i => SetPositionActual (load_position_actual (PositionActual i)))).
    + intros c s H. destruct c; cbn [run_callback]; aproj; auto.
    + intros s. reflexivity.
    + apply ahrs_turn_position.
  - apply (ahrs_run_pending HomeLocationIsUpdatedFlag north_acknowledged
             (fun i => SetMagNorth (load_magnetic_north (HomeLocation_Be i)))).
    + intros c s H. destruct c; cbn [run_callback]; aproj; auto.
    + intros s. reflexivity.
    + apply ahrs_turn_home.
Qed.

Lemma updates_not_lost_witness :
  exists i,
    In (Turn i) [Resynced (Some [1; 2]); Turn (turn_ok field_ordinary)] /\
    baro_acknowledged i = true /\
    In (SetBaroAltitude (load_baro_altitude (BaroAltitude i)))
       (trace (snd (ahrs_run [Resynced (Some [1; 2]); Turn (turn_ok field_ordinary)]
                      altitude_pending))).
Proof.
  exact (proj1 (updates_not_lost [Resynced (Some [1; 2]); Turn (turn_ok field_ordinary)]
                  altitude_pending) eq_refl eq_refl).
Defined.

(** ** The status object *)

Lemma ahrs_step_status (x : ahrs_input) (ps : phase * ahrs_state) :
  is_serial_answer x = false ->
  AhrsStatus (snd (ahrs_step x ps)) = AhrsStatus (snd ps).
Proof.
  destruct ps as [ph s]. destruct x as [c | | [serial |] | i]; cbn [ahrs_step];
    intros H; try discriminate H.
  - destruct c; reflexivity.
  - destruct ph; reflexivity.
  - destruct ph; reflexivity.
  - destruct ph; cbn [snd]; [reflexivity |].
    pose proof (ahrs_turn_frame i s) as (_ & Fs & _).
    destruct (ahrs_turn i s) as [[] s']; cbn [snd] in *; aproj; exact Fs.
Qed.

Lemma ahrs_run_status (ys : list ahrs_input) (ps : phase * ahrs_state) :
  forallb (fun x => negb (is_serial_answer x)) ys = true ->
  AhrsStatus (snd (ahrs_run ys ps)) = AhrsStatus (snd ps).
Proof.
  revert ps. induction ys as [| y rest IH]; intros ps H; cbn [ahrs_run]; [reflexivity |].
  cbn [forallb] in H. apply andb_prop in H as [Hy Hr].
  rewrite (IH _ Hr). apply ahrs_step_status.
  destruct (is_serial_answer y); [discriminate Hy | reflexivity].
Qed.

(** X19: the task writes the status object when the serial number arrives
    and at no other time.  The object then takes the serial number and the
    five counters as they stand, and the task leaves it so through every
    later turn, callback, break and failed resync: an error counted by a
    break shows in the object only after the next resync has succeeded. *)
Theorem status_written_at_resync (status : AhrsStatusData)
    (xs ys : list ahrs_input) (serial_bcd : list Z) :
  fst (ahrs_run xs (ahrs_start status)) = Resyncing ->
  forallb (fun x => negb (is_serial_answer x)) ys = true ->
  AhrsStatus (snd (ahrs_run (xs ++ Resynced (Some serial_bcd) :: ys) (ahrs_start status))) =
    update_ahrs_status serial_bcd
      (errors (snd (ahrs_run xs (ahrs_start status))))
      (AhrsStatus (snd (ahrs_run xs (ahrs_start status)))).
Proof.
  intros Hp Hy. rewrite ahrs_run_app. cbn [ahrs_run].
  rewrite (ahrs_run_status ys _ Hy).
  destruct (ahrs_run xs (ahrs_start status)) as [ph s]. cbn [fst] in Hp. subst ph.
  reflexivity.
Qed.

Lemma status_written_at_resync_witness :
  AhrsStatus
    (snd (ahrs_run ([Resynced (Some [1; 2]); Turn turn_silent]
                    ++ Resynced (Some [3; 4]) :: [Turn turn_silent; ResyncFailed])
            (ahrs_start status_blank))) =
  update_ahrs_status [3; 4]
    (errors (snd (ahrs_run [Resynced (Some [1; 2]); Turn turn_silent]
                    (ahrs_start status_blank))))
    (AhrsStatus (snd (ahrs_run [Resynced (Some [1; 2]); Turn turn_silent]
                        (ahrs_start status_blank)))).
Proof.
  exact (status_written_at_resync status_blank [Resynced (Some [1; 2]); Turn turn_silent]
           [Turn turn_silent; ResyncFailed] [3; 4] eq_refl eq_refl).
Defined.
